(** * Export pipeline of [src/App.tsx]: capture, fitting, assembly, controller

    The component [App] holds one piece of React state, [exportingType], and
    two asynchronous callbacks, [exportToPdf] and [exportToPpt].  Each callback
    waits for fonts and images, rasterises every [.page section] element with
    html2canvas, places the bitmap on a page (jsPDF) or a slide (PptxGenJS) and
    finally saves the document.

    The embedding has three layers:
    - [Number]: the arithmetic of JavaScript numbers, with the IEEE 754
      binary64 instance the program really runs on and an exact instance over
      the rationals;
    - the pure geometry of one section ([captureOptions], [fitPage],
      [fitSlide]);
    - the event loop: a [World] (React state, DOM images, jobs, alerts,
      downloads) and a [step] function that runs one task of the event loop
      (a click, a settled promise, an image event, a React commit).  An
      asynchronous callback is cut at its [await]s: [start] is its code up to
      the first one, and [fontsSettled], [done], [captureSettled] and
      [writeFileSettled] are the pieces that run when the awaited promise
      settles; the local variables alive across an [await] are kept in the
      [Phase] of the job.

    Numbers are JavaScript numbers.  html2canvas, jsPDF and PptxGenJS are
    libraries outside the repository: their calls are parameters of the
    model (whether they throw) or follow the specification where a definition
    says so. *)

From Stdlib Require Import ZArith QArith Bool List Ascii String Lia Lqa.
From Stdlib Require Import SpecFloat.
Import ListNotations.

Set Implicit Arguments.

(** ** JavaScript numbers *)

Declare Scope js_scope.
Delimit Scope js_scope with js.

Class Number (num : Type) := {
  of_Z : Z -> num;                 (* an integer literal or an integer DOM attribute *)
  sub : num -> num -> num;
  mul : num -> num -> num;
  div : num -> num -> num;
  Math_min : num -> num -> num;
  Math_max : num -> num -> num;
  leb : num -> num -> bool;        (* [a <= b] *)
  ltb : num -> num -> bool         (* [a < b] *)
}.

Notation "a - b" := (sub a b) : js_scope.
Notation "a * b" := (mul a b) : js_scope.
Notation "a / b" := (div a b) : js_scope.
Notation "a <= b" := (leb a b = true) : js_scope.
Notation "a < b" := (ltb a b = true) : js_scope.

(** A decimal literal [m / 10^k] of the source, such as [11.25]: the number
    nearest to it.  The division of two exactly represented integers is
    correctly rounded, so this is the literal's value in binary64 too. *)
Definition literal {num} `{Number num} (m : Z) (pow10 : Z) : num :=
  (of_Z m / of_Z pow10)%js.

(** *** IEEE 754 binary64, the numbers of the program *)

Module Binary64.

Definition prec : Z := 53.
Definition emax : Z := 1024.
Definition float : Type := spec_float.

Definition of_int (z : Z) : float := binary_normalize prec emax z 0 false.

(** [Math.min]: NaN if either argument is NaN, and [-0] below [+0]. *)
Definition min (x y : float) : float :=
  match SFcompare x y with
  | None => S754_nan
  | Some Lt => x
  | Some Gt => y
  | Some Eq => match x with S754_zero true => x | _ => y end
  end.

(** [Math.max]: NaN if either argument is NaN, and [+0] above [-0]. *)
Definition max (x y : float) : float :=
  match SFcompare x y with
  | None => S754_nan
  | Some Lt => y
  | Some Gt => x
  | Some Eq => match x with S754_zero false => x | _ => y end
  end.

#[global] Instance number : Number float := {|
  of_Z := of_int;
  sub := SFsub prec emax;
  mul := SFmul prec emax;
  div := SFdiv prec emax;
  Math_min := min;
  Math_max := max;
  leb := SFleb;
  ltb := SFltb
|}.

End Binary64.

(** *** Exact arithmetic over the rationals: the same formulas without rounding *)

Module Exact.

Definition min (x y : Q) : Q := if Qle_bool x y then x else y.
Definition max (x y : Q) : Q := if Qle_bool x y then y else x.

#[global] Instance number : Number Q := {|
  of_Z := inject_Z;
  sub := Qminus;
  mul := Qmult;
  div := Qdiv;
  Math_min := min;
  Math_max := max;
  leb := Qle_bool;
  ltb := fun x y => negb (Qle_bool y x)
|}.

End Exact.

(** ** The DOM elements the pipeline reads *)

(** A [.page section] element: the four integer layout attributes read by the
    capture step. *)
Record HTMLElement := {
  scrollWidth : Z;
  offsetWidth : Z;
  scrollHeight : Z;
  offsetHeight : Z
}.

(** [a || b] on integers: [a] unless it is falsy, that is [0]. *)
Definition or_else (a b : Z) : Z := if (a =? 0)%Z then b else a.

Infix "||" := or_else : Z_scope.

Definition sectionWidth (section : HTMLElement) : Z :=
  (scrollWidth section || offsetWidth section || 1600)%Z.

Definition sectionHeight (section : HTMLElement) : Z :=
  (scrollHeight section || offsetHeight section || 900)%Z.

Section Geometry.

Context {num : Type} `{Number num}.
Local Open Scope js_scope.

(** *** Capture: the options handed to html2canvas *)

Record CaptureOptions := {
  scale : num;
  width : Z;
  height : Z;
  windowWidth : Z;
  windowHeight : Z
}.

Definition maxDim (section : HTMLElement) : num :=
  Math_max (of_Z (sectionWidth section)) (of_Z (sectionHeight section)).

Definition captureScale (section : HTMLElement) : num :=
  Math_min (of_Z 2) (of_Z 1600 / maxDim section).

Definition captureOptions (section : HTMLElement) : CaptureOptions :=
  {| scale := captureScale section;
     width := sectionWidth section;
     height := sectionHeight section;
     windowWidth := sectionWidth section;
     windowHeight := sectionHeight section |}.

(** Modelled from the spec: the pixel size of the bitmap html2canvas returns
    (html2canvas is an npm dependency, its code is not in the repository).
    Spec 4.2: "Produces a bitmap of size (width·scale, height·scale)". *)
Definition canvasSize (o : CaptureOptions) : num * num :=
  (of_Z (width o) * scale o, of_Z (height o) * scale o).

(** *** Placement of a bitmap on a page or a slide *)

Record Placement := {
  x : num;
  y : num;
  w : num;
  h : num
}.

(** jsPDF page, [format: [20, 11.25]], [unit: "in"], landscape. *)
Definition pageWidth : num := of_Z 20.
Definition pageHeight : num := literal 1125 100.
Definition margin : num := of_Z 0.

Definition pageRatio (imgWidth imgHeight : num) : num :=
  Math_min ((pageWidth - margin * of_Z 2) / imgWidth)
           ((pageHeight - margin * of_Z 2) / imgHeight).

Definition fitPage (imgWidth imgHeight : num) : Placement :=
  let ratio := pageRatio imgWidth imgHeight in
  {| x := margin;
     y := margin;
     w := imgWidth * ratio;
     h := imgHeight * ratio |}.

(** The placed image does not reach beyond the page. *)
Definition withinPage (p : Placement) : Prop :=
  w p <= pageWidth /\ h p <= pageHeight.

(** PptxGenJS slide, [LAYOUT_16x9]. *)
Definition slideWidth : num := of_Z 10.
Definition slideHeight : num := literal 5625 1000.
Definition pxToIn (px : num) : num := px / of_Z 96.

Definition slideRatio (canvasWidth canvasHeight : num) : num :=
  Math_min (slideWidth / pxToIn canvasWidth) (slideHeight / pxToIn canvasHeight).

Definition fitSlide (canvasWidth canvasHeight : num) : Placement :=
  let imgWidthIn := pxToIn canvasWidth in
  let imgHeightIn := pxToIn canvasHeight in
  let ratio := slideRatio canvasWidth canvasHeight in
  let w := imgWidthIn * ratio in
  let h := imgHeightIn * ratio in
  {| x := (slideWidth - w) / of_Z 2;
     y := (slideHeight - h) / of_Z 2;
     w := w;
     h := h |}.

End Geometry.


Arguments CaptureOptions : clear implicits.
Arguments Placement : clear implicits.

(** An [<img>] element of [document.images]. *)
Record HTMLImageElement := {
  src : string;
  complete : bool;
  naturalWidth : Z;
  crossorigin : option string;
  referrerpolicy : option string
}.

(** The state of the [crossorigin] content attribute (HTML standard, CORS
    settings attributes): no attribute, the keyword [use-credentials] in any
    letter case, or any other value, which stands for [anonymous]. *)
Inductive CORSState := NoCORS | Anonymous | UseCredentials.

Definition toLower (c : ascii) : ascii :=
  let n := nat_of_ascii c in
  if ((65 <=? n) && (n <=? 90))%nat then ascii_of_nat (n + 32) else c.

Fixpoint lowercase (s : string) : string :=
  match s with
  | EmptyString => EmptyString
  | String c t => String (toLower c) (lowercase t)
  end.

Definition crossOriginState (v : option string) : CORSState :=
  match v with
  | None => NoCORS
  | Some s =>
      if String.eqb (lowercase s) "use-credentials" then UseCredentials else Anonymous
  end.

(** What the browser does when [setAttribute("crossorigin", "anonymous")]
    changes the state of the attribute: the image is fetched again with the
    new CORS mode (HTML standard, relevant mutations of an [img]), and it is
    not [complete] until that fetch ends with [load] or [error]. *)
Definition restartsLoad (img : HTMLImageElement) : bool :=
  match crossOriginState (crossorigin img) with
  | Anonymous => false
  | NoCORS | UseCredentials => true
  end.

(** ** The event loop *)

Inductive ExportKind := pdf | ppt.

Definition Error : Type := string.
Definition DataURL : Type := string.

(** How an awaited promise settles. *)
Inductive Settlement (A : Type) :=
| Fulfilled (a : A)
| Rejected (e : Error).

Arguments Rejected {A} e.

(** How a started job ends: the [try] block runs to its end, returns at the
    empty-content check, or throws into [catch]. *)
Inductive Outcome :=
| Completed
| NoContent
| Failed (e : Error).

(** One task of the event loop. *)
Inductive Event :=
| Click (k : ExportKind)
    (* [onClick]: the export callback of the committed render is invoked *)
| Commit
    (* React re-renders [App] with the current state *)
| FontsSettled (j : nat) (s : Settlement unit)
    (* job [j] resumes from [await document.fonts.ready] *)
| ImageLoad (i : nat) (nw : Z)
    (* image [i] fires [load]; [nw] is its natural width from then on *)
| ImageError (i : nat)
    (* image [i] fires [error] *)
| CaptureSettled (j : nat) (s : Settlement (Error + DataURL))
    (* job [j] resumes from [await html2canvas(...)]; the payload is what
       [canvas.toDataURL] then does: throw or return the PNG *)
| WriteFileSettled (j : nat) (s : Settlement unit).
    (* job [j] resumes from [await pptx.writeFile(...)] *)

(** [l[n] := v], nothing out of range. *)
Fixpoint setNth {A : Type} (n : nat) (v : A) (l : list A) : list A :=
  match l, n with
  | [], _ => []
  | _ :: t, O => v :: t
  | a :: t, S n' => a :: setNth n' v t
  end.

(** The indices [i], from [n] on, of the elements of [l] that satisfy [f]. *)
Fixpoint indicesFrom {A : Type} (f : A -> bool) (n : nat) (l : list A) : list nat :=
  match l with
  | [] => []
  | a :: t => if f a then n :: indicesFrom f (S n) t else indicesFrom f (S n) t
  end.

Section Pipeline.

Context {num : Type} `{Number num}.
Local Open Scope string_scope.
Local Open Scope list_scope.

(** *** Documents under assembly *)

Record PlacedImage := {
  data : DataURL;
  box : Placement num
}.

Definition Page : Type := list PlacedImage.

(** A jsPDF document or a PptxGenJS deck: its pages (slides) in order, each
    with the images added to it. *)
Definition Document : Type := list Page.

Record File := {
  fileName : string;
  format : ExportKind;
  content : Document
}.

(** Modelled from the spec: the document objects of jsPDF and PptxGenJS
    (npm dependencies, their code is not in the repository).  Spec 4.3: a
    new paginated document has an initial page, "every subsequent section
    appends a new page before placement"; spec 4.4: "One slide per section,
    appended in order".  [addImage] draws on the page or slide added last. *)
Definition newDocument (k : ExportKind) : Document :=
  match k with
  | pdf => [[]]
  | ppt => []
  end.

Definition addPage (doc : Document) : Document := doc ++ [[]].

Definition addImage (doc : Document) (p : PlacedImage) : Document :=
  removelast doc ++ [last doc [] ++ [p]].

(** *** Jobs and the world *)

Inductive Phase :=
| AwaitFonts
    (* suspended at [await document.fonts.ready] *)
| AwaitImages (pending : list nat)
    (* suspended at [await Promise.all(...)]: the images whose [load] and
       [error] listeners are still attached *)
| AwaitCapture (i : nat) (o : CaptureOptions num) (doc : Document)
    (* suspended at [await html2canvas(sections[i], o)] *)
| AwaitWriteFile (doc : Document)
    (* suspended at [await pptx.writeFile(...)] *)
| Settled (o : Outcome).

Record Job := {
  kind : ExportKind;
  phase : Phase
}.

Record World := {
  exportingType : option ExportKind;   (* the React state *)
  isExporting : bool;                  (* as seen by the callbacks of the committed render *)
  images : list HTMLImageElement;      (* [document.images] *)
  jobs : list Job;                     (* every call that passed the guard, oldest first *)
  alerts : list string;
  console : list (string * Error);
  downloads : list File                (* what was written to the download target *)
}.

Definition initial (imgs : list HTMLImageElement) : World :=
  {| exportingType := None; isExporting := false; images := imgs; jobs := [];
     alerts := []; console := []; downloads := [] |}.

Definition setExportingType (v : option ExportKind) (w : World) : World :=
  {| exportingType := v; isExporting := isExporting w; images := images w;
     jobs := jobs w; alerts := alerts w; console := console w;
     downloads := downloads w |}.

Definition render (w : World) : World :=
  {| exportingType := exportingType w;
     isExporting := match exportingType w with Some _ => true | None => false end;
     images := images w; jobs := jobs w; alerts := alerts w;
     console := console w; downloads := downloads w |}.

Definition setImages (imgs : list HTMLImageElement) (w : World) : World :=
  {| exportingType := exportingType w; isExporting := isExporting w; images := imgs;
     jobs := jobs w; alerts := alerts w; console := console w;
     downloads := downloads w |}.

Definition setJobs (js : list Job) (w : World) : World :=
  {| exportingType := exportingType w; isExporting := isExporting w;
     images := images w; jobs := js; alerts := alerts w; console := console w;
     downloads := downloads w |}.

Definition alert (msg : string) (w : World) : World :=
  {| exportingType := exportingType w; isExporting := isExporting w;
     images := images w; jobs := jobs w; alerts := alerts w ++ [msg];
     console := console w; downloads := downloads w |}.

Definition console_error (msg : string) (err : Error) (w : World) : World :=
  {| exportingType := exportingType w; isExporting := isExporting w;
     images := images w; jobs := jobs w; alerts := alerts w;
     console := console w ++ [(msg, err)]; downloads := downloads w |}.

Definition download (f : File) (w : World) : World :=
  {| exportingType := exportingType w; isExporting := isExporting w;
     images := images w; jobs := jobs w; alerts := alerts w;
     console := console w; downloads := downloads w ++ [f] |}.

Definition setPhase (j : nat) (k : ExportKind) (p : Phase) (w : World) : World :=
  setJobs (setNth j {| kind := k; phase := p |} (jobs w)) w.

Definition inFlight (job : Job) : bool :=
  match phase job with
  | Settled _ => false
  | _ => true
  end.

(** The number of jobs that have started and not settled. *)
Definition inFlightCount (w : World) : nat :=
  List.length (filter inFlight (jobs w)).

(** *** The environment of the callbacks *)

(** [document.querySelectorAll(".page section")]. *)
Variable sections : list HTMLElement.
(** Whether [pdf.addImage] (or [slide.addImage]) throws on an image. *)
Variable addImageThrows : ExportKind -> PlacedImage -> option Error.
(** Whether [pdf.save] throws on a document. *)
Variable saveThrows : Document -> option Error.

(** *** Leaving the [try] block *)

(** [finally { setExportingType(null) }], then the job is over. *)
Definition settle (j : nat) (k : ExportKind) (o : Outcome) (w : World) : World :=
  setPhase j k (Settled o) (setExportingType None w).

(** [catch (err)], lines 107-109 and 206-208. *)
Definition throw (j : nat) (k : ExportKind) (err : Error) (w : World) : World :=
  let w := match k with
           | pdf => alert "Unable to export PDF. Please check console for details."
                      (console_error "PDF export failed" err w)
           | ppt => alert "Unable to export PPT. Please check console for details."
                      (console_error "PPT export failed" err w)
           end in
  settle j k (Failed err) w.

(** *** Readiness, lines 29-51 and 131-153 *)

(** [img.complete && img.naturalWidth !== 0]. *)
Definition alreadyLoaded (img : HTMLImageElement) : bool :=
  complete img && negb (naturalWidth img =? 0)%Z.

(** The executor of the promise [prepareImage] makes, lines 30-49: it writes
    the CORS attributes of a remote image, which restarts the load of an
    image whose [crossorigin] state changes; then it tests the image as the
    writes leave it and resolves at once ([true]), or attaches [done] to
    [load] and [error] and leaves the promise to them ([false]).  The image
    is returned as the writes leave it. *)
Definition prepareImage (img : HTMLImageElement) : HTMLImageElement * bool :=
  let img :=
    if String.prefix "http" (src img)
    then {| src := src img;
            complete := complete img && negb (restartsLoad img);
            naturalWidth := naturalWidth img;
            crossorigin := Some "anonymous"; referrerpolicy := Some "no-referrer" |}
    else img in
  (img, alreadyLoaded img).

(** [Array.from(document.images).map(prepareImage)]: the images after the
    attribute writes, and the images whose promise is left to the listeners. *)
Definition prepareImages (imgs : list HTMLImageElement)
  : list HTMLImageElement * list nat :=
  (map (fun img => fst (prepareImage img)) imgs,
   indicesFrom (fun img => negb (snd (prepareImage img))) 0 imgs).

(** *** The capture loop, lines 64-104 and 161-203 *)

Definition place (k : ExportKind) (o : CaptureOptions num) (imgData : DataURL)
  : PlacedImage :=
  let (canvasWidth, canvasHeight) := canvasSize o in
  {| data := imgData;
     box := match k with
            | pdf => fitPage canvasWidth canvasHeight
            | ppt => fitSlide canvasWidth canvasHeight
            end |}.

(** The statements after [toDataURL]: fit, then [addPage] (unless [i] is 0)
    and [pdf.addImage], or [addSlide] and [slide.addImage]. *)
Definition append (k : ExportKind) (i : nat) (o : CaptureOptions num)
    (imgData : DataURL) (doc : Document) : Error + Document :=
  let p := place k o imgData in
  let doc := match k with
             | pdf => if (i =? 0)%nat then doc else addPage doc
             | ppt => addPage doc
             end in
  match addImageThrows k p with
  | Some err => inl err
  | None => inr (addImage doc p)
  end.

(** After the loop: [pdf.save("presentation.pdf")] at once, or the wait for
    [pptx.writeFile({ fileName: "presentation.pptx" })]. *)
Definition finish (j : nat) (k : ExportKind) (doc : Document) (w : World) : World :=
  match k with
  | pdf =>
      match saveThrows doc with
      | Some err => throw j pdf err w
      | None =>
          settle j pdf Completed
            (download {| fileName := "presentation.pdf"; format := pdf;
                         content := doc |} w)
      end
  | ppt => setPhase j ppt (AwaitWriteFile doc) w
  end.

(** The loop head at index [i]: the next capture is requested, or the loop
    is left when [i] has reached [sections.length]. *)
Definition loop (j : nat) (k : ExportKind) (i : nat) (doc : Document) (w : World)
  : World :=
  match nth_error sections i with
  | Some section => setPhase j k (AwaitCapture i (captureOptions section) doc) w
  | None => finish j k doc w
  end.

(** *** The callbacks up to their first [await], lines 13-27 and 115-129 *)

Definition start (k : ExportKind) (w : World) : World :=
  if isExporting w then w
  else
    let j := List.length (jobs w) in
    let w := setExportingType (Some k) w in
    let w := setJobs (jobs w ++ [{| kind := k; phase := AwaitFonts |}]) w in
    let w := match sections with
             | [] => settle j k NoContent (alert "No content found to export." w)
             | _ :: _ => w
             end in
    (* React commits the state updates of a click handler before it
       dispatches the next event *)
    render w.

Definition exportToPdf : World -> World := start pdf.
Definition exportToPpt : World -> World := start ppt.

(** *** Resuming a job *)

Definition fontsSettled (j : nat) (s : Settlement unit) (w : World) : World :=
  match nth_error (jobs w) j with
  | Some {| kind := k; phase := AwaitFonts |} =>
      match s with
      | Rejected err => throw j k err w
      | Fulfilled _ =>
          let (imgs, pending) := prepareImages (images w) in
          let w := setImages imgs w in
          match pending with
          | [] => loop j k 0 (newDocument k) w
          | _ :: _ => setPhase j k (AwaitImages pending) w
          end
      end
  | _ => w
  end.

(** The listener [done] of job [j] on image [i], if it is attached. *)
Definition done (i : nat) (w : World) (j : nat) : World :=
  match nth_error (jobs w) j with
  | Some {| kind := k; phase := AwaitImages pending |} =>
      if existsb (Nat.eqb i) pending then
        match filter (fun i' => negb (i =? i')%nat) pending with
        | [] => loop j k 0 (newDocument k) w
        | rest => setPhase j k (AwaitImages rest) w
        end
      else w
  | _ => w
  end.

Definition imageEvent (i : nat) (nw : Z) (w : World) : World :=
  let w :=
    match nth_error (images w) i with
    | Some img =>
        setImages (setNth i {| src := src img; complete := true; naturalWidth := nw;
                               crossorigin := crossorigin img;
                               referrerpolicy := referrerpolicy img |} (images w)) w
    | None => w
    end in
  fold_left (done i) (seq 0 (List.length (jobs w))) w.

Definition captureSettled (j : nat) (s : Settlement (Error + DataURL)) (w : World)
  : World :=
  match nth_error (jobs w) j with
  | Some {| kind := k; phase := AwaitCapture i o doc |} =>
      match s with
      | Rejected err => throw j k err w
      | Fulfilled (inl err) => throw j k err w
      | Fulfilled (inr imgData) =>
          match append k i o imgData doc with
          | inl err => throw j k err w
          | inr doc => loop j k (S i) doc w
          end
      end
  | _ => w
  end.

Definition writeFileSettled (j : nat) (s : Settlement unit) (w : World) : World :=
  match nth_error (jobs w) j with
  | Some {| kind := k; phase := AwaitWriteFile doc |} =>
      match s with
      | Rejected err => throw j k err w
      | Fulfilled _ =>
          settle j k Completed
            (download {| fileName := "presentation.pptx"; format := k;
                         content := doc |} w)
      end
  | _ => w
  end.

(** *** One task, and a run of tasks *)

Definition step (w : World) (e : Event) : World :=
  match e with
  | Click pdf => exportToPdf w
  | Click ppt => exportToPpt w
  | Commit => render w
  | FontsSettled j s => fontsSettled j s w
  | ImageLoad i nw => imageEvent i nw w
  | ImageError i => imageEvent i 0 w
  | CaptureSettled j s => captureSettled j s w
  | WriteFileSettled j s => writeFileSettled j s w
  end.

Definition run (w : World) (evs : list Event) : World := fold_left step evs w.

(** A run in which job 0 is started on the initial world and nothing goes
    wrong: fonts become ready, every image still awaited loads, each
    section's capture yields its PNG [ds], and the deck is written. *)
Definition happyRun (k : ExportKind) (imgs : list HTMLImageElement)
    (ds : list DataURL) : list Event :=
  Click k :: FontsSettled 0 (Fulfilled tt)
    :: map (fun i => ImageLoad i 1) (snd (prepareImages imgs))
    ++ map (fun d => CaptureSettled 0 (Fulfilled (inr d))) ds
    ++ match k with
       | pdf => []
       | ppt => [WriteFileSettled 0 (Fulfilled tt)]
       end.

(** *** Vocabulary of the properties *)

(** The document with one page (slide) per section, in order, the page of
    a section holding the capture [d] of that section and nothing else. *)
Definition assembled (k : ExportKind) (ss : list HTMLElement) (ds : list DataURL)
  : Document :=
  map (fun sd => [place k (captureOptions (fst sd)) (snd sd)]) (combine ss ds).

(** The file of a job whose captures yielded the PNGs [ds]. *)
Definition artifact (k : ExportKind) (ds : list DataURL) : File :=
  {| fileName := match k with
                 | pdf => "presentation.pdf"
                 | ppt => "presentation.pptx"
                 end;
     format := k;
     content := assembled k sections ds |}.

(** The document when the loop is at index [i]. *)
Definition partialDoc (k : ExportKind) (i : nat) (ds : list DataURL) : Document :=
  match i with
  | O => newDocument k
  | S _ => assembled k (firstn i sections) ds
  end.

Definition phaseOk (k : ExportKind) (p : Phase) : Prop :=
  match p with
  | AwaitFonts | AwaitImages _ => sections <> []
  | AwaitCapture i o doc =>
      exists section ds,
        nth_error sections i = Some section /\ o = captureOptions section /\
        List.length ds = i /\ doc = partialDoc k i ds
  | AwaitWriteFile doc =>
      k = ppt /\ sections <> [] /\
      exists ds, List.length ds = List.length sections /\ doc = assembled k sections ds
  | Settled _ => True
  end.

Definition fileOk (f : File) : Prop :=
  sections <> [] /\
  fileName f = match format f with
               | pdf => "presentation.pdf"
               | ppt => "presentation.pptx"
               end /\
  exists ds, List.length ds = List.length sections /\
             content f = assembled (format f) sections ds.

(** Every job under way holds the pages of the sections captured so far,
    and every file written is whole. *)
Definition Assembling (w : World) : Prop :=
  (forall j job, nth_error (jobs w) j = Some job -> phaseOk (kind job) (phase job)) /\
  Forall fileOk (downloads w).

Definition unsettled (w : World) (j : nat) : Prop :=
  exists job, nth_error (jobs w) j = Some job /\ inFlight job = true.

(** The controller and the jobs agree: no state, no job under way; a
    state, and the committed render has seen it and exactly one job, of
    that kind, is under way. *)
Definition SingleFlight (w : World) : Prop :=
  match exportingType w with
  | None => forall j, ~ unsettled w j
  | Some k =>
      isExporting w = true /\
      exists j p,
        nth_error (jobs w) j = Some {| kind := k; phase := p |} /\
        inFlight {| kind := k; phase := p |} = true /\
        forall j', unsettled w j' -> j' = j
  end.

(** Job [j], of kind [k], has left its [try] block with outcome [o], and
    the controller is idle. *)
Definition settledIdle (w : World) (j : nat) (k : ExportKind) (o : Outcome) : Prop :=
  nth_error (jobs w) j = Some {| kind := k; phase := Settled o |} /\
  exportingType w = None.

(** What resuming job [j], of kind [k], can do to the world: suspend it
    again, throw into [catch], or run the [try] block to its end. *)
Inductive Resumed (j : nat) (k : ExportKind) (w : World) : World -> Prop :=
| resumed_suspend (p : Phase) :
    inFlight {| kind := k; phase := p |} = true ->
    Resumed j k w (setPhase j k p w)
| resumed_throw (err : Error) :
    Resumed j k w (throw j k err w)
| resumed_complete (f : File) :
    Resumed j k w (settle j k Completed (download f w)).

(** What a task other than a click or a commit can do: touch the images,
    and resume one job that was under way. *)
Definition Effect (w w' : World) : Prop :=
  exists imgs,
    w' = setImages imgs w \/
    exists j k p,
      nth_error (jobs w) j = Some {| kind := k; phase := p |} /\
      inFlight {| kind := k; phase := p |} = true /\
      Resumed j k (setImages imgs w) w'.

Definition completed (job : Job) : bool :=
  match phase job with
  | Settled Completed => true
  | _ => false
  end.

(** As many files were written as jobs ran to their end. *)
Definition written (w : World) : Prop :=
  List.length (downloads w) = List.length (filter completed (jobs w)).

(** Image [i] fires [load] or [error] in the course of [evs]. *)
Definition signalled (i : nat) (evs : list Event) : Prop :=
  (exists nw, In (ImageLoad i nw) evs) \/ In (ImageError i) evs.

(** The job has left the readiness step with its [try] block still going,
    or has run it to the end. *)
Definition pastGate (p : Phase) : bool :=
  match p with
  | AwaitCapture _ _ _ | AwaitWriteFile _ | Settled Completed => true
  | _ => false
  end.

Definition waitingOn (p : Phase) : list nat :=
  match p with
  | AwaitImages pending => pending
  | _ => []
  end.

Definition atOrPastGate (p : Phase) : bool :=
  match p with
  | AwaitImages _ => true
  | _ => pastGate p
  end.

(** The phase in which the loop head at index [i] leaves the job. *)
Definition afterLoop (k : ExportKind) (i : nat) (doc : Document) : Phase :=
  match nth_error sections i with
  | Some section => AwaitCapture i (captureOptions section) doc
  | None =>
      match k with
      | pdf =>
          match saveThrows doc with
          | Some err => Settled (Failed err)
          | None => Settled Completed
          end
      | ppt => AwaitWriteFile doc
      end
  end.

(** One job seen on its own: the phase of job [j], of kind [k] and in
    phase [p], after task [e] has run in a world whose images are [imgs]. *)
Definition nextPhase (imgs : list HTMLImageElement) (j : nat) (k : ExportKind)
    (p : Phase) (e : Event) : Phase :=
  let imageSignal (i : nat) :=
    match p with
    | AwaitImages pending =>
        if existsb (Nat.eqb i) pending then
          match filter (fun i' => negb (i =? i')%nat) pending with
          | [] => afterLoop k 0 (newDocument k)
          | rest => AwaitImages rest
          end
        else p
    | _ => p
    end in
  match e with
  | Click _ | Commit => p
  | FontsSettled j' s =>
      match p with
      | AwaitFonts =>
          if (j' =? j)%nat then
            match s with
            | Rejected err => Settled (Failed err)
            | Fulfilled _ =>
                match snd (prepareImages imgs) with
                | [] => afterLoop k 0 (newDocument k)
                | pending => AwaitImages pending
                end
            end
          else p
      | _ => p
      end
  | ImageLoad i _ => imageSignal i
  | ImageError i => imageSignal i
  | CaptureSettled j' s =>
      match p with
      | AwaitCapture i o doc =>
          if (j' =? j)%nat then
            match s with
            | Rejected err => Settled (Failed err)
            | Fulfilled (inl err) => Settled (Failed err)
            | Fulfilled (inr imgData) =>
                match append k i o imgData doc with
                | inl err => Settled (Failed err)
                | inr doc => afterLoop k (S i) doc
                end
            end
          else p
      | _ => p
      end
  | WriteFileSettled j' s =>
      match p with
      | AwaitWriteFile doc =>
          if (j' =? j)%nat then
            match s with
            | Rejected err => Settled (Failed err)
            | Fulfilled _ => Settled Completed
            end
          else p
      | _ => p
      end
  end.

(** The state [App] was last rendered with: React renders at a commit, and
    at the end of a click handler that has passed the guard and set the
    state; a task that resumes a job sets the state, and the render follows
    at the next commit. *)
Definition rendered (shown : option ExportKind) (w : World) (e : Event)
  : option ExportKind :=
  match e with
  | Commit => exportingType w
  | Click _ => if isExporting w then shown else exportingType (step w e)
  | _ => shown
  end.

(** The state on screen after the tasks [evs], from a world [w] that shows
    [shown]. *)
Fixpoint onScreen (shown : option ExportKind) (w : World) (evs : list Event)
  : option ExportKind :=
  match evs with
  | [] => shown
  | e :: evs => onScreen (rendered shown w e) (step w e) evs
  end.

(** What the events so far say about the readiness step of each job. *)
Definition GateHistory (imgs : list HTMLImageElement) (evs : list Event) (w : World)
  : Prop :=
  forall j job,
    nth_error (jobs w) j = Some job ->
    atOrPastGate (phase job) = true ->
    exists pre post,
      evs = pre ++ FontsSettled j (Fulfilled tt) :: post /\
      forall i img,
        nth_error (images (run (initial imgs) pre)) i = Some img ->
        snd (prepareImage img) = true \/ signalled i post \/
        In i (waitingOn (phase job)).

End Pipeline.

Arguments PlacedImage : clear implicits.
Arguments Page : clear implicits.
Arguments Document : clear implicits.
Arguments File : clear implicits.
Arguments Phase : clear implicits.
Arguments Job : clear implicits.
Arguments World : clear implicits.

(** ** Sample inputs *)

(** A section measured [w] by [h] pixels. *)
Definition sized (w h : Z) : HTMLElement :=
  {| scrollWidth := w; offsetWidth := w; scrollHeight := h; offsetHeight := h |}.

(** A section that cannot be measured. *)
Definition unmeasurable : HTMLElement :=
  {| scrollWidth := 0; offsetWidth := 0; scrollHeight := 0; offsetHeight := 0 |}.

(** An image that is still loading, and one that failed before the export
    was started. *)
Definition loadingImage : HTMLImageElement :=
  {| src := "hero.png"; complete := false; naturalWidth := 0;
     crossorigin := None; referrerpolicy := None |}.

Definition brokenImage : HTMLImageElement :=
  {| src := "hero.png"; complete := true; naturalWidth := 0;
     crossorigin := None; referrerpolicy := None |}.

(** Library calls that never throw. *)
Definition neverThrows {A B : Type} (_ : A) : option B := None.
Definition neverThrows2 {A B C : Type} (_ : A) (_ : B) : option C := None.

(** The export on binary64 numbers, with library calls that do not throw. *)
Definition sampleRun (sections : list HTMLElement) (imgs : list HTMLImageElement)
    (evs : list Event) : World Binary64.float :=
  run sections neverThrows2 neverThrows (initial imgs) evs.

(** Three sections of 1600 x 900, 800 x 1200 and 3200 x 900 pixels. *)
Definition threeSections : list HTMLElement :=
  [sized 1600 900; sized 800 1200; sized 3200 900].

Definition fiveSections : list HTMLElement :=
  [sized 1600 900; sized 1600 900; sized 1600 900; sized 1600 900; sized 1600 900].

(** A paginated export, started and past the readiness step, with three
    sections captured. *)
Definition threeCaptured : list Event :=
  [Click pdf; FontsSettled 0 (Fulfilled tt);
   CaptureSettled 0 (Fulfilled (inr "png1"%string));
   CaptureSettled 0 (Fulfilled (inr "png2"%string));
   CaptureSettled 0 (Fulfilled (inr "png3"%string))].

(** The capture of the fourth section is rejected. *)
Definition fourthCaptureRejected : Event :=
  CaptureSettled 0 (Rejected "tainted canvas"%string).

(** The image fails, then the export is started and the fonts are ready. *)
Definition failedBeforeExport : list Event :=
  [ImageError 0; Click pdf; FontsSettled 0 (Fulfilled tt)].

(** An image served from a remote origin, still loading. *)
Definition remoteImage : HTMLImageElement :=
  {| src := "https://images.example/hero.jpg"; complete := false; naturalWidth := 0;
     crossorigin := None; referrerpolicy := None |}.

(** An image served from a remote origin that has loaded, 1400 pixels wide,
    and carries no [crossorigin] attribute. *)
Definition loadedRemoteImage : HTMLImageElement :=
  {| src := "https://images.example/hero.jpg"; complete := true;
     naturalWidth := 1400; crossorigin := None; referrerpolicy := None |}.

(** An image that has loaded, 640 pixels wide. *)
Definition loadedImage : HTMLImageElement :=
  {| src := "logo.png"; complete := true; naturalWidth := 640;
     crossorigin := None; referrerpolicy := None |}.

(** ** The export buttons, lines 226-241 *)

Record Button := {
  label : string;
  disabled : bool
}.

(** What [App] renders of the two export buttons from its state: the
    "Export PDF" button, then the "Export PPT" button. *)
Definition App (exportingType : option ExportKind) : Button * Button :=
  let isExporting := match exportingType with Some _ => true | None => false end in
  ({| label := match exportingType with
               | Some pdf => "Exporting…"
               | _ => "Export PDF"
               end;
      disabled := isExporting |},
   {| label := match exportingType with
               | Some ppt => "Exporting…"
               | _ => "Export PPT"
               end;
      disabled := isExporting |})%string.

(** ** Further vocabulary *)

(** [img] is the element [img0] after any number of exports: the same
    source, and the CORS attributes either as they were or as
    [prepareImage] writes them on a remote image. *)
Definition attributesFrom (img0 img : HTMLImageElement) : Prop :=
  src img = src img0 /\
  ((crossorigin img = crossorigin img0 /\ referrerpolicy img = referrerpolicy img0) \/
   (String.prefix "http" (src img0) = true /\
    crossorigin img = Some "anonymous"%string /\
    referrerpolicy img = Some "no-referrer"%string)).

(** A remote image carries the attributes that let its pixels be read back
    from the canvas. *)
Definition corsReady (img : HTMLImageElement) : Prop :=
  String.prefix "http" (src img) = true ->
  crossorigin img = Some "anonymous"%string /\
  referrerpolicy img = Some "no-referrer"%string.

(** The notice a job has raised, if any, and what it has logged. *)
Definition noticeOf {num : Type} (job : Job num) : list string :=
  match phase job with
  | Settled NoContent => ["No content found to export."%string]
  | Settled (Failed _) =>
      [match kind job with
       | pdf => "Unable to export PDF. Please check console for details."
       | ppt => "Unable to export PPT. Please check console for details."
       end%string]
  | _ => []
  end.

Definition logOf {num : Type} (job : Job num) : list (string * Error) :=
  match phase job with
  | Settled (Failed err) =>
      [(match kind job with
        | pdf => "PDF export failed"
        | ppt => "PPT export failed"
        end%string, err)]
  | _ => []
  end.

(** A binary64 number that is [+0], positive and finite, or [+Infinity]. *)
Definition nonNegative (x : Binary64.float) : bool :=
  match x with
  | S754_zero false | S754_infinity false | S754_finite false _ _ => true
  | _ => false
  end.

(** A task that neither resumes a job from an awaited promise nor settles
    one: a click, a commit, or an image signal. *)
Definition readinessOnly (e : Event) : bool :=
  match e with
  | Click _ | Commit | ImageLoad _ _ | ImageError _ => true
  | _ => false
  end.

(** * Facts *)

(** ** Lists *)

Lemma setNth_length {A : Type} (l : list A) (n : nat) (v : A) :
  List.length (setNth n v l) = List.length l.
Proof.
  revert n; induction l as [|a t IH]; intros [|n]; simpl; auto.
Qed.

Lemma nth_error_setNth_same {A : Type} (l : list A) (n : nat) (v a : A) :
  nth_error l n = Some a -> nth_error (setNth n v l) n = Some v.
Proof.
  revert n; induction l as [|b t IH]; intros [|n]; simpl; try discriminate; auto.
Qed.

Lemma nth_error_setNth_other {A : Type} (l : list A) (n m : nat) (v : A) :
  n <> m -> nth_error (setNth n v l) m = nth_error l m.
Proof.
  revert n m; induction l as [|b t IH]; intros [|n] [|m] Hnm; simpl; auto.
  congruence.
Qed.

Lemma nth_error_setNth {A : Type} (l : list A) (n m : nat) (v a : A) :
  nth_error (setNth n v l) m = Some a ->
  (n = m /\ a = v) \/ (n <> m /\ nth_error l m = Some a).
Proof.
  intros Hm. destruct (Nat.eq_dec n m) as [->|Hnm].
  - left. split; [reflexivity|].
    destruct (nth_error l m) as [b|] eqn:Hb.
    + rewrite (nth_error_setNth_same _ _ v Hb) in Hm. congruence.
    + apply nth_error_None in Hb.
      assert (Hlt : (m < List.length (setNth m v l))%nat)
        by (apply nth_error_Some; congruence).
      rewrite setNth_length in Hlt. lia.
  - right. rewrite nth_error_setNth_other in Hm by assumption. auto.
Qed.

Lemma nth_error_snoc {A : Type} (l : list A) (v a : A) (m : nat) :
  nth_error (l ++ [v]) m = Some a ->
  (m = List.length l /\ a = v) \/ (nth_error l m = Some a).
Proof.
  intros Hm. destruct (Nat.lt_ge_cases m (List.length l)) as [Hlt|Hge].
  - right. rewrite nth_error_app1 in Hm; assumption.
  - rewrite nth_error_app2 in Hm by assumption.
    destruct (m - List.length l)%nat as [|d] eqn:Hd; simpl in Hm.
    + left. split; [lia|congruence].
    + destruct d; discriminate.
Qed.

Lemma fold_left_preserves {A B : Type} (f : A -> B -> A) (P : A -> Prop) :
  (forall a b, P a -> P (f a b)) ->
  forall l a, P a -> P (fold_left f l a).
Proof.
  intros Hf l; induction l as [|b t IH]; simpl; auto.
Qed.

(** ** The controller: one job at a time *)

Section Controller.

Context {num : Type} `{Number num}.
Variable sections : list HTMLElement.
Variable addImageThrows : ExportKind -> PlacedImage num -> option Error.
Variable saveThrows : Document num -> option Error.

Local Abbreviation step := (step sections addImageThrows saveThrows).
Local Abbreviation run := (run sections addImageThrows saveThrows).
Local Abbreviation loop := (loop sections saveThrows).
Local Abbreviation finish := (finish saveThrows).
Local Abbreviation done := (done sections saveThrows).

Lemma run_snoc (w : World num) (evs : list Event) (e : Event) :
  run w (evs ++ [e]) = step (run w evs) e.
Proof. unfold run. now rewrite fold_left_app. Qed.

Lemma run_app (w : World num) (evs evs' : list Event) :
  run w (evs ++ evs') = run (run w evs) evs'.
Proof. unfold run. now rewrite fold_left_app. Qed.

Lemma single_frame (w w' : World num) :
  jobs w' = jobs w -> exportingType w' = exportingType w ->
  isExporting w' = isExporting w -> SingleFlight w -> SingleFlight w'.
Proof.
  unfold SingleFlight, unsettled. intros -> -> ->. auto.
Qed.

Lemma single_suspend (w w' : World num) (j : nat) (k : ExportKind) (p p' : Phase num) :
  SingleFlight w ->
  nth_error (jobs w) j = Some {| kind := k; phase := p |} ->
  inFlight {| kind := k; phase := p |} = true ->
  inFlight {| kind := k; phase := p' |} = true ->
  jobs w' = setNth j {| kind := k; phase := p' |} (jobs w) ->
  exportingType w' = exportingType w ->
  isExporting w' = isExporting w ->
  SingleFlight w'.
Proof.
  unfold SingleFlight, unsettled. intros HS Hj Hp Hp' -> -> ->.
  destruct (exportingType w) as [k0|].
  - destruct HS as [Hr (j0 & p0 & Hj0 & Hp0 & Huniq)].
    assert (j = j0) as -> by (apply Huniq; eauto).
    assert (k0 = k) as -> by congruence.
    split; [assumption|]. exists j0, p'. repeat split; auto.
    + eapply nth_error_setNth_same; eauto.
    + intros j' (job & Hj' & Hfl).
      apply nth_error_setNth in Hj' as [[? _]|[_ Hj']]; [congruence|].
      apply Huniq; eauto.
  - exfalso. apply (HS j). eauto.
Qed.

Lemma single_settle (w w' : World num) (j : nat) (k : ExportKind) (p : Phase num)
    (o : Outcome) :
  SingleFlight w ->
  nth_error (jobs w) j = Some {| kind := k; phase := p |} ->
  inFlight {| kind := k; phase := p |} = true ->
  jobs w' = setNth j {| kind := k; phase := Settled o |} (jobs w) ->
  exportingType w' = None ->
  SingleFlight w'.
Proof.
  unfold SingleFlight, unsettled. intros HS Hj Hp -> ->.
  intros j' (job & Hj' & Hfl).
  apply nth_error_setNth in Hj' as [[_ ->]|[Hne Hj']]; [discriminate|].
  destruct (exportingType w) as [k0|].
  - destruct HS as [_ (j0 & p0 & _ & _ & Huniq)].
    apply Hne. transitivity j0; [|symmetry]; apply Huniq; eauto.
  - apply (HS j'). eauto.
Qed.

Lemma single_throw (w : World num) (j : nat) (k : ExportKind) (p : Phase num)
    (err : Error) (imgs : list HTMLImageElement) :
  SingleFlight w ->
  nth_error (jobs w) j = Some {| kind := k; phase := p |} ->
  inFlight {| kind := k; phase := p |} = true ->
  SingleFlight (throw j k err (setImages imgs w)).
Proof.
  intros HS Hj Hp.
  eapply single_settle with (o := Failed err); eauto; destruct k; reflexivity.
Qed.

Lemma single_finish (w : World num) (j : nat) (k : ExportKind) (p : Phase num)
    (doc : Document num) (imgs : list HTMLImageElement) :
  SingleFlight w ->
  nth_error (jobs w) j = Some {| kind := k; phase := p |} ->
  inFlight {| kind := k; phase := p |} = true ->
  SingleFlight (finish j k doc (setImages imgs w)).
Proof.
  intros HS Hj Hp. unfold finish. destruct k.
  - destruct (saveThrows doc) as [err|].
    + eapply single_throw; eauto.
    + eapply single_settle with (o := Completed); eauto; reflexivity.
  - eapply single_suspend with (p' := AwaitWriteFile doc); eauto; reflexivity.
Qed.

Lemma single_loop (w : World num) (j : nat) (k : ExportKind) (p : Phase num)
    (i : nat) (doc : Document num) (imgs : list HTMLImageElement) :
  SingleFlight w ->
  nth_error (jobs w) j = Some {| kind := k; phase := p |} ->
  inFlight {| kind := k; phase := p |} = true ->
  SingleFlight (loop j k i doc (setImages imgs w)).
Proof.
  intros HS Hj Hp. unfold loop.
  destruct (nth_error sections i) as [section|].
  - eapply single_suspend with (p' := AwaitCapture i _ doc); eauto; reflexivity.
  - eapply single_finish; eauto.
Qed.

Lemma single_wait (w : World num) (j : nat) (k : ExportKind) (p : Phase num)
    (pending : list nat) (imgs : list HTMLImageElement) :
  SingleFlight w ->
  nth_error (jobs w) j = Some {| kind := k; phase := p |} ->
  inFlight {| kind := k; phase := p |} = true ->
  SingleFlight (setPhase j k (AwaitImages pending) (setImages imgs w)).
Proof.
  intros HS Hj Hp.
  eapply single_suspend with (p' := AwaitImages pending); eauto; reflexivity.
Qed.

Lemma setImages_same (w : World num) : setImages (images w) w = w.
Proof. destruct w; reflexivity. Qed.

Lemma single_start (k : ExportKind) (w : World num) :
  SingleFlight w -> SingleFlight (start sections k w).
Proof.
  intros HS. unfold start. destruct (isExporting w) eqn:Hr; [assumption|].
  assert (Hidle : forall j, ~ unsettled w j).
  { unfold SingleFlight in HS. destruct (exportingType w); [|assumption].
    destruct HS as [Hr' _]. congruence. }
  destruct sections as [|s0 rest]; unfold SingleFlight; simpl.
  - intros j' (job & Hj' & Hfl).
    apply nth_error_setNth in Hj' as [[_ ->]|[Hne Hj']]; [discriminate|].
    apply nth_error_snoc in Hj' as [[-> _]|Hj']; [congruence|].
    apply (Hidle j'); red; eauto.
  - split; [reflexivity|]. exists (List.length (jobs w)), AwaitFonts.
    repeat split.
    + rewrite nth_error_app2, Nat.sub_diag by lia. reflexivity.
    + intros j' (job & Hj' & Hfl).
      apply nth_error_snoc in Hj' as [[-> _]|Hj']; [reflexivity|].
      exfalso. apply (Hidle j'). red; eauto.
Qed.

Lemma single_render (w : World num) : SingleFlight w -> SingleFlight (render w).
Proof.
  unfold SingleFlight, unsettled, render; simpl.
  destruct (exportingType w); intuition.
Qed.

Lemma single_fontsSettled (j : nat) (s : Settlement unit) (w : World num) :
  SingleFlight w -> SingleFlight (fontsSettled sections saveThrows j s w).
Proof.
  intros HS. unfold fontsSettled.
  destruct (nth_error (jobs w) j) as [[k []]|] eqn:Hj; try assumption.
  destruct s as [u|err].
  - unfold prepareImages.
    destruct (indicesFrom _ 0 (images w)).
    + eapply single_loop; eauto.
    + eapply single_wait; eauto.
  - rewrite <- (setImages_same w). eapply single_throw; eauto.
Qed.

Lemma single_done (i : nat) (w : World num) (j : nat) :
  SingleFlight w -> SingleFlight (done i w j).
Proof.
  intros HS. unfold done.
  destruct (nth_error (jobs w) j) as [[k []]|] eqn:Hj; try assumption.
  destruct (existsb _ pending); [|assumption].
  rewrite <- (setImages_same w).
  destruct (filter _ pending).
  - eapply single_loop; eauto.
  - eapply single_wait; eauto.
Qed.

Lemma single_imageEvent (i : nat) (nw : Z) (w : World num) :
  SingleFlight w -> SingleFlight (imageEvent sections saveThrows i nw w).
Proof.
  intros HS. unfold imageEvent.
  apply fold_left_preserves; [intros; now apply single_done|].
  destruct (nth_error (images w) i); [|assumption].
  eapply single_frame; [..|exact HS]; reflexivity.
Qed.

Lemma single_captureSettled (j : nat) (s : Settlement (Error + DataURL))
    (w : World num) :
  SingleFlight w ->
  SingleFlight (captureSettled sections addImageThrows saveThrows j s w).
Proof.
  intros HS. unfold captureSettled.
  destruct (nth_error (jobs w) j) as [[k []]|] eqn:Hj; try assumption.
  rewrite <- (setImages_same w).
  destruct s as [[err|imgData]|err]; try (eapply single_throw; eauto).
  destruct (append _ _ _ _ _ _) as [err|doc'].
  - eapply single_throw; eauto.
  - eapply single_loop; eauto.
Qed.

Lemma single_writeFileSettled (j : nat) (s : Settlement unit) (w : World num) :
  SingleFlight w -> SingleFlight (writeFileSettled j s w).
Proof.
  intros HS. unfold writeFileSettled.
  destruct (nth_error (jobs w) j) as [[k []]|] eqn:Hj; try assumption.
  destruct s as [u|err].
  - eapply single_settle with (o := Completed); eauto; reflexivity.
  - rewrite <- (setImages_same w). eapply single_throw; eauto.
Qed.

Lemma single_step (w : World num) (e : Event) :
  SingleFlight w -> SingleFlight (step w e).
Proof.
  intros HS. destruct e as [[]| | | | | |]; simpl.
  - now apply single_start.
  - now apply single_start.
  - now apply single_render.
  - now apply single_fontsSettled.
  - now apply single_imageEvent.
  - now apply single_imageEvent.
  - now apply single_captureSettled.
  - now apply single_writeFileSettled.
Qed.

Lemma single_initial (imgs : list HTMLImageElement) :
  SingleFlight (initial (num := num) imgs).
Proof.
  intros j (job & Hj & _). destruct j; discriminate.
Qed.

Lemma single_run (w : World num) (evs : list Event) :
  SingleFlight w -> SingleFlight (run w evs).
Proof.
  revert w; induction evs as [|e evs IH]; intros w HS; simpl; auto.
  apply IH. now apply single_step.
Qed.

Lemma single_reachable (imgs : list HTMLImageElement) (evs : list Event) :
  SingleFlight (run (initial imgs) evs).
Proof. apply single_run, single_initial. Qed.

End Controller.

(** ** What one task does *)

Section Effects.

Context {num : Type} `{Number num}.
Variable sections : list HTMLElement.
Variable addImageThrows : ExportKind -> PlacedImage num -> option Error.
Variable saveThrows : Document num -> option Error.

Local Abbreviation step := (step sections addImageThrows saveThrows).
Local Abbreviation run := (run sections addImageThrows saveThrows).
Local Abbreviation loop := (loop sections saveThrows).
Local Abbreviation finish := (finish saveThrows).
Local Abbreviation done := (done sections saveThrows).

Lemma finish_resumed (j : nat) (k : ExportKind) (doc : Document num) (w : World num) :
  Resumed j k w (finish j k doc w).
Proof.
  unfold finish. destruct k.
  - destruct (saveThrows doc); constructor.
  - now constructor.
Qed.

Lemma loop_resumed (j : nat) (k : ExportKind) (i : nat) (doc : Document num)
    (w : World num) :
  Resumed j k w (loop j k i doc w).
Proof.
  unfold loop. destruct (nth_error sections i).
  - now constructor.
  - apply finish_resumed.
Qed.

Lemma resumed_jobs (j : nat) (k : ExportKind) (w w' : World num) :
  Resumed j k w w' ->
  exists p, jobs w' = setNth j {| kind := k; phase := p |} (jobs w).
Proof.
  intros [p _|err|f]; eexists; try reflexivity. destruct k; reflexivity.
Qed.

Lemma fontsSettled_effect (j : nat) (s : Settlement unit) (w : World num) :
  Effect w (fontsSettled sections saveThrows j s w).
Proof.
  unfold fontsSettled.
  destruct (nth_error (jobs w) j) as [[k p]|] eqn:Hj;
    [|exists (images w); left; now rewrite setImages_same].
  destruct p; try (exists (images w); left; now rewrite setImages_same).
  destruct s as [u|err].
  - exists (fst (prepareImages (images w))). right. exists j, k, AwaitFonts.
    repeat split; auto. unfold prepareImages.
    destruct (indicesFrom _ 0 (images w)).
    + apply loop_resumed.
    + now constructor.
  - exists (images w). right. exists j, k, AwaitFonts.
    rewrite setImages_same. repeat split; auto. constructor.
Qed.

Lemma done_effect (i : nat) (w : World num) (j : nat) :
  done i w j = w \/
  exists k pending,
    nth_error (jobs w) j = Some {| kind := k; phase := AwaitImages pending |} /\
    Resumed j k w (done i w j).
Proof.
  unfold done.
  destruct (nth_error (jobs w) j) as [[k p]|] eqn:Hj; [|now left].
  destruct p; try now left.
  destruct (existsb _ pending); [|now left].
  right. exists k, pending. split; [reflexivity|].
  destruct (filter _ pending).
  - apply loop_resumed.
  - now constructor.
Qed.

Lemma captureSettled_effect (j : nat) (s : Settlement (Error + DataURL))
    (w : World num) :
  Effect w (captureSettled sections addImageThrows saveThrows j s w).
Proof.
  exists (images w). rewrite setImages_same. unfold captureSettled.
  destruct (nth_error (jobs w) j) as [[k p]|] eqn:Hj; [|now left].
  destruct p; try now left.
  right. exists j, k, (AwaitCapture i o doc). repeat split; auto.
  destruct s as [[err|imgData]|err]; try constructor.
  destruct (append _ _ _ _ _ _); [constructor|apply loop_resumed].
Qed.

Lemma writeFileSettled_effect (j : nat) (s : Settlement unit) (w : World num) :
  Effect w (writeFileSettled j s w).
Proof.
  exists (images w). rewrite setImages_same. unfold writeFileSettled.
  destruct (nth_error (jobs w) j) as [[k p]|] eqn:Hj; [|now left].
  destruct p; try now left.
  right. exists j, k, (AwaitWriteFile doc). repeat split; auto.
  destruct s; constructor.
Qed.

(** Under single flight the listeners of an image event belong to one job:
    the loop over the jobs comes down to one call of [done]. *)
Lemma fold_done_idle (i : nat) (l : list nat) (w : World num) :
  (forall j, In j l -> ~ unsettled w j) ->
  fold_left (done i) l w = w.
Proof.
  revert w; induction l as [|j l IH]; intros w Hq; simpl; [reflexivity|].
  assert (Hj : done i w j = w).
  { destruct (done_effect i w j) as [E|(k & pending & Hj & _)]; [exact E|].
    exfalso. apply (Hq j); [now left|]. red. eauto. }
  rewrite Hj. apply IH. intros j' Hin. apply Hq. now right.
Qed.

Lemma unsettled_resumed (j : nat) (k : ExportKind) (w w' : World num) (j' : nat) :
  Resumed j k w w' -> j' <> j -> unsettled w' j' -> unsettled w j'.
Proof.
  intros HR Hne (job & Hj' & Hfl).
  destruct (resumed_jobs HR) as [p Hjobs]. rewrite Hjobs in Hj'.
  rewrite nth_error_setNth_other in Hj' by congruence. red; eauto.
Qed.

Lemma fold_done_single (i : nat) (j0 : nat) (l : list nat) (w : World num) :
  NoDup l ->
  (forall j, unsettled w j -> j = j0) ->
  fold_left (done i) l w = if in_dec Nat.eq_dec j0 l then done i w j0 else w.
Proof.
  revert w; induction l as [|j l IH]; intros w Hnd Huniq; simpl; [reflexivity|].
  inversion Hnd as [|? ? Hnotin Hnd']; subst.
  destruct (Nat.eq_dec j j0) as [->|Hne].
  - destruct (in_dec Nat.eq_dec j0 l) as [Hin|_]; [contradiction|].
    apply fold_done_idle. intros j' Hin' Hun.
    assert (j' <> j0) by (intros ->; contradiction).
    destruct (done_effect i w j0) as [E|(k & pending & _ & HR)].
    + rewrite E in Hun. auto.
    + eauto using unsettled_resumed.
  - assert (Hj : done i w j = w).
    { destruct (done_effect i w j) as [E|(k & pending & Hj & _)]; [exact E|].
      exfalso. apply Hne, Huniq. red; eauto. }
    rewrite Hj, IH by assumption.
    destruct (in_dec Nat.eq_dec j0 l); reflexivity.
Qed.

Lemma single_unique (w : World num) :
  SingleFlight w -> exists j0, forall j, unsettled w j -> j = j0.
Proof.
  unfold SingleFlight. destruct (exportingType w).
  - intros [_ (j0 & p & _ & _ & Hu)]. eauto.
  - intros Hn. exists 0%nat. intros j Hj. destruct (Hn j Hj).
Qed.

Lemma done_absent (i : nat) (w : World num) (j : nat) :
  ~ unsettled w j -> done i w j = w.
Proof.
  intros Hn. destruct (done_effect i w j) as [E|(k & pending & Hj & _)]; [exact E|].
  exfalso. apply Hn. red; eauto.
Qed.

Lemma imageEvent_done (i : nat) (nw : Z) (w : World num) :
  SingleFlight w ->
  exists imgs j0,
    (forall j, unsettled w j -> j = j0) /\
    imageEvent sections saveThrows i nw w = done i (setImages imgs w) j0.
Proof.
  intros HS. destruct (single_unique w HS) as [j0 Hu].
  unfold imageEvent.
  set (w1 := match nth_error (images w) i with Some _ => _ | None => w end).
  assert (Hw1 : exists imgs, w1 = setImages imgs w).
  { subst w1. destruct (nth_error (images w) i); eauto.
    exists (images w). now rewrite setImages_same. }
  destruct Hw1 as [imgs Hw1]. exists imgs, j0. split; [assumption|].
  rewrite Hw1.
  rewrite (@fold_done_single i j0) by (auto using seq_NoDup).
  destruct (in_dec _ _ _) as [_|Hnotin]; [reflexivity|].
  symmetry. apply done_absent. intros (job & Hj & _).
  apply Hnotin, in_seq. simpl in *. split; [lia|].
  apply nth_error_Some. congruence.
Qed.

Lemma imageEvent_effect (i : nat) (nw : Z) (w : World num) :
  SingleFlight w -> Effect w (imageEvent sections saveThrows i nw w).
Proof.
  intros HS. destruct (@imageEvent_done i nw w HS) as (imgs & j0 & _ & ->).
  exists imgs.
  destruct (done_effect i (setImages imgs w) j0) as [->|(k & pending & Hj & HR)].
  - now left.
  - right. exists j0, k, (AwaitImages pending). repeat split; auto.
Qed.

Lemma step_effect (w : World num) (e : Event) :
  SingleFlight w ->
  match e with
  | Click k => step w e = start sections k w
  | Commit => step w e = render w
  | _ => Effect w (step w e)
  end.
Proof.
  intros HS. destruct e as [[]| | | | | |]; simpl; try reflexivity.
  - apply fontsSettled_effect.
  - now apply imageEvent_effect.
  - now apply imageEvent_effect.
  - apply captureSettled_effect.
  - apply writeFileSettled_effect.
Qed.

End Effects.

(** ** Counting the jobs under way *)

Lemma filter_none {A : Type} (f : A -> bool) (l : list A) :
  filter f l = [] <-> (forall i a, nth_error l i = Some a -> f a = false).
Proof.
  induction l as [|b t IH]; simpl.
  - split; [intros _ [|i] a; discriminate|reflexivity].
  - destruct (f b) eqn:Hb; split.
    + discriminate.
    + intros Hall. specialize (Hall 0%nat b eq_refl). congruence.
    + intros Ht [|i] a Hi; simpl in Hi; [congruence|]. eapply IH; eauto.
    + intros Hall. apply IH. intros i a Hi. apply (Hall (S i) a Hi).
Qed.

Lemma filter_at_most_one {A : Type} (f : A -> bool) (l : list A) (j : nat) :
  (forall i a, nth_error l i = Some a -> f a = true -> i = j) ->
  (List.length (filter f l) <= 1)%nat.
Proof.
  revert j; induction l as [|b t IH]; intros j Hu; simpl; [lia|].
  destruct (f b) eqn:Hb; simpl.
  - assert (Ht : filter f t = []).
    { apply filter_none. intros i a Hi.
      destruct (f a) eqn:Ha; [|reflexivity].
      pose proof (Hu 0%nat b eq_refl Hb). pose proof (Hu (S i) a Hi Ha). lia. }
    rewrite Ht. simpl. lia.
  - apply (IH (Nat.pred j)). intros i a Hi Ha.
    pose proof (Hu (S i) a Hi Ha). lia.
Qed.

Section Counting.

Context {num : Type}.

Lemma inFlightCount_zero (w : World num) :
  inFlightCount w = 0%nat <-> (forall j, ~ unsettled w j).
Proof.
  unfold inFlightCount, unsettled. rewrite length_zero_iff_nil, filter_none.
  split.
  - intros Hall j (job & Hj & Hfl). rewrite (Hall j job Hj) in Hfl. discriminate.
  - intros Hn i a Hi. destruct (inFlight a) eqn:Ha; [|reflexivity].
    exfalso. apply (Hn i). eauto.
Qed.

Lemma inFlightCount_unique (w : World num) (j0 : nat) :
  (forall j, unsettled w j -> j = j0) -> (inFlightCount w <= 1)%nat.
Proof.
  intros Hu. apply (@filter_at_most_one _ inFlight (jobs w) j0).
  intros i a Hi Ha. apply Hu. red; eauto.
Qed.

Lemma single_count (w : World num) :
  SingleFlight w ->
  match exportingType w with
  | None => inFlightCount w = 0%nat
  | Some _ => inFlightCount w = 1%nat
  end.
Proof.
  unfold SingleFlight. destruct (exportingType w) as [k|].
  - intros [_ (j0 & p & Hj & Hp & Hu)].
    pose proof (inFlightCount_unique Hu).
    destruct (inFlightCount w) as [|[|n]] eqn:Hc; [|reflexivity|lia].
    exfalso. apply (proj1 (inFlightCount_zero w) Hc j0). red; eauto.
  - apply inFlightCount_zero.
Qed.

End Counting.

(** ** Assembly: one page per section, in order *)

Lemma firstn_succ {A : Type} (l : list A) (i : nat) (a : A) :
  nth_error l i = Some a -> firstn (S i) l = firstn i l ++ [a].
Proof.
  revert i; induction l as [|b t IH]; intros [|i] Hi; simpl in *; try discriminate.
  - congruence.
  - f_equal. now apply IH.
Qed.

Lemma combine_snoc {A B : Type} (l : list A) (l' : list B) (a : A) (b : B) :
  List.length l = List.length l' ->
  combine (l ++ [a]) (l' ++ [b]) = combine l l' ++ [(a, b)].
Proof.
  revert l'; induction l as [|x t IH]; intros [|y t'] Hlen; simpl in *;
    try discriminate; [reflexivity|].
  f_equal. apply IH. congruence.
Qed.

Section Assembly.

Context {num : Type} `{Number num}.
Variable sections : list HTMLElement.
Variable addImageThrows : ExportKind -> PlacedImage num -> option Error.
Variable saveThrows : Document num -> option Error.

Local Abbreviation step := (step sections addImageThrows saveThrows).
Local Abbreviation run := (run sections addImageThrows saveThrows).
Local Abbreviation loop := (loop sections saveThrows).
Local Abbreviation finish := (finish saveThrows).
Local Abbreviation done := (done sections saveThrows).
Local Abbreviation Assembling := (Assembling sections).
Local Abbreviation phaseOk := (phaseOk sections).
Local Abbreviation fileOk := (fileOk sections).
Local Abbreviation partialDoc := (partialDoc sections).

Lemma addImage_last (doc : Document num) (pg : Page num) (p : PlacedImage num) :
  addImage (doc ++ [pg]) p = doc ++ [pg ++ [p]].
Proof.
  unfold addImage. now rewrite removelast_last, last_last.
Qed.

Lemma assembled_length (k : ExportKind) (ss : list HTMLElement) (ds : list DataURL) :
  List.length ds = List.length ss ->
  List.length (assembled k ss ds) = List.length ss.
Proof.
  intros Hlen. unfold assembled. rewrite length_map, length_combine. lia.
Qed.

Lemma assembled_snoc (k : ExportKind) (i : nat) (section : HTMLElement)
    (ds : list DataURL) (d : DataURL) :
  nth_error sections i = Some section ->
  List.length ds = i ->
  assembled k (firstn (S i) sections) (ds ++ [d]) =
  assembled k (firstn i sections) ds ++ [[place k (captureOptions section) d]].
Proof.
  intros Hi Hlen. unfold assembled.
  rewrite (firstn_succ _ _ Hi), combine_snoc, map_app; [reflexivity|].
  rewrite length_firstn.
  assert (i < List.length sections)%nat by (apply nth_error_Some; congruence).
  lia.
Qed.

Lemma append_partial (k : ExportKind) (i : nat) (section : HTMLElement)
    (ds : list DataURL) (d : DataURL) (doc : Document num) :
  nth_error sections i = Some section ->
  List.length ds = i ->
  append addImageThrows k i (captureOptions section) d (partialDoc k i ds) = inr doc ->
  doc = partialDoc k (S i) (ds ++ [d]).
Proof.
  intros Hi Hlen. unfold append.
  destruct (addImageThrows k _); [discriminate|]. intros [= <-].
  change (partialDoc k (S i) (ds ++ [d]))
    with (assembled k (firstn (S i) sections) (ds ++ [d])).
  rewrite (assembled_snoc k _ d Hi Hlen).
  destruct i as [|i]; [destruct k; reflexivity|].
  cbn [Nat.eqb partialDoc].
  destruct k; unfold addPage; apply addImage_last.
Qed.

Lemma assembling_frame (w w' : World num) :
  jobs w' = jobs w -> downloads w' = downloads w -> Assembling w -> Assembling w'.
Proof. unfold Assembling. intros -> ->. auto. Qed.

Lemma assembling_phase (w w' : World num) (j : nat) (k : ExportKind) (p : Phase num) :
  Assembling w -> phaseOk k p ->
  jobs w' = setNth j {| kind := k; phase := p |} (jobs w) ->
  downloads w' = downloads w ->
  Assembling w'.
Proof.
  unfold Assembling. intros [Hjobs Hfiles] Hp -> ->. split; [|assumption].
  intros j' job Hj'.
  apply nth_error_setNth in Hj' as [[_ ->]|[_ Hj']]; [exact Hp|eauto].
Qed.

Lemma assembling_download (w w' : World num) (j : nat) (k : ExportKind) (o : Outcome)
    (f : File num) :
  Assembling w -> fileOk f ->
  jobs w' = setNth j {| kind := k; phase := Settled o |} (jobs w) ->
  downloads w' = downloads w ++ [f] ->
  Assembling w'.
Proof.
  unfold Assembling. intros [Hjobs Hfiles] Hf -> ->. split.
  - intros j' job Hj'.
    apply nth_error_setNth in Hj' as [[_ ->]|[_ Hj']]; [exact I|eauto].
  - apply Forall_app. auto.
Qed.

Lemma assembling_throw (w : World num) (j : nat) (k : ExportKind) (err : Error) :
  Assembling w -> Assembling (throw j k err w).
Proof.
  intros HA. eapply assembling_phase with (p := Settled (Failed err)); eauto;
    [exact I|destruct k; reflexivity..].
Qed.

Lemma assembling_finish (w : World num) (j : nat) (k : ExportKind) (ds : list DataURL) :
  Assembling w -> sections <> [] -> List.length ds = List.length sections ->
  Assembling (finish j k (assembled k sections ds) w).
Proof.
  intros HA Hne Hlen. unfold finish. destruct k.
  - destruct (saveThrows _); [now apply assembling_throw|].
    eapply assembling_download; [exact HA| |reflexivity|reflexivity].
    split; [exact Hne|]. split; [reflexivity|]. exists ds. auto.
  - eapply assembling_phase with (p := AwaitWriteFile _);
      [exact HA| |reflexivity|reflexivity].
    simpl. repeat split; eauto.
Qed.

Lemma assembling_loop (w : World num) (j : nat) (k : ExportKind) (i : nat)
    (ds : list DataURL) :
  Assembling w -> sections <> [] -> List.length ds = i ->
  (i <= List.length sections)%nat ->
  Assembling (loop j k i (partialDoc k i ds) w).
Proof.
  intros HA Hne Hlen Hi. unfold loop.
  destruct (nth_error sections i) as [section|] eqn:Hs.
  - eapply assembling_phase; eauto; try reflexivity.
    simpl. exists section, ds. auto.
  - apply nth_error_None in Hs.
    assert (Hi' : i = List.length sections) by lia.
    unfold partialDoc. destruct i as [|i'].
    + destruct sections; [congruence|discriminate].
    + rewrite Hi', firstn_all. apply assembling_finish; auto. congruence.
Qed.

Lemma assembling_start (k : ExportKind) (w : World num) :
  Assembling w -> Assembling (start sections k w).
Proof.
  intros HA. unfold start. destruct (isExporting w); [assumption|].
  destruct HA as [Hjobs Hfiles].
  destruct sections as [|s0 rest] eqn:Hs; (split; [|exact Hfiles]); simpl;
    intros j' job Hj'.
  - apply nth_error_setNth in Hj' as [[_ ->]|[Hne Hj']]; [exact I|].
    apply nth_error_snoc in Hj' as [[-> _]|Hj']; [congruence|eauto].
  - apply nth_error_snoc in Hj' as [[_ ->]|Hj']; [simpl; congruence|eauto].
Qed.

Lemma assembling_fontsSettled (j : nat) (s : Settlement unit) (w : World num) :
  Assembling w -> Assembling (fontsSettled sections saveThrows j s w).
Proof.
  intros HA. unfold fontsSettled.
  destruct (nth_error (jobs w) j) as [[k p]|] eqn:Hj; [|assumption].
  destruct p; try assumption.
  assert (Hne : sections <> []) by (apply (proj1 HA _ _ Hj)).
  destruct s as [u|err]; [|now apply assembling_throw].
  unfold prepareImages.
  assert (HA' : Assembling (setImages (fst (prepareImages (images w))) w))
    by (eapply assembling_frame; eauto; reflexivity).
  destruct (indicesFrom _ 0 (images w)).
  - apply (@assembling_loop _ j k 0%nat []); auto. lia.
  - eapply assembling_phase with (p := AwaitImages _);
      [exact HA'|exact Hne|reflexivity..].
Qed.

Lemma assembling_done (i : nat) (w : World num) (j : nat) :
  Assembling w -> Assembling (done i w j).
Proof.
  intros HA. unfold done.
  destruct (nth_error (jobs w) j) as [[k p]|] eqn:Hj; [|assumption].
  destruct p; try assumption.
  assert (Hne : sections <> []) by (apply (proj1 HA _ _ Hj)).
  destruct (existsb _ pending); [|assumption].
  destruct (filter _ pending).
  - apply (@assembling_loop _ j k 0%nat []); auto. lia.
  - eapply assembling_phase with (p := AwaitImages _);
      [exact HA|exact Hne|reflexivity..].
Qed.

Lemma assembling_imageEvent (i : nat) (nw : Z) (w : World num) :
  Assembling w -> Assembling (imageEvent sections saveThrows i nw w).
Proof.
  intros HA. unfold imageEvent.
  apply fold_left_preserves; [intros; now apply assembling_done|].
  destruct (nth_error (images w) i); [|assumption].
  eapply assembling_frame; eauto; reflexivity.
Qed.

Lemma assembling_captureSettled (j : nat) (s : Settlement (Error + DataURL))
    (w : World num) :
  Assembling w ->
  Assembling (captureSettled sections addImageThrows saveThrows j s w).
Proof.
  intros HA. unfold captureSettled.
  destruct (nth_error (jobs w) j) as [[k p]|] eqn:Hj; [|assumption].
  destruct p; try assumption.
  destruct (proj1 HA _ _ Hj) as (section & ds & Hs & -> & Hlen & ->).
  destruct s as [[err|imgData]|err]; try now apply assembling_throw.
  destruct (append _ _ _ _ _ _) as [err|doc'] eqn:Happ;
    [now apply assembling_throw|].
  apply (append_partial _ _ _ Hs Hlen) in Happ. subst doc'.
  assert (Hne : sections <> []) by (intros E; rewrite E in Hs; destruct i; discriminate).
  apply assembling_loop; auto.
  - rewrite length_app. simpl. lia.
  - apply Nat.le_succ_l. apply nth_error_Some. congruence.
Qed.

Lemma assembling_writeFileSettled (j : nat) (s : Settlement unit) (w : World num) :
  Assembling w -> Assembling (writeFileSettled j s w).
Proof.
  intros HA. unfold writeFileSettled.
  destruct (nth_error (jobs w) j) as [[k p]|] eqn:Hj; [|assumption].
  destruct p; try assumption.
  destruct (proj1 HA _ _ Hj) as (Hk & Hne & ds & Hlen & ->).
  simpl in Hk. subst k.
  destruct s as [u|err]; [|now apply assembling_throw].
  eapply assembling_download; [exact HA| |reflexivity|reflexivity].
  split; [exact Hne|]. split; [reflexivity|]. exists ds. auto.
Qed.

Lemma assembling_step (w : World num) (e : Event) :
  Assembling w -> Assembling (step w e).
Proof.
  intros HA. destruct e as [[]| | | | | |]; simpl.
  - now apply assembling_start.
  - now apply assembling_start.
  - eapply assembling_frame; eauto; reflexivity.
  - now apply assembling_fontsSettled.
  - now apply assembling_imageEvent.
  - now apply assembling_imageEvent.
  - now apply assembling_captureSettled.
  - now apply assembling_writeFileSettled.
Qed.

Lemma assembling_run (w : World num) (evs : list Event) :
  Assembling w -> Assembling (run w evs).
Proof.
  revert w; induction evs as [|e evs IH]; intros w HA; simpl; auto.
  apply IH. now apply assembling_step.
Qed.

Lemma assembling_initial (imgs : list HTMLImageElement) :
  Assembling (initial imgs).
Proof.
  split; [intros [|j] job; discriminate|constructor].
Qed.

Lemma assembling_reachable (imgs : list HTMLImageElement) (evs : list Event) :
  Assembling (run (initial imgs) evs).
Proof. apply assembling_run, assembling_initial. Qed.

End Assembly.

(** ** Files are written by jobs that ran to their end *)

Lemma filter_setNth_length {A : Type} (f : A -> bool) (l : list A) (j : nat) (a v : A) :
  nth_error l j = Some a ->
  (List.length (filter f (setNth j v l)) + (if f a then 1 else 0) =
   List.length (filter f l) + (if f v then 1 else 0))%nat.
Proof.
  revert j; induction l as [|b t IH]; intros [|j] Hj; simpl in *; try discriminate.
  - injection Hj as ->. destruct (f a), (f v); simpl; lia.
  - specialize (IH j Hj). destruct (f b); simpl; lia.
Qed.

Section Written.

Context {num : Type} `{Number num}.
Variable sections : list HTMLElement.
Variable addImageThrows : ExportKind -> PlacedImage num -> option Error.
Variable saveThrows : Document num -> option Error.

Local Abbreviation step := (step sections addImageThrows saveThrows).
Local Abbreviation run := (run sections addImageThrows saveThrows).

Lemma inFlight_not_completed (job : Job num) :
  inFlight job = true -> completed job = false.
Proof. unfold inFlight, completed. destruct (phase job); congruence. Qed.

Lemma written_resumed (j : nat) (k : ExportKind) (p : Phase num) (w w' : World num) :
  nth_error (jobs w) j = Some {| kind := k; phase := p |} ->
  inFlight {| kind := k; phase := p |} = true ->
  Resumed j k w w' -> written w -> written w'.
Proof.
  unfold written. intros Hj Hp HR HW.
  pose proof (inFlight_not_completed _ Hp) as Hc.
  destruct HR as [p' Hp'|err|f].
  - pose proof (@filter_setNth_length _ completed (jobs w) j _
                  {| kind := k; phase := p' |} Hj) as E.
    rewrite Hc, (inFlight_not_completed _ Hp') in E. simpl in *. lia.
  - pose proof (@filter_setNth_length _ completed (jobs w) j _
                  {| kind := k; phase := Settled (Failed err) |} Hj) as E.
    rewrite Hc in E. destruct k; simpl in *; lia.
  - pose proof (@filter_setNth_length _ completed (jobs w) j _
                  {| kind := k; phase := Settled Completed |} Hj) as E.
    rewrite Hc in E. simpl in *. rewrite length_app. simpl. lia.
Qed.

Lemma written_start (k : ExportKind) (w : World num) :
  written w -> written (start sections k w).
Proof.
  unfold written, start. intros HW. destruct (isExporting w); [assumption|].
  destruct sections; simpl.
  - pose proof (@filter_setNth_length _ completed
                  (jobs w ++ [{| kind := k; phase := AwaitFonts |}])
                  (List.length (jobs w)) {| kind := k; phase := AwaitFonts |}
                  {| kind := k; phase := Settled NoContent |}) as E.
    rewrite nth_error_app2, Nat.sub_diag in E by lia. specialize (E eq_refl).
    rewrite filter_app, length_app in E. simpl in *. lia.
  - rewrite filter_app, length_app. simpl. lia.
Qed.

Lemma written_step (w : World num) (e : Event) :
  SingleFlight w -> written w -> written (step w e).
Proof.
  intros HS HW. pose proof (step_effect sections addImageThrows saveThrows w e HS) as E.
  assert (HE : forall w', Effect w w' -> written w').
  { intros w' [imgs [->|(j & k & p & Hj & Hp & HR)]]; [exact HW|].
    exact (@written_resumed j k p (setImages imgs w) w' Hj Hp HR HW). }
  destruct e as [k| | | | | |]; try (apply HE; exact E).
  - rewrite E. now apply written_start.
  - rewrite E. exact HW.
Qed.

Lemma written_run (imgs : list HTMLImageElement) (evs : list Event) :
  written (run (initial imgs) evs).
Proof.
  induction evs as [|e evs IH] using rev_ind; [reflexivity|].
  rewrite run_snoc. apply written_step; [|assumption].
  apply single_reachable.
Qed.

End Written.

(** ** The controller returns to idle *)

Section Settling.

Context {num : Type} `{Number num}.
Variable sections : list HTMLElement.
Variable addImageThrows : ExportKind -> PlacedImage num -> option Error.
Variable saveThrows : Document num -> option Error.

Local Abbreviation step := (step sections addImageThrows saveThrows).
Local Abbreviation run := (run sections addImageThrows saveThrows).

(** The jobs a task leaves as it found them, and what it does to the one
    it resumes (or starts). *)
Lemma step_job (w : World num) (e : Event) (j : nat) (job : Job num) :
  SingleFlight w ->
  nth_error (jobs (step w e)) j = Some job ->
  nth_error (jobs w) j = Some job \/
  (inFlight job = true /\ downloads (step w e) = downloads w) \/
  (exists err, phase job = Settled (Failed err) /\
               exportingType (step w e) = None /\
               downloads (step w e) = downloads w) \/
  (phase job = Settled NoContent /\ exportingType (step w e) = None /\
   downloads (step w e) = downloads w /\ sections = [] /\
   nth_error (jobs w) j = None) \/
  (phase job = Settled Completed /\ exportingType (step w e) = None /\
   exists f, downloads (step w e) = downloads w ++ [f]).
Proof.
  intros HS Hj. pose proof (step_effect sections addImageThrows saveThrows w e HS) as E.
  assert (HE : forall w', Effect w w' -> nth_error (jobs w') j = Some job ->
            nth_error (jobs w) j = Some job \/
            (inFlight job = true /\ downloads w' = downloads w) \/
            (exists err, phase job = Settled (Failed err) /\
                         exportingType w' = None /\ downloads w' = downloads w) \/
            (phase job = Settled NoContent /\ exportingType w' = None /\
             downloads w' = downloads w /\ sections = [] /\
             nth_error (jobs w) j = None) \/
            (phase job = Settled Completed /\ exportingType w' = None /\
             exists f, downloads w' = downloads w ++ [f])).
  { intros w' [imgs [->|(j1 & k1 & p1 & Hj1 & Hp1 & HR)]] Hj'; [now left|].
    destruct HR as [p' Hp'|err|f]; simpl in Hj'.
    - apply nth_error_setNth in Hj' as [[_ ->]|[_ Hj']]; auto.
    - assert (Hj'' : nth_error (setNth j1 {| kind := k1; phase := Settled (Failed err) |}
                                  (jobs w)) j = Some job) by (destruct k1; exact Hj').
      apply nth_error_setNth in Hj'' as [[_ ->]|[_ Hj'']]; auto.
      right; right; left. exists err. destruct k1; auto.
    - apply nth_error_setNth in Hj' as [[_ ->]|[_ Hj']]; auto.
      right; right; right; right. simpl. eauto. }
  destruct e as [k| | | | | |]; try (apply HE; [exact E|exact Hj]).
  - rewrite E in *. clear E HE. unfold start in *.
    destruct (isExporting w); [now left|].
    destruct sections; simpl in *.
    + apply nth_error_setNth in Hj as [[Hlen ->]|[Hne Hj]].
      * right; right; right; left. repeat split; auto.
        apply nth_error_None. lia.
      * apply nth_error_snoc in Hj as [[Hlen _]|Hj]; [congruence|now left].
    + apply nth_error_snoc in Hj as [[_ ->]|Hj]; auto.
  - rewrite E in *. now left.
Qed.

(** C5.  While the controller is in Running, that is while [exportingType]
    is non-null, invoking start for either export kind is a no-op: the
    world after the click is the world before it, so the controller state
    and the in-flight job count are unchanged and no second job is started
    or queued.  At most one job is in flight at any time, and exactly one
    while in Running. *)
Theorem start_while_running_is_dropped
    (imgs : list HTMLImageElement) (evs : list Event) (k : ExportKind) :
  (inFlightCount (run (initial imgs) evs) <= 1)%nat /\
  (exportingType (run (initial imgs) evs) <> None ->
   step (run (initial imgs) evs) (Click k) = run (initial imgs) evs /\
   inFlightCount (run (initial imgs) evs) = 1%nat).
Proof.
  pose proof (single_reachable sections addImageThrows saveThrows imgs evs) as HS.
  pose proof (single_count _ HS) as Hc.
  set (w := run (initial imgs) evs) in *.
  split.
  - destruct (exportingType w); lia.
  - intros Hrun. unfold SingleFlight in HS.
    destruct (exportingType w) as [k0|]; [|congruence].
    destruct HS as [Hr _]. split; [|exact Hc].
    destruct k; simpl; unfold exportToPdf, exportToPpt, start; now rewrite Hr.
Qed.

(** C8.  No partial artifact: a task in which a job fails, with any error
    and at any section or at the save, writes nothing to the download
    target; a file is written only by the task in which a job runs its
    [try] block to the end, so there are as many files as completed jobs;
    and every file written has exactly one page (slide) per section, each
    holding the capture of its section. *)
Theorem no_partial_artifact
    (imgs : list HTMLImageElement) (evs : list Event) :
  (forall e j k err,
      nth_error (jobs (step (run (initial imgs) evs) e)) j
        = Some {| kind := k; phase := Settled (Failed err) |} ->
      nth_error (jobs (run (initial imgs) evs)) j
        <> Some {| kind := k; phase := Settled (Failed err) |} ->
      downloads (step (run (initial imgs) evs) e)
        = downloads (run (initial imgs) evs)) /\
  List.length (downloads (run (initial imgs) evs))
    = List.length (filter completed (jobs (run (initial imgs) evs))) /\
  (forall f,
      In f (downloads (run (initial imgs) evs)) ->
      List.length (content f) = List.length sections /\
      exists ds, List.length ds = List.length sections /\
                 content f = assembled (format f) sections ds).
Proof.
  pose proof (single_reachable sections addImageThrows saveThrows imgs evs) as HS.
  pose proof (assembling_reachable sections addImageThrows saveThrows imgs evs)
    as [_ HF].
  pose proof (written_run sections addImageThrows saveThrows imgs evs) as HW.
  set (w := run (initial imgs) evs) in *.
  split; [|split].
  - intros e j k err Hj Hnot.
    destruct (step_job w e j HS Hj)
      as [Hsame|[[_ Hd]|[(err' & _ & _ & Hd)|[(_ & _ & Hd & _)|(Hp & _)]]]];
      try assumption; [contradiction|discriminate].
  - exact HW.
  - intros f Hin. rewrite Forall_forall in HF.
    destruct (HF f Hin) as (_ & _ & ds & Hlen & Hc).
    split; [|eauto]. rewrite Hc. now apply assembled_length.
Qed.

End Settling.

(** ** Capture scale and placement geometry *)

Section ExactArithmetic.

Local Open Scope Q_scope.

Lemma exact_min_l (x y : Q) : Exact.min x y <= x.
Proof.
  unfold Exact.min. destruct (Qle_bool x y) eqn:E; [apply Qle_refl|].
  apply Qlt_le_weak, Qnot_le_lt. intros Hle.
  apply Qle_bool_iff in Hle. congruence.
Qed.

Lemma exact_min_r (x y : Q) : Exact.min x y <= y.
Proof.
  unfold Exact.min. destruct (Qle_bool x y) eqn:E; [|apply Qle_refl].
  now apply Qle_bool_iff.
Qed.

Lemma exact_positive (x : Q) : ltb (inject_Z 0) x = true -> 0 < x.
Proof.
  simpl. intros E. apply Qnot_le_lt. intros Hle.
  apply Qle_bool_iff in Hle. change (inject_Z 0) with 0 in E.
  rewrite Hle in E. discriminate.
Qed.

Lemma exact_scaled_le (a r b : Q) : 0 < a -> r <= b / a -> a * r <= b.
Proof.
  intros Ha Hr. apply Qle_trans with (a * (b / a)).
  - apply Qmult_le_l; assumption.
  - apply Qle_lteq. right. field. intros E. rewrite E in Ha.
    exact (Qlt_irrefl 0 Ha).
Qed.

End ExactArithmetic.

Section Binary64Arithmetic.

Import Binary64.

Lemma SFcompare_antisym (x y : spec_float) :
  SFcompare y x = match SFcompare x y with
                  | Some c => Some (CompOpp c)
                  | None => None
                  end.
Proof.
  destruct x as [sx|sx| |sx mx ex], y as [sy|sy| |sy my ey]; simpl;
    try reflexivity;
    try (destruct sx; reflexivity); try (destruct sy; reflexivity);
    try (destruct sx, sy; reflexivity).
  destruct sx, sy; try reflexivity;
    rewrite (Z.compare_antisym ex ey); destruct (ex ?= ey)%Z; simpl;
    try reflexivity;
    rewrite (Pos.compare_cont_antisym mx my Eq); reflexivity.
Qed.

Lemma SFcompare_refl (x : spec_float) :
  x <> S754_nan -> SFcompare x x = Some Eq.
Proof.
  destruct x as [sx|sx| |sx mx ex]; simpl; intros Hx; try congruence.
  - destruct sx; reflexivity.
  - destruct sx; rewrite Z.compare_refl, Pos.compare_cont_refl; reflexivity.
Qed.

(** [Math.min] of two numbers, neither of them NaN, is below both. *)
Lemma binary64_min_le (x y : float) :
  SFcompare x y <> None ->
  SFleb (min x y) x = true /\ SFleb (min x y) y = true.
Proof.
  intros Hc. unfold min, SFleb.
  assert (Hx : x <> S754_nan) by (intros ->; apply Hc; reflexivity).
  assert (Hy : y <> S754_nan) by (intros ->; apply Hc; destruct x; reflexivity).
  pose proof (SFcompare_antisym x y) as Ha.
  destruct (SFcompare x y) as [[| |]|] eqn:E; try congruence.
  - destruct x as [[|]| | |]; rewrite ?Ha, ?E, ?SFcompare_refl by assumption; auto.
  - rewrite E, SFcompare_refl by assumption. auto.
  - rewrite Ha, SFcompare_refl by assumption. auto.
Qed.

(** The decimal literals of the source are exact in binary64, and so is
    the page width once the zero margin is taken off. *)
Lemma binary64_constants :
  (literal 1125 100 : float) = (of_Z 45 / of_Z 4)%js /\
  (literal 5625 1000 : float) = (of_Z 45 / of_Z 8)%js /\
  (pageWidth - margin * of_Z 2)%js = (of_Z 20 : float) /\
  (pageHeight - margin * of_Z 2)%js = (literal 1125 100 : float).
Proof. repeat split; vm_compute; reflexivity. Qed.

End Binary64Arithmetic.

(** C2.  For every section, the width and height are the scroll size, else
    the offset size, else 1600 and 900; the capture scale is
    [min(2, 1600 / max(w, h))]; html2canvas is asked for [w] by [h] at that
    scale, and the bitmap it returns measures [(w * scale, h * scale)].  In
    binary64, sections of 1600 x 900, 800 x 1200 and 3200 x 900 get the
    scales [1], [1600 / 1200] and [0.5]; in exact arithmetic [1], [4/3] and
    [1/2]. *)
Theorem capture_scale_and_bitmap_size :
  (forall (num : Type) (N : Number num) (section : HTMLElement),
      sectionWidth section
        = (if scrollWidth section =? 0
           then if offsetWidth section =? 0 then 1600 else offsetWidth section
           else scrollWidth section)%Z /\
      sectionHeight section
        = (if scrollHeight section =? 0
           then if offsetHeight section =? 0 then 900 else offsetHeight section
           else scrollHeight section)%Z /\
      captureScale section
        = Math_min (of_Z 2)
            (of_Z 1600 / Math_max (of_Z (sectionWidth section))
                                  (of_Z (sectionHeight section)))%js /\
      scale (captureOptions section) = captureScale section /\
      width (captureOptions section) = sectionWidth section /\
      height (captureOptions section) = sectionHeight section /\
      canvasSize (captureOptions section)
        = (of_Z (sectionWidth section) * captureScale section,
           of_Z (sectionHeight section) * captureScale section)%js) /\
  (sectionWidth unmeasurable = 1600%Z /\ sectionHeight unmeasurable = 900%Z) /\
  (captureScale (sized 1600 900) = (of_Z 1 : Binary64.float) /\
   captureScale (sized 800 1200) = (of_Z 1600 / of_Z 1200 : Binary64.float)%js /\
   captureScale (sized 3200 900) = (literal 5 10 : Binary64.float)) /\
  (captureScale (sized 1600 900) == 1 /\
   captureScale (sized 800 1200) == 4 # 3 /\
   captureScale (sized 3200 900) == 1 # 2)%Q /\
  (forall (num : Type) (N : Number num) (sections : list HTMLElement)
          (addImageThrows : ExportKind -> PlacedImage num -> option Error)
          (saveThrows : Document num -> option Error)
          (imgs : list HTMLImageElement) (evs : list Event)
          (j : nat) (k : ExportKind) (i : nat) (o : CaptureOptions num)
          (doc : Document num),
      nth_error (jobs (run sections addImageThrows saveThrows (initial imgs) evs)) j
        = Some {| kind := k; phase := AwaitCapture i o doc |} ->
      exists section,
        nth_error sections i = Some section /\ o = captureOptions section).
Proof.
  split; [|split; [|split; [|split]]].
  - intros num N section. unfold sectionWidth, sectionHeight, or_else.
    repeat split.
    + destruct (scrollWidth section =? 0)%Z eqn:E; [|rewrite E]; reflexivity.
    + destruct (scrollHeight section =? 0)%Z eqn:E; [|rewrite E]; reflexivity.
  - split; reflexivity.
  - repeat split; vm_compute; reflexivity.
  - repeat split; vm_compute; reflexivity.
  - intros num N sections addImageThrows saveThrows imgs evs j k i o doc Hj.
    pose proof (assembling_reachable sections addImageThrows saveThrows imgs evs)
      as [HA _].
    destruct (HA j _ Hj) as (section & ds & Hs & Ho & _). eauto.
Qed.

(** C2 on the second of three sections, 800 x 1200, while its capture is
    awaited. *)
Lemma capture_scale_and_bitmap_size_witness :
  exists section,
    nth_error threeSections 1 = Some section /\
    {| scale := (of_Z 1600 / of_Z 1200)%js; width := 800; height := 1200;
       windowWidth := 800; windowHeight := 1200 |}
    = captureOptions (num := Binary64.float) section.
Proof.
  apply (proj2 (proj2 (proj2 (proj2 capture_scale_and_bitmap_size)))
           Binary64.float _ threeSections neverThrows2 neverThrows []
           [Click pdf; FontsSettled 0 (Fulfilled tt);
            CaptureSettled 0 (Fulfilled (inr "png1"%string))]
           0%nat pdf 1%nat _
           [[place pdf (captureOptions (sized 1600 900)) "png1"%string]]).
  reflexivity.
Defined.

(** The claim C3 as written fails on the numbers the program runs on: a
    section of 1600 x 1031 pixels is captured at scale 1 into a bitmap of
    1600 x 1031, and its placed height, the binary64 product of 1031 and the
    binary64 quotient 11.25 / 1031, is 11.250000000000002, above the page
    height 11.25. *)
Lemma page_fit_exceeds_page_height_in_binary64 :
  canvasSize (captureOptions (sized 1600 1031))
    = (of_Z 1600 : Binary64.float, of_Z 1031 : Binary64.float) /\
  ((of_Z 0 : Binary64.float) < of_Z 1600)%js /\
  ((of_Z 0 : Binary64.float) < of_Z 1031)%js /\
  h (fitPage (of_Z 1600 : Binary64.float) (of_Z 1031))
    = S754_finite false 6333186975989761 (-49) /\
  (pageHeight : Binary64.float) = S754_finite false 6333186975989760 (-49) /\
  ~ withinPage (fitPage (of_Z 1600 : Binary64.float) (of_Z 1031)).
Proof.
  repeat split; try (vm_compute; reflexivity).
  intros [_ Hh]. vm_compute in Hh. discriminate.
Qed.

(** C3, amended.  A bitmap of [W] by [H] pixels is placed on the 20 x 11.25
    page at the origin (0, 0), with size [(W * ratio, H * ratio)] where
    [ratio = min(20 / W, 11.25 / H)].  In binary64 this holds for all [W] and
    [H], and the ratio is at most either quotient whenever both are numbers;
    in exact arithmetic it holds for positive [W] and [H], and there the
    placed size is within the page. *)
Theorem page_fit_flush_and_within_page_exactly (W H : Q) :
  (of_Z 0 < W)%js -> (of_Z 0 < H)%js ->
  ((x (fitPage W H) == 0 /\ y (fitPage W H) == 0 /\
    pageRatio W H == Exact.min (20 / W) ((1125 # 100) / H) /\
    w (fitPage W H) == W * pageRatio W H /\
    h (fitPage W H) == H * pageRatio W H)%Q /\
   withinPage (fitPage W H)) /\
  (forall W' H' : Binary64.float,
      fitPage W' H'
      = {| x := of_Z 0;
           y := of_Z 0;
           w := W' * Math_min (of_Z 20 / W') (literal 1125 100 / H');
           h := H' * Math_min (of_Z 20 / W') (literal 1125 100 / H') |}%js /\
      pageRatio W' H' = (Math_min (of_Z 20 / W') (literal 1125 100 / H'))%js /\
      (SFcompare (of_Z 20 / W')%js (literal 1125 100 / H')%js <> None ->
       (pageRatio W' H' <= of_Z 20 / W')%js /\
       (pageRatio W' H' <= literal 1125 100 / H')%js)).
Proof.
  intros HW HH. apply exact_positive in HW, HH.
  assert (HW0 : ~ (W == 0)%Q) by (intros E; rewrite E in HW; exact (Qlt_irrefl 0 HW)).
  assert (HH0 : ~ (H == 0)%Q) by (intros E; rewrite E in HH; exact (Qlt_irrefl 0 HH)).
  split; [split|].
  - repeat split; reflexivity.
  - split; simpl; apply Qle_bool_iff; apply exact_scaled_le; try assumption.
    + eapply Qle_trans; [apply exact_min_l|].
      apply Qle_lteq. right. unfold margin. simpl. field. assumption.
    + eapply Qle_trans; [apply exact_min_r|].
      apply Qle_lteq. right. unfold margin. simpl. field. assumption.
  - intros W' H'. unfold fitPage, pageRatio.
    destruct binary64_constants as (_ & _ & -> & ->).
    split; [reflexivity|]. split; [reflexivity|].
    intros Hnum. now apply binary64_min_le.
Qed.

(** The amended C3 at a 1600 x 900 bitmap. *)
Lemma page_fit_flush_and_within_page_exactly_witness :
  (x (fitPage 1600 900) == 0 /\ y (fitPage 1600 900) == 0)%Q /\
  withinPage (fitPage 1600%Q 900%Q).
Proof.
  destruct (page_fit_flush_and_within_page_exactly 1600 900 eq_refl eq_refl)
    as [[(Hx & Hy & _) Hin] _].
  split; [split; [exact Hx|exact Hy]|exact Hin].
Defined.

(** C4.  In the deck path the pixel dimensions of the bitmap are divided by
    96, the ratio is [min(10 / widthUnits, 5.625 / heightUnits)], the placed
    size is [(widthUnits * ratio, heightUnits * ratio)] and the image is put
    at [x = (10 - w) / 2], [y = (5.625 - h) / 2]; this is the box of every
    image the deck path places.  The literal 5.625 is exact in binary64, and
    in exact arithmetic the leftover space is the same on both sides. *)
Theorem slide_fit_is_centred :
  (forall (num : Type) (N : Number num) (canvasWidth canvasHeight : num),
      pxToIn canvasWidth = (canvasWidth / of_Z 96)%js /\
      slideWidth = of_Z 10 /\
      slideHeight = literal 5625 1000 /\
      slideRatio canvasWidth canvasHeight
        = (Math_min (slideWidth / pxToIn canvasWidth)
                    (slideHeight / pxToIn canvasHeight))%js /\
      fitSlide canvasWidth canvasHeight
        = {| x := (slideWidth
                    - pxToIn canvasWidth * slideRatio canvasWidth canvasHeight)
                  / of_Z 2;
             y := (slideHeight
                    - pxToIn canvasHeight * slideRatio canvasWidth canvasHeight)
                  / of_Z 2;
             w := pxToIn canvasWidth * slideRatio canvasWidth canvasHeight;
             h := pxToIn canvasHeight * slideRatio canvasWidth canvasHeight |}%js /\
      forall (o : CaptureOptions num) (d : DataURL),
        place ppt o d
        = {| data := d; box := fitSlide (fst (canvasSize o)) (snd (canvasSize o)) |}) /\
  (slideHeight : Binary64.float) = (of_Z 45 / of_Z 8)%js /\
  (forall W H : Q,
      x (fitSlide W H) + w (fitSlide W H) + x (fitSlide W H) == 10 /\
      y (fitSlide W H) + h (fitSlide W H) + y (fitSlide W H) == 5625 # 1000)%Q.
Proof.
  split; [|split].
  - intros num N canvasWidth canvasHeight. repeat split.
  - apply binary64_constants.
  - intros W H. unfold fitSlide, slideWidth, slideHeight, literal. simpl.
    split; field.
Qed.

(** ** One job seen on its own *)

Section Jobs.

Context {num : Type} `{Number num}.
Variable sections : list HTMLElement.
Variable addImageThrows : ExportKind -> PlacedImage num -> option Error.
Variable saveThrows : Document num -> option Error.

Local Abbreviation step := (step sections addImageThrows saveThrows).
Local Abbreviation run := (run sections addImageThrows saveThrows).
Local Abbreviation loop := (loop sections saveThrows).
Local Abbreviation done := (done sections saveThrows).
Local Abbreviation afterLoop := (afterLoop sections saveThrows).
Local Abbreviation nextPhase := (nextPhase sections addImageThrows saveThrows).

Lemma loop_phase (w : World num) (j : nat) (k : ExportKind) (i : nat)
    (doc : Document num) (job : Job num) :
  nth_error (jobs w) j = Some job ->
  nth_error (jobs (loop j k i doc w)) j
    = Some {| kind := k; phase := afterLoop k i doc |}.
Proof.
  intros Hj. unfold loop, afterLoop, finish.
  destruct (nth_error sections i); [|destruct k; [destruct (saveThrows doc)|]];
    simpl; eapply nth_error_setNth_same; eauto.
Qed.

Lemma loop_other (w : World num) (j j' : nat) (k : ExportKind) (i : nat)
    (doc : Document num) :
  j <> j' -> nth_error (jobs (loop j k i doc w)) j' = nth_error (jobs w) j'.
Proof.
  intros Hne. destruct (resumed_jobs (loop_resumed sections saveThrows j k i doc w))
    as [p ->].
  now apply nth_error_setNth_other.
Qed.

Lemma throw_phase (w : World num) (j : nat) (k : ExportKind) (err : Error)
    (job : Job num) :
  nth_error (jobs w) j = Some job ->
  nth_error (jobs (throw j k err w)) j
    = Some {| kind := k; phase := Settled (Failed err) |}.
Proof.
  intros Hj. destruct k; simpl; eapply nth_error_setNth_same; eauto.
Qed.

Lemma throw_other (w : World num) (j j' : nat) (k : ExportKind) (err : Error) :
  j <> j' -> nth_error (jobs (throw j k err w)) j' = nth_error (jobs w) j'.
Proof.
  intros Hne. destruct k; simpl; now apply nth_error_setNth_other.
Qed.

Lemma fontsSettled_next (w : World num) (j' : nat) (s : Settlement unit)
    (j : nat) (k : ExportKind) (p : Phase num) :
  nth_error (jobs w) j = Some {| kind := k; phase := p |} ->
  nth_error (jobs (fontsSettled sections saveThrows j' s w)) j
    = Some {| kind := k; phase := nextPhase (images w) j k p (FontsSettled j' s) |}.
Proof.
  intros Hj. unfold fontsSettled, nextPhase.
  destruct (Nat.eqb_spec j' j) as [->|Hne].
  - rewrite Hj. destruct p; try exact Hj.
    destruct s as [u|err]; [|eapply throw_phase; eauto].
    unfold prepareImages. simpl snd.
    destruct (indicesFrom _ 0 (images w)).
    + eapply loop_phase. simpl. eauto.
    + simpl. eapply nth_error_setNth_same; eauto.
  - assert (Hsame : nth_error (jobs (fontsSettled sections saveThrows j' s w)) j
                    = nth_error (jobs w) j).
    { unfold fontsSettled.
      destruct (nth_error (jobs w) j') as [[k' []]|]; try reflexivity.
      destruct s as [u|err]; [|now apply throw_other].
      unfold prepareImages. destruct (indicesFrom _ 0 (images w)).
      - now rewrite loop_other.
      - simpl. now apply nth_error_setNth_other. }
    unfold fontsSettled in Hsame. rewrite Hsame, Hj. now destruct p.
Qed.

Lemma captureSettled_next (w : World num) (j' : nat)
    (s : Settlement (Error + DataURL)) (j : nat) (k : ExportKind) (p : Phase num) :
  nth_error (jobs w) j = Some {| kind := k; phase := p |} ->
  nth_error (jobs (captureSettled sections addImageThrows saveThrows j' s w)) j
    = Some {| kind := k;
              phase := nextPhase (images w) j k p (CaptureSettled j' s) |}.
Proof.
  intros Hj. unfold captureSettled, nextPhase.
  destruct (Nat.eqb_spec j' j) as [->|Hne].
  - rewrite Hj. destruct p; try exact Hj.
    destruct s as [[err|imgData]|err]; try (eapply throw_phase; eauto).
    destruct (append _ _ _ _ _ _); [eapply throw_phase|eapply loop_phase]; eauto.
  - assert (Hsame : nth_error
                      (jobs (captureSettled sections addImageThrows saveThrows j' s w)) j
                    = nth_error (jobs w) j).
    { unfold captureSettled.
      destruct (nth_error (jobs w) j') as [[k' []]|]; try reflexivity.
      destruct s as [[err|imgData]|err]; try now apply throw_other.
      destruct (append _ _ _ _ _ _); [now apply throw_other|now apply loop_other]. }
    unfold captureSettled in Hsame. rewrite Hsame, Hj. now destruct p.
Qed.

Lemma writeFileSettled_next (w : World num) (j' : nat) (s : Settlement unit)
    (j : nat) (k : ExportKind) (p : Phase num) :
  nth_error (jobs w) j = Some {| kind := k; phase := p |} ->
  nth_error (jobs (writeFileSettled j' s w)) j
    = Some {| kind := k;
              phase := nextPhase (images w) j k p (WriteFileSettled j' s) |}.
Proof.
  intros Hj. unfold writeFileSettled, nextPhase.
  destruct (Nat.eqb_spec j' j) as [->|Hne].
  - rewrite Hj. destruct p; try exact Hj.
    destruct s as [u|err]; [|eapply throw_phase; eauto].
    simpl. eapply nth_error_setNth_same; eauto.
  - assert (Hsame : nth_error (jobs (writeFileSettled j' s w)) j
                    = nth_error (jobs w) j).
    { unfold writeFileSettled.
      destruct (nth_error (jobs w) j') as [[k' []]|]; try reflexivity.
      destruct s as [u|err]; [|now apply throw_other].
      simpl. now apply nth_error_setNth_other. }
    unfold writeFileSettled in Hsame. rewrite Hsame, Hj. now destruct p.
Qed.

Lemma done_next (i : nat) (w : World num) (j : nat) (k : ExportKind) (p : Phase num) :
  nth_error (jobs w) j = Some {| kind := k; phase := p |} ->
  nth_error (jobs (done i w j)) j
    = Some {| kind := k; phase := nextPhase (images w) j k p (ImageError i) |}.
Proof.
  intros Hj. unfold done, nextPhase. rewrite Hj.
  destruct p; try exact Hj.
  destruct (existsb _ pending); [|exact Hj].
  destruct (filter _ pending).
  - eapply loop_phase; eauto.
  - simpl. eapply nth_error_setNth_same; eauto.
Qed.

Lemma imageEvent_next (i : nat) (nw : Z) (w : World num) (j : nat) (k : ExportKind)
    (p : Phase num) :
  SingleFlight w ->
  nth_error (jobs w) j = Some {| kind := k; phase := p |} ->
  nth_error (jobs (imageEvent sections saveThrows i nw w)) j
    = Some {| kind := k; phase := nextPhase (images w) j k p (ImageError i) |}.
Proof.
  intros HS Hj.
  destruct (@imageEvent_done _ _ sections saveThrows i nw w HS)
    as (imgs & j0 & Hu & ->).
  destruct (Nat.eq_dec j j0) as [<-|Hne].
  - now apply (@done_next i (setImages imgs w) j k p).
  - assert (Hp : inFlight {| kind := k; phase := p |} = false).
    { destruct (inFlight {| kind := k; phase := p |}) eqn:E; [|reflexivity].
      exfalso. apply Hne, Hu. red; eauto. }
    assert (Hq : nextPhase (images w) j k p (ImageError i) = p)
      by (destruct p; try discriminate; reflexivity).
    rewrite Hq, <- Hj.
    destruct (done_effect sections saveThrows i (setImages imgs w) j0)
      as [->|(k0 & pending & _ & HR)]; [reflexivity|].
    destruct (resumed_jobs HR) as [p' ->]. simpl.
    apply nth_error_setNth_other. congruence.
Qed.

(** Every job goes through its phases as [nextPhase] says, whatever the
    other jobs do. *)
Lemma step_next (w : World num) (e : Event) (j : nat) (k : ExportKind)
    (p : Phase num) :
  SingleFlight w ->
  nth_error (jobs w) j = Some {| kind := k; phase := p |} ->
  nth_error (jobs (step w e)) j
    = Some {| kind := k; phase := nextPhase (images w) j k p e |}.
Proof.
  intros HS Hj. destruct e as [k'| | | | | |].
  - assert (Hs : nth_error (jobs (start sections k' w)) j
                 = Some {| kind := k; phase := p |}).
    { unfold start. destruct (isExporting w); [exact Hj|].
      assert (Hlt : (j < List.length (jobs w))%nat)
        by (apply nth_error_Some; congruence).
      destruct sections; simpl.
      - rewrite nth_error_setNth_other by lia. now rewrite nth_error_app1.
      - now rewrite nth_error_app1. }
    destruct k'; exact Hs.
  - exact Hj.
  - now apply fontsSettled_next.
  - now apply imageEvent_next.
  - now apply imageEvent_next.
  - now apply captureSettled_next.
  - now apply writeFileSettled_next.
Qed.

(** A job appears only by a click that passes the guard. *)
Lemma step_new (w : World num) (e : Event) (j : nat) (job : Job num) :
  SingleFlight w ->
  nth_error (jobs w) j = None ->
  nth_error (jobs (step w e)) j = Some job ->
  exists k,
    e = Click k /\ isExporting w = false /\ j = List.length (jobs w) /\
    job = {| kind := k;
             phase := match sections with
                      | [] => Settled NoContent
                      | _ :: _ => AwaitFonts
                      end |}.
Proof.
  intros HS Hnone Hj.
  pose proof (step_effect sections addImageThrows saveThrows w e HS) as E.
  assert (HE : forall w', Effect w w' -> nth_error (jobs w') j = None).
  { intros w' [imgs [->|(j1 & k1 & p1 & Hj1 & _ & HR)]]; [exact Hnone|].
    destruct (resumed_jobs HR) as [p' ->]. simpl.
    rewrite nth_error_setNth_other; [exact Hnone|congruence]. }
  destruct e as [k| | | | | |];
    try (rewrite (HE _ E) in Hj; discriminate).
  - exists k. rewrite E in Hj. unfold start in Hj.
    destruct (isExporting w); [congruence|].
    split; [reflexivity|]. split; [reflexivity|].
    apply nth_error_None in Hnone.
    destruct sections; simpl in Hj.
    + apply nth_error_setNth in Hj as [[Hlen ->]|[Hne Hj]]; [auto|].
      apply nth_error_snoc in Hj as [[Hlen _]|Hj]; [congruence|].
      assert (j < List.length (jobs w))%nat by (apply nth_error_Some; congruence).
      lia.
    + apply nth_error_snoc in Hj as [[Hlen ->]|Hj]; [auto|].
      assert (j < List.length (jobs w))%nat by (apply nth_error_Some; congruence).
      lia.
  - rewrite E in Hj. simpl in Hj. congruence.
Qed.

End Jobs.

(** ** Every exit path *)

Section Exits.

Context {num : Type} `{Number num}.
Variable sections : list HTMLElement.
Variable addImageThrows : ExportKind -> PlacedImage num -> option Error.
Variable saveThrows : Document num -> option Error.

Local Abbreviation step := (step sections addImageThrows saveThrows).
Local Abbreviation run := (run sections addImageThrows saveThrows).

(** A job that a task takes from a phase in which it is under way to the
    end of its [try] block is settled as [nextPhase] says, and the
    controller is idle after that task. *)
Lemma exit_idle (w : World num) (e : Event) (j : nat) (k : ExportKind)
    (p : Phase num) (o : Outcome) :
  SingleFlight w ->
  nth_error (jobs w) j = Some {| kind := k; phase := p |} ->
  inFlight {| kind := k; phase := p |} = true ->
  nextPhase sections addImageThrows saveThrows (images w) j k p e = Settled o ->
  settledIdle (step w e) j k o.
Proof.
  intros HS Hj Hp Hnext.
  pose proof (step_next sections addImageThrows saveThrows w e j HS Hj) as Hj'.
  rewrite Hnext in Hj'. split; [exact Hj'|].
  destruct (step_job sections addImageThrows saveThrows w e j HS Hj')
    as [Hsame|[[Hfl _]|[(err & _ & Hidle & _)|[(_ & Hidle & _)|(_ & Hidle & _)]]]];
    try assumption; [|discriminate].
  rewrite Hj in Hsame. injection Hsame as ->. discriminate.
Qed.

(** C6.  Every exit path of a started job resets the controller to Idle:
    whenever a task settles a job, with whichever outcome (completed, no
    content, or failed with any error), [exportingType] is null after that
    task; and the controller is in Running only while a job is unsettled,
    so it is never left in Running once the job has settled.  And every
    exit path is taken: the job is settled, with the controller idle, by
    the task in which the fonts are rejected, the capture is rejected,
    [toDataURL] or [addImage] throws, [pdf.save] throws or returns after the
    last section, [pptx.writeFile] is rejected or fulfilled (the deck job
    waits for it after the last section), and by the click itself when
    there is no section. *)
Theorem every_exit_resets_to_idle
    (imgs : list HTMLImageElement) (evs : list Event) :
  (forall e j k o,
      nth_error (jobs (step (run (initial imgs) evs) e)) j
        = Some {| kind := k; phase := Settled o |} ->
      nth_error (jobs (run (initial imgs) evs)) j
        <> Some {| kind := k; phase := Settled o |} ->
      exportingType (step (run (initial imgs) evs) e) = None) /\
  (exportingType (run (initial imgs) evs) = None <->
   inFlightCount (run (initial imgs) evs) = 0%nat) /\
  (forall j k err,
      nth_error (jobs (run (initial imgs) evs)) j
        = Some {| kind := k; phase := AwaitFonts |} ->
      settledIdle (step (run (initial imgs) evs) (FontsSettled j (Rejected err)))
        j k (Failed err)) /\
  (forall j k i o doc s err,
      nth_error (jobs (run (initial imgs) evs)) j
        = Some {| kind := k; phase := AwaitCapture i o doc |} ->
      s = Rejected err \/ s = Fulfilled (inl err) ->
      settledIdle (step (run (initial imgs) evs) (CaptureSettled j s))
        j k (Failed err)) /\
  (forall j k i o doc d err,
      nth_error (jobs (run (initial imgs) evs)) j
        = Some {| kind := k; phase := AwaitCapture i o doc |} ->
      append addImageThrows k i o d doc = inl err ->
      settledIdle
        (step (run (initial imgs) evs) (CaptureSettled j (Fulfilled (inr d))))
        j k (Failed err)) /\
  (forall j k i o doc d doc',
      nth_error (jobs (run (initial imgs) evs)) j
        = Some {| kind := k; phase := AwaitCapture i o doc |} ->
      append addImageThrows k i o d doc = inr doc' ->
      nth_error sections (S i) = None ->
      match k with
      | pdf =>
          settledIdle
            (step (run (initial imgs) evs) (CaptureSettled j (Fulfilled (inr d))))
            j pdf
            match saveThrows doc' with
            | Some err => Failed err
            | None => Completed
            end
      | ppt =>
          nth_error
            (jobs (step (run (initial imgs) evs)
                     (CaptureSettled j (Fulfilled (inr d))))) j
          = Some {| kind := ppt; phase := AwaitWriteFile doc' |}
      end) /\
  (forall j k doc,
      nth_error (jobs (run (initial imgs) evs)) j
        = Some {| kind := k; phase := AwaitWriteFile doc |} ->
      (forall err,
          settledIdle
            (step (run (initial imgs) evs) (WriteFileSettled j (Rejected err)))
            j k (Failed err)) /\
      settledIdle
        (step (run (initial imgs) evs) (WriteFileSettled j (Fulfilled tt)))
        j k Completed) /\
  (forall k,
      sections = [] ->
      isExporting (run (initial imgs) evs) = false ->
      settledIdle (step (run (initial imgs) evs) (Click k))
        (List.length (jobs (run (initial imgs) evs))) k NoContent).
Proof.
  pose proof (single_reachable sections addImageThrows saveThrows imgs evs) as HS.
  set (w := run (initial imgs) evs) in *.
  split; [|split; [|split; [|split; [|split; [|split; [|split]]]]]].
  - intros e j k o Hj Hnot.
    destruct (step_job sections addImageThrows saveThrows w e j HS Hj)
      as [Hsame|[[Hfl _]|[(err & _ & Hidle & _)|[(_ & Hidle & _)|(_ & Hidle & _)]]]];
      try assumption; [contradiction|discriminate].
  - pose proof (single_count _ HS) as Hc.
    destruct (exportingType w); split; intros; congruence || lia.
  - intros j k err Hj. apply (@exit_idle w _ j k _ _ HS Hj eq_refl).
    unfold nextPhase. now rewrite Nat.eqb_refl.
  - intros j k i o doc s err Hj Hs. apply (@exit_idle w _ j k _ _ HS Hj eq_refl).
    unfold nextPhase. rewrite Nat.eqb_refl. now destruct Hs as [->| ->].
  - intros j k i o doc d err Hj Happ. apply (@exit_idle w _ j k _ _ HS Hj eq_refl).
    unfold nextPhase. now rewrite Nat.eqb_refl, Happ.
  - intros j k i o doc d doc' Hj Happ Hlast.
    assert (Hnext : nextPhase sections addImageThrows saveThrows (images w) j k
                      (AwaitCapture i o doc) (CaptureSettled j (Fulfilled (inr d)))
                    = match k with
                      | pdf => match saveThrows doc' with
                               | Some err => Settled (Failed err)
                               | None => Settled Completed
                               end
                      | ppt => AwaitWriteFile doc'
                      end).
    { unfold nextPhase. rewrite Nat.eqb_refl, Happ. unfold afterLoop.
      now rewrite Hlast. }
    destruct k.
    + apply (@exit_idle w _ j pdf _ _ HS Hj eq_refl). rewrite Hnext.
      now destruct (saveThrows doc').
    + rewrite (step_next sections addImageThrows saveThrows w _ j HS Hj).
      now rewrite Hnext.
  - intros j k doc Hj. split; [intros err|]; apply (@exit_idle w _ j k _ _ HS Hj eq_refl);
      unfold nextPhase; now rewrite Nat.eqb_refl.
  - intros k Hs Hidle.
    assert (E : step w (Click k) = start sections k w) by (destruct k; reflexivity).
    rewrite E. unfold start. rewrite Hidle, Hs. split; [|reflexivity].
    cbn [jobs render settle setPhase setJobs setExportingType alert].
    apply (@nth_error_setNth_same _ _ _ _ {| kind := k; phase := AwaitFonts |}).
    now rewrite nth_error_app2, Nat.sub_diag by lia.
Qed.

End Exits.

(** ** The readiness step *)

Lemma indicesFrom_complete {A : Type} (f : A -> bool) (l : list A) (n i : nat) (a : A) :
  nth_error l i = Some a -> f a = true -> In (n + i)%nat (indicesFrom f n l).
Proof.
  revert n i; induction l as [|b t IH]; intros n [|i] Hi Ha; simpl in *;
    try discriminate.
  - injection Hi as ->. rewrite Ha, Nat.add_0_r. now left.
  - replace (n + S i)%nat with (S n + i)%nat by lia.
    destruct (f b); [right|]; now apply IH.
Qed.

Lemma indicesFrom_sound {A : Type} (f : A -> bool) (l : list A) (n m : nat) :
  In m (indicesFrom f n l) ->
  (n <= m)%nat /\ exists a, nth_error l (m - n) = Some a /\ f a = true.
Proof.
  revert n; induction l as [|b t IH]; intros n Hin; simpl in *; [contradiction|].
  assert (Htail : In m (indicesFrom f (S n) t) ->
                  (n <= m)%nat /\ exists a, nth_error (b :: t) (m - n) = Some a /\ f a = true).
  { intros Hin'. destruct (IH _ Hin') as (Hle & a & Ha & Hfa).
    split; [lia|]. exists a. split; [|assumption].
    replace (m - n)%nat with (S (m - S n)) by lia. exact Ha. }
  destruct (f b) eqn:Hb; [|now apply Htail].
  destruct Hin as [<-|Hin]; [|now apply Htail].
  split; [lia|]. exists b. rewrite Nat.sub_diag. auto.
Qed.

Lemma indicesFrom_NoDup {A : Type} (f : A -> bool) (l : list A) (n : nat) :
  NoDup (indicesFrom f n l).
Proof.
  revert n; induction l as [|b t IH]; intros n; simpl; [constructor|].
  destruct (f b); [|apply IH]. constructor; [|apply IH].
  intros Hin. apply indicesFrom_sound in Hin as [Hle _]. lia.
Qed.

Lemma filter_other_in (i i0 : nat) (l : list nat) :
  In i l -> i <> i0 -> In i (filter (fun i' => negb (i0 =? i')%nat) l).
Proof.
  intros Hin Hne. apply filter_In. split; [assumption|].
  apply negb_true_iff, Nat.eqb_neq. congruence.
Qed.

Lemma filter_self_out (i : nat) (l : list nat) :
  ~ In i (filter (fun i' => negb (i =? i')%nat) l).
Proof.
  intros Hin. apply filter_In in Hin as [_ Hi].
  rewrite Nat.eqb_refl in Hi. discriminate.
Qed.

Lemma prepareImage_loaded (img : HTMLImageElement) :
  snd (prepareImage img)
  = alreadyLoaded img && negb (String.prefix "http" (src img) && restartsLoad img).
Proof.
  unfold prepareImage, alreadyLoaded. cbn [snd].
  destruct (String.prefix "http" (src img)); cbn [complete naturalWidth andb negb].
  - destruct (complete img), (restartsLoad img), (naturalWidth img =? 0)%Z;
      reflexivity.
  - now rewrite andb_true_r.
Qed.

Lemma pending_unresolved (imgs : list HTMLImageElement) (i : nat)
    (img : HTMLImageElement) :
  nth_error imgs i = Some img ->
  snd (prepareImage img) = false ->
  In i (snd (prepareImages imgs)).
Proof.
  intros Hi Hl. unfold prepareImages. cbn [snd].
  apply (@indicesFrom_complete _ _ _ 0%nat i img Hi).
  now rewrite Hl.
Qed.

Lemma pending_complete (imgs : list HTMLImageElement) (i : nat)
    (img : HTMLImageElement) :
  nth_error imgs i = Some img ->
  alreadyLoaded img = false ->
  In i (snd (prepareImages imgs)).
Proof.
  intros Hi Hl. apply (pending_unresolved _ _ Hi).
  now rewrite prepareImage_loaded, Hl.
Qed.

Lemma indicesFrom_nil {A : Type} (f : A -> bool) (l : list A) (n : nat) :
  indicesFrom f n l = [] <-> forallb (fun a => negb (f a)) l = true.
Proof.
  revert n; induction l as [|a t IH]; intros n; simpl; [tauto|].
  destruct (f a); simpl; [split; discriminate|apply IH].
Qed.

Lemma pending_none (imgs : list HTMLImageElement) :
  snd (prepareImages imgs) = [] <->
  forallb (fun img => snd (prepareImage img)) imgs = true.
Proof.
  unfold prepareImages. cbn [snd]. rewrite indicesFrom_nil.
  assert (E : forallb (fun a => negb (negb (snd (prepareImage a)))) imgs
              = forallb (fun img => snd (prepareImage img)) imgs).
  { induction imgs as [|img t IH]; cbn [forallb]; [reflexivity|].
    now rewrite IH, negb_involutive. }
  now rewrite E.
Qed.

Lemma pending_sound (imgs : list HTMLImageElement) (i : nat) :
  In i (snd (prepareImages imgs)) ->
  exists img, nth_error imgs i = Some img /\ snd (prepareImage img) = false.
Proof.
  unfold prepareImages. cbn [snd]. intros Hin.
  apply indicesFrom_sound in Hin as (_ & img & Hi & Hf).
  rewrite Nat.sub_0_r in Hi. exists img. split; [assumption|].
  now apply negb_true_iff.
Qed.

(** The wait of an image resolves at once exactly when the image is
    complete with a non-zero natural width and the attribute write does not
    restart its load. *)
Lemma resolves_at_once (img : HTMLImageElement) :
  snd (prepareImage img) = true <->
  complete img = true /\ naturalWidth img <> 0%Z /\
  (String.prefix "http" (src img) = true -> restartsLoad img = false).
Proof.
  rewrite prepareImage_loaded. unfold alreadyLoaded.
  destruct (complete img), (Z.eqb_spec (naturalWidth img) 0) as [Hz|Hz],
    (String.prefix "http" (src img)), (restartsLoad img); simpl; split;
    try discriminate;
    try (intros (Hc & Hn & Hr);
         first [discriminate Hc|contradiction|discriminate (Hr eq_refl)]);
    intros _; repeat split; auto; discriminate.
Qed.

Section Readiness.

Context {num : Type} `{Number num}.
Variable sections : list HTMLElement.
Variable addImageThrows : ExportKind -> PlacedImage num -> option Error.
Variable saveThrows : Document num -> option Error.

Local Abbreviation step := (step sections addImageThrows saveThrows).
Local Abbreviation run := (run sections addImageThrows saveThrows).
Local Abbreviation afterLoop := (afterLoop sections saveThrows).
Local Abbreviation nextPhase := (nextPhase sections addImageThrows saveThrows).
Local Abbreviation GateHistory := (GateHistory sections addImageThrows saveThrows).

Lemma afterLoop_not_waiting (k : ExportKind) (i : nat) (doc : Document num) :
  waitingOn (afterLoop k i doc) = [].
Proof.
  unfold afterLoop.
  destruct (nth_error sections i); [reflexivity|].
  destruct k; [destruct (saveThrows doc)|]; reflexivity.
Qed.

Lemma signalled_app (i : nat) (evs evs' : list Event) :
  signalled i evs \/ signalled i evs' -> signalled i (evs ++ evs').
Proof.
  unfold signalled. intros [[[nw Hl]|He]|[[nw Hl]|He]];
    [left; exists nw|right|left; exists nw|right]; apply in_or_app; auto.
Qed.

(** An image awaited by a job is still awaited after a task, unless the
    task is a signal of that image. *)
Lemma next_waiting (imgs : list HTMLImageElement) (j : nat) (k : ExportKind)
    (p : Phase num) (e : Event) (i : nat) :
  In i (waitingOn p) ->
  signalled i [e] \/ In i (waitingOn (nextPhase imgs j k p e)).
Proof.
  intros Hin. destruct p; simpl in Hin; try contradiction.
  assert (Hsig : forall i0,
             signalled i [ImageError i0] \/
             In i (waitingOn
                     (if existsb (Nat.eqb i0) pending
                      then match filter (fun i' => negb (i0 =? i')%nat) pending with
                           | [] => afterLoop k 0 (newDocument k)
                           | rest => AwaitImages rest
                           end
                      else AwaitImages pending))).
  { intros i0. destruct (Nat.eq_dec i i0) as [->|Hne].
    - left. right. now left.
    - right. destruct (existsb _ pending); [|exact Hin].
      pose proof (filter_other_in pending Hin Hne) as Hin'.
      destruct (filter _ pending) eqn:Hf; [contradiction|exact Hin']. }
  destruct e as [k'| |j' s|i0 nw|i0|j' s|j' s]; try (right; exact Hin).
  - destruct (Hsig i0) as [[[nw' [[=]|[]]]|[[= ->]|[]]]|Hw]; [|right; exact Hw].
    left. left. exists nw. now left.
  - apply Hsig.
Qed.

(** A signal of an image leaves no job waiting on that image. *)
Lemma signal_resolves (imgs : list HTMLImageElement) (j : nat) (k : ExportKind)
    (p : Phase num) (i : nat) :
  ~ In i (waitingOn (nextPhase imgs j k p (ImageError i))).
Proof.
  unfold nextPhase. destruct p; simpl; auto.
  destruct (existsb _ pending) eqn:Hex.
  - destruct (filter _ pending) eqn:Hf.
    + now rewrite afterLoop_not_waiting.
    + rewrite <- Hf. apply filter_self_out.
  - simpl. intros Hin.
    assert (existsb (Nat.eqb i) pending = true); [|congruence].
    apply existsb_exists. exists i. split; [assumption|apply Nat.eqb_refl].
Qed.

Lemma gate_history (imgs : list HTMLImageElement) (evs : list Event) :
  GateHistory imgs evs (run (initial imgs) evs).
Proof.
  induction evs as [|e evs IH] using rev_ind.
  - intros [|j] job Hj; discriminate.
  - rewrite run_snoc.
    pose proof (single_reachable sections addImageThrows saveThrows imgs evs) as HS.
    set (w := run (initial imgs) evs) in *.
    intros j job' Hj' Hg.
    destruct (nth_error (jobs w) j) as [[k p]|] eqn:Hj.
    + rewrite (step_next sections addImageThrows saveThrows w e j HS Hj) in Hj'.
      injection Hj' as <-. simpl in *.
      destruct (atOrPastGate p) eqn:Hp.
      * destruct (IH j _ Hj Hp) as (pre & post & -> & Himgs).
        exists pre, (post ++ [e]). split; [now rewrite <- app_assoc|].
        intros i img Hi.
        destruct (Himgs i img Hi) as [Hl|[Hsig|Hw]]; auto.
        -- right; left. apply signalled_app. auto.
        -- destruct (next_waiting (images w) j k p e i Hw); auto.
           right; left. apply signalled_app. auto.
      * assert (Hfonts : p = AwaitFonts /\ exists u, e = FontsSettled j (Fulfilled u)).
        { destruct p as [| | | |[]]; try discriminate;
            destruct e as [| |j' [[]|err]| | | |]; simpl in Hg; try discriminate;
            destruct (Nat.eqb_spec j' j) as [->|]; try discriminate; eauto. }
        destruct Hfonts as [-> [[] ->]].
        exists evs, []. split; [reflexivity|].
        intros i img Hi. fold w in Hi.
        destruct (snd (prepareImage img)) eqn:Hl; [now left|].
        right; right. unfold nextPhase. rewrite Nat.eqb_refl.
        pose proof (pending_unresolved _ _ Hi Hl) as Hin.
        destruct (snd (prepareImages (images w))); [contradiction|exact Hin].
    + destruct (step_new sections addImageThrows saveThrows w e j HS Hj Hj')
        as (k & _ & _ & _ & ->).
      simpl in Hg. destruct sections; discriminate.
Qed.

(** A job waiting on image [i] stays at the readiness step for as long as
    image [i] fires neither [load] nor [error]. *)
Lemma stays_at_gate (later : list Event) (w : World num) (j : nat) (k : ExportKind)
    (pending : list nat) (i : nat) :
  SingleFlight w ->
  nth_error (jobs w) j = Some {| kind := k; phase := AwaitImages pending |} ->
  In i pending ->
  ~ signalled i later ->
  exists pending',
    nth_error (jobs (run w later)) j
      = Some {| kind := k; phase := AwaitImages pending' |} /\
    In i pending'.
Proof.
  revert w pending; induction later as [|e later IH]; intros w pending HS Hj Hin Hno.
  - exists pending. auto.
  - simpl.
    pose proof (step_next sections addImageThrows saveThrows w e j HS Hj) as Hj'.
    destruct (next_waiting (images w) j k (AwaitImages pending) e i Hin) as [Hsig|Hw].
    + exfalso. apply Hno. apply (@signalled_app i [e] later). auto.
    + destruct (nextPhase (images w) j k (AwaitImages pending) e) eqn:Hp;
        simpl in Hw; try contradiction.
      apply (IH _ pending0); auto.
      * now apply single_step.
      * intros Hsig. apply Hno. apply (@signalled_app i [e] later). auto.
Qed.

End Readiness.

Section Gate.

Context {num : Type} `{Number num}.
Variable sections : list HTMLElement.
Variable addImageThrows : ExportKind -> PlacedImage num -> option Error.
Variable saveThrows : Document num -> option Error.

Local Abbreviation step := (step sections addImageThrows saveThrows).
Local Abbreviation run := (run sections addImageThrows saveThrows).

(** When the fonts are ready, a job is left waiting on every image that is
    not complete with a non-zero natural width. *)
Lemma gate_waits_on (w : World num) (j : nat) (k : ExportKind) (i : nat)
    (img : HTMLImageElement) :
  SingleFlight w ->
  nth_error (jobs w) j = Some {| kind := k; phase := AwaitFonts |} ->
  nth_error (images w) i = Some img ->
  alreadyLoaded img = false ->
  exists pending,
    nth_error (jobs (step w (FontsSettled j (Fulfilled tt)))) j
      = Some {| kind := k; phase := AwaitImages pending |} /\
    In i pending.
Proof.
  intros HS Hj Hi Hl.
  rewrite (step_next sections addImageThrows saveThrows w
             (FontsSettled j (Fulfilled tt)) j HS Hj).
  unfold nextPhase. rewrite Nat.eqb_refl.
  pose proof (pending_complete _ _ Hi Hl) as Hin.
  destruct (snd (prepareImages (images w))) as [|i0 rest]; [contradiction|].
  exists (i0 :: rest). auto.
Qed.

(** C9, amended.  A job that has begun capturing has, in its past, the
    fonts reported ready and then, for every image whose wait did not
    resolve at once, a [load] or an [error] signal of that image.  The wait
    of an image resolves at once exactly when the image, tested after the
    attribute writes, is complete with a non-zero natural width: a loaded
    remote image whose [crossorigin] state the write changes is loading
    again and is waited on.  When the fonts are ready the job waits on
    exactly the images whose wait did not resolve at once, or captures the
    first section if there is none.  An [error] fired during the wait
    settles the image like a [load]: the job stops waiting on it and, when
    it was the last one, goes on to capture the first section.  An image
    that had failed before the wait began, complete with natural width 0,
    is waited on for as long as it fires no further signal. *)
Theorem capture_begins_after_readiness
    (imgs : list HTMLImageElement) (evs : list Event) (j : nat) :
  (forall job,
      nth_error (jobs (run (initial imgs) evs)) j = Some job ->
      pastGate (phase job) = true ->
      exists pre post,
        evs = pre ++ FontsSettled j (Fulfilled tt) :: post /\
        forall i img,
          nth_error (images (run (initial imgs) pre)) i = Some img ->
          snd (prepareImage img) = true \/ signalled i post) /\
  (forall img,
      snd (prepareImage img) = true <->
      complete img = true /\ naturalWidth img <> 0%Z /\
      (String.prefix "http" (src img) = true -> restartsLoad img = false)) /\
  (forall k,
      nth_error (jobs (run (initial imgs) evs)) j
        = Some {| kind := k; phase := AwaitFonts |} ->
      exists section,
        nth_error sections 0 = Some section /\
        nth_error
          (jobs (step (run (initial imgs) evs) (FontsSettled j (Fulfilled tt)))) j
          = Some {| kind := k;
                    phase :=
                      match snd (prepareImages (images (run (initial imgs) evs))) with
                      | [] => AwaitCapture 0 (captureOptions section) (newDocument k)
                      | pending => AwaitImages pending
                      end |} /\
        forall i,
          In i (snd (prepareImages (images (run (initial imgs) evs)))) <->
          exists img,
            nth_error (images (run (initial imgs) evs)) i = Some img /\
            snd (prepareImage img) = false) /\
  (forall k pending i e,
      nth_error (jobs (run (initial imgs) evs)) j
        = Some {| kind := k; phase := AwaitImages pending |} ->
      In i pending ->
      e = ImageError i \/ (exists nw, e = ImageLoad i nw) ->
      exists section,
        nth_error sections 0 = Some section /\
        nth_error (jobs (step (run (initial imgs) evs) e)) j
          = Some {| kind := k;
                    phase :=
                      match filter (fun i' => negb (i =? i')%nat) pending with
                      | [] => AwaitCapture 0 (captureOptions section) (newDocument k)
                      | rest => AwaitImages rest
                      end |}) /\
  (forall k i img later,
      nth_error (jobs (run (initial imgs) evs)) j
        = Some {| kind := k; phase := AwaitFonts |} ->
      nth_error (images (run (initial imgs) evs)) i = Some img ->
      complete img = true ->
      naturalWidth img = 0%Z ->
      ~ signalled i later ->
      exists pending,
        nth_error
          (jobs (run (initial imgs) (evs ++ FontsSettled j (Fulfilled tt) :: later))) j
          = Some {| kind := k; phase := AwaitImages pending |} /\
        In i pending).
Proof.
  pose proof (single_reachable sections addImageThrows saveThrows imgs evs) as HS.
  pose proof (assembling_reachable sections addImageThrows saveThrows imgs evs)
    as [HA _].
  split; [|split; [|split; [|split]]].
  - intros job Hj Hg.
    assert (Hg' : atOrPastGate (phase job) = true) by (destruct (phase job); auto).
    pose proof (gate_history sections addImageThrows saveThrows imgs evs) as HG.
    destruct (HG j job Hj Hg') as (pre & post & Hevs & Himgs).
    exists pre, post. split; [exact Hevs|].
    intros i img Hi. destruct (Himgs i img Hi) as [Hl|[Hs|Hw]]; auto.
    destruct (phase job); simpl in Hw, Hg; try contradiction. discriminate.
  - apply resolves_at_once.
  - intros k Hj.
    pose proof (HA j _ Hj) as Hne. simpl in Hne.
    destruct sections as [|section rest] eqn:Hs; [congruence|].
    exists section. split; [reflexivity|]. split.
    + rewrite (step_next (section :: rest) addImageThrows saveThrows _
                 (FontsSettled j (Fulfilled tt)) j HS Hj).
      unfold nextPhase. rewrite Nat.eqb_refl. unfold afterLoop. cbn [nth_error].
      reflexivity.
    + intros i. split; [apply pending_sound|].
      intros (img & Hi & Hl). exact (pending_unresolved _ _ Hi Hl).
  - intros k pending i e Hj Hin He.
    pose proof (HA j _ Hj) as Hne. simpl in Hne.
    destruct sections as [|section rest] eqn:Hs; [congruence|].
    exists section. split; [reflexivity|].
    rewrite (step_next (section :: rest) addImageThrows saveThrows _ e j HS Hj).
    assert (Hex : existsb (Nat.eqb i) pending = true).
    { apply existsb_exists. exists i. split; [assumption|apply Nat.eqb_refl]. }
    destruct He as [->|[nw ->]]; unfold nextPhase; rewrite Hex; unfold afterLoop;
      cbn [nth_error]; reflexivity.
  - intros k i img later Hj Hi Hc Hnw Hno.
    assert (Hl : alreadyLoaded img = false)
      by (unfold alreadyLoaded; rewrite Hc, Hnw; reflexivity).
    destruct (gate_waits_on _ j i HS Hj Hi Hl) as (pending & Hj1 & Hin).
    rewrite run_app.
    change (run (run (initial imgs) evs) (FontsSettled j (Fulfilled tt) :: later))
      with (run (step (run (initial imgs) evs) (FontsSettled j (Fulfilled tt))) later).
    apply (@stays_at_gate _ _ sections addImageThrows saveThrows later _ j k
             pending i); auto.
    now apply single_step.
Qed.

(** C10.  An image that is complete with natural width 0 when the fonts
    become ready is not passed by the already-complete check: the job is
    left waiting on it, stays at the readiness step for as long as that
    image fires neither [load] nor [error], whatever else happens, and
    stops waiting on it at the next [load] or [error] of that image. *)
Theorem failed_image_stalls_the_gate
    (imgs : list HTMLImageElement) (evs later : list Event) (j : nat)
    (k : ExportKind) (i : nat) (img : HTMLImageElement) :
  nth_error (jobs (run (initial imgs) evs)) j
    = Some {| kind := k; phase := AwaitFonts |} ->
  nth_error (images (run (initial imgs) evs)) i = Some img ->
  complete img = true ->
  naturalWidth img = 0%Z ->
  ~ signalled i later ->
  (exists pending,
      nth_error (jobs (step (run (initial imgs) evs) (FontsSettled j (Fulfilled tt)))) j
        = Some {| kind := k; phase := AwaitImages pending |} /\
      In i pending) /\
  (exists pending,
      nth_error
        (jobs (run (initial imgs) (evs ++ FontsSettled j (Fulfilled tt) :: later))) j
        = Some {| kind := k; phase := AwaitImages pending |} /\
      In i pending) /\
  (forall e,
      e = ImageError i \/ (exists nw, e = ImageLoad i nw) ->
      exists p,
        nth_error
          (jobs (run (initial imgs)
                     (evs ++ FontsSettled j (Fulfilled tt) :: later ++ [e]))) j
          = Some {| kind := k; phase := p |} /\
        ~ In i (waitingOn p)).
Proof.
  intros Hj Hi Hc Hnw Hno.
  pose proof (single_reachable sections addImageThrows saveThrows imgs evs) as HS.
  assert (Hl : alreadyLoaded img = false)
    by (unfold alreadyLoaded; rewrite Hc, Hnw; reflexivity).
  destruct (gate_waits_on _ j i HS Hj Hi Hl) as (pending & Hj1 & Hin).
  split; [eauto|].
  assert (HS1 : SingleFlight (step (run (initial imgs) evs)
                                (FontsSettled j (Fulfilled tt))))
    by now apply single_step.
  destruct (@stays_at_gate _ _ sections addImageThrows saveThrows later _ j k
              pending i HS1 Hj1 Hin Hno)
    as (pending' & Hj2 & Hin').
  assert (Hrun : forall l,
             run (initial imgs) (evs ++ FontsSettled j (Fulfilled tt) :: l)
             = run (step (run (initial imgs) evs) (FontsSettled j (Fulfilled tt))) l)
    by (intros l; now rewrite run_app).
  split; [rewrite Hrun; eauto|].
  intros e He. rewrite Hrun, run_snoc.
  assert (HS2 : SingleFlight (run (step (run (initial imgs) evs)
                                        (FontsSettled j (Fulfilled tt))) later))
    by now apply single_run.
  rewrite (step_next sections addImageThrows saveThrows _ e j HS2 Hj2).
  eexists. split; [reflexivity|].
  destruct He as [->|[nw ->]];
    exact (signal_resolves sections addImageThrows saveThrows
             (images (run (step (run (initial imgs) evs)
                                (FontsSettled j (Fulfilled tt))) later))
             j k (AwaitImages pending') i).
Qed.

End Gate.

(** ** A run in which nothing goes wrong *)

Lemma filter_absent (i : nat) (l : list nat) :
  ~ In i l -> filter (fun i' => negb (i =? i')%nat) l = l.
Proof.
  induction l as [|a t IH]; intros Hnot; simpl; [reflexivity|].
  destruct (Nat.eqb_spec i a) as [->|Hne]; simpl.
  - exfalso. apply Hnot. now left.
  - f_equal. apply IH. intros Hin. apply Hnot. now right.
Qed.

Section HappyPath.

Context {num : Type} `{Number num}.
Variable sections : list HTMLElement.
Variable addImageThrows : ExportKind -> PlacedImage num -> option Error.
Variable saveThrows : Document num -> option Error.
Hypothesis addImage_ok : forall k p, addImageThrows k p = None.
Hypothesis save_ok : forall doc, saveThrows doc = None.

Local Abbreviation step := (step sections addImageThrows saveThrows).
Local Abbreviation run := (run sections addImageThrows saveThrows).
Local Abbreviation partialDoc := (partialDoc sections).
Local Abbreviation artifact := (artifact sections).

Lemma captures_write (k : ExportKind) (ds2 : list DataURL) :
  forall (ds1 : list DataURL) (i : nat) (section : HTMLElement) (w : World num),
    nth_error (jobs w) 0
      = Some {| kind := k;
                phase := AwaitCapture i (captureOptions section) (partialDoc k i ds1) |} ->
    nth_error sections i = Some section ->
    List.length ds1 = i ->
    (i + List.length ds2 = List.length sections)%nat ->
    downloads
      (run w (map (fun d => CaptureSettled 0 (Fulfilled (inr d))) ds2
              ++ match k with
                 | pdf => []
                 | ppt => [WriteFileSettled 0 (Fulfilled tt)]
                 end))
    = downloads w ++ [artifact k (ds1 ++ ds2)].
Proof.
  induction ds2 as [|d ds2 IH]; intros ds1 i section w Hj Hs Hlen Hsum.
  - assert (i < List.length sections)%nat by (apply nth_error_Some; congruence).
    simpl in Hsum. lia.
  - simpl map. simpl app. simpl run.
    unfold captureSettled at 1. rewrite Hj.
    destruct (append addImageThrows k i (captureOptions section) d (partialDoc k i ds1))
      as [err|doc'] eqn:Happ.
    { unfold append in Happ. rewrite addImage_ok in Happ. discriminate. }
    eapply append_partial in Happ; eauto. subst doc'.
    unfold loop. destruct (nth_error sections (S i)) as [section'|] eqn:Hs'.
    + rewrite (IH (ds1 ++ [d]) (S i) section').
      * simpl. now rewrite <- app_assoc.
      * exact (@nth_error_setNth_same _ (jobs w) 0%nat _ _ Hj).
      * exact Hs'.
      * rewrite length_app. simpl. lia.
      * simpl in Hsum. lia.
    + apply nth_error_None in Hs'.
      assert (Hi : S i = List.length sections).
      { assert (i < List.length sections)%nat by (apply nth_error_Some; congruence).
        lia. }
      assert (ds2 = []) as -> by (destruct ds2; [reflexivity|simpl in Hsum; lia]).
      assert (Hdoc : partialDoc k (S i) (ds1 ++ [d]) = assembled k sections (ds1 ++ [d])).
      { unfold partialDoc. now rewrite Hi, firstn_all. }
      rewrite Hdoc. unfold finish. destruct k; simpl.
      * rewrite save_ok. reflexivity.
      * unfold writeFileSettled. cbn [jobs setPhase setJobs].
        rewrite (@nth_error_setNth_same _ (jobs w) 0%nat _ _ Hj). reflexivity.
Qed.

Lemma load_one (k : ExportKind) (i0 : nat) (pending : list nat) (nw : Z)
    (w : World num) :
  jobs w = [{| kind := k; phase := AwaitImages (i0 :: pending) |}] ->
  ~ In i0 pending ->
  exists w1,
    jobs w1 = jobs w /\ downloads w1 = downloads w /\
    imageEvent sections saveThrows i0 nw w
    = match pending with
      | [] => loop sections saveThrows 0 k 0 (newDocument k) w1
      | _ :: _ => setPhase 0 k (AwaitImages pending) w1
      end.
Proof.
  intros Hj Hnotin. unfold imageEvent.
  match goal with
  | |- context [fold_left _ (seq 0 (List.length (jobs ?x))) ?x] => exists x
  end.
  assert (Hj1 : jobs (match nth_error (images w) i0 with
                      | Some img =>
                          setImages
                            (setNth i0 {| src := src img; complete := true;
                                          naturalWidth := nw;
                                          crossorigin := crossorigin img;
                                          referrerpolicy := referrerpolicy img |}
                               (images w)) w
                      | None => w
                      end) = jobs w)
    by (destruct (nth_error (images w) i0); reflexivity).
  split; [exact Hj1|]. split; [destruct (nth_error (images w) i0); reflexivity|].
  rewrite Hj1, Hj. cbn [List.length seq fold_left].
  unfold done. rewrite Hj1, Hj. cbn [nth_error existsb filter].
  rewrite Nat.eqb_refl. cbn [orb negb].
  rewrite (@filter_absent i0 pending Hnotin). destruct pending; reflexivity.
Qed.

Lemma images_load (k : ExportKind) (section : HTMLElement) (rest : list HTMLElement)
    (pending : list nat) :
  sections = section :: rest ->
  NoDup pending ->
  pending <> [] ->
  forall w : World num,
    jobs w = [{| kind := k; phase := AwaitImages pending |}] ->
    jobs (run w (map (fun i => ImageLoad i 1) pending))
      = [{| kind := k;
            phase := AwaitCapture 0 (captureOptions section) (newDocument k) |}] /\
    downloads (run w (map (fun i => ImageLoad i 1) pending)) = downloads w.
Proof.
  intros Hs. induction pending as [|i0 pending IH]; intros Hnd Hne w Hj;
    [congruence|].
  apply NoDup_cons_iff in Hnd as [Hnotin Hnd'].
  cbn [map]. change (run w (ImageLoad i0 1 :: ?l))
    with (run (imageEvent sections saveThrows i0 1 w) l).
  destruct (load_one 1 w Hj Hnotin) as (w1 & Hj1 & Hd1 & ->).
  destruct pending as [|i1 pending'].
  - unfold loop. rewrite Hs. cbn [nth_error map run fold_left].
    cbn [jobs downloads setPhase setJobs]. rewrite Hj1, Hj, Hd1. auto.
  - destruct (IH Hnd' ltac:(discriminate)
                (setPhase 0 k (AwaitImages (i1 :: pending')) w1)) as [Hjobs Hdl].
    + cbn [jobs setPhase setJobs]. now rewrite Hj1, Hj.
    + rewrite Hjobs, Hdl. cbn [downloads setPhase setJobs]. auto.
Qed.

(** The run [happyRun] writes one file, the document assembled from all
    the sections in order. *)
Lemma happy_run_writes (k : ExportKind) (imgs : list HTMLImageElement)
    (ds : list DataURL) :
  sections <> [] ->
  List.length ds = List.length sections ->
  downloads (run (initial imgs) (happyRun k imgs ds)) = [artifact k ds].
Proof.
  intros Hne Hlen. destruct sections as [|section rest] eqn:Hs; [congruence|].
  rewrite <- Hs in *. unfold happyRun.
  change (Click k :: FontsSettled 0 (Fulfilled tt) :: ?l)
    with ([Click k; FontsSettled 0 (Fulfilled tt)] ++ l).
  rewrite !run_app.
  set (w2 := run (initial imgs) [Click k; FontsSettled 0 (Fulfilled tt)]).
  assert (Hstart : jobs (step (initial imgs) (Click k))
                   = [{| kind := k; phase := AwaitFonts |}] /\
                   downloads (step (initial imgs) (Click k)) = [] /\
                   images (step (initial imgs) (Click k)) = imgs).
  { destruct k; simpl; unfold exportToPdf, exportToPpt, start; rewrite Hs; auto. }
  destruct Hstart as (Hj1 & Hd1 & Hi1).
  destruct (prepareImages imgs) as [imgs' pending] eqn:Hprep.
  assert (Hnd : NoDup pending).
  { unfold prepareImages in Hprep. injection Hprep as _ <-.
    apply indicesFrom_NoDup. }
  set (w1 := setImages imgs' (step (initial imgs) (Click k))).
  assert (Hw1 : jobs w1 = [{| kind := k; phase := AwaitFonts |}] /\ downloads w1 = [])
    by (subst w1; cbn [jobs downloads setImages]; auto).
  destruct Hw1 as [Hjw1 Hdw1].
  assert (Hw2 : w2 = match pending with
                     | [] => loop sections saveThrows 0 k 0 (newDocument k) w1
                     | _ :: _ => setPhase 0 k (AwaitImages pending) w1
                     end).
  { subst w2 w1.
    change (run (initial imgs) [Click k; FontsSettled 0 (Fulfilled tt)])
      with (fontsSettled sections saveThrows 0 (Fulfilled tt)
              (step (initial imgs) (Click k))).
    unfold fontsSettled. rewrite Hj1, Hi1, Hprep. reflexivity. }
  cbn [snd].
  set (w3 := run w2 (map (fun i => ImageLoad i 1) pending)).
  assert (Hw3 : jobs w3 = [{| kind := k;
                              phase := AwaitCapture 0 (captureOptions section)
                                         (newDocument k) |}] /\
                downloads w3 = []).
  { subst w3. destruct pending as [|i0 pending'].
    - rewrite Hw2. unfold loop. rewrite Hs.
      cbn [map run fold_left nth_error jobs downloads setPhase setJobs].
      rewrite Hjw1, Hdw1. auto.
    - destruct (@images_load k section rest (i0 :: pending') Hs Hnd
                  ltac:(discriminate) w2) as [Hjobs Hdl].
      + rewrite Hw2. cbn [jobs setPhase setJobs]. now rewrite Hjw1.
      + rewrite Hjobs, Hdl, Hw2. cbn [downloads setPhase setJobs]. auto. }
  destruct Hw3 as [Hj3 Hd3].
  rewrite <- run_app.
  rewrite (@captures_write k ds [] 0%nat section w3).
  - now rewrite Hd3.
  - now rewrite Hj3.
  - now rewrite Hs.
  - reflexivity.
  - simpl. exact Hlen.
Qed.

End HappyPath.

(** ** Pages in section order *)

Lemma nth_error_assembled {num : Type} `{Number num} (k : ExportKind)
    (ss : list HTMLElement) (ds : list DataURL) (i : nat) (section : HTMLElement) :
  List.length ds = List.length ss ->
  nth_error ss i = Some section ->
  exists d,
    nth_error ds i = Some d /\
    nth_error (assembled k ss ds) i = Some [place k (captureOptions section) d].
Proof.
  revert ds i; induction ss as [|s ss IH]; intros [|d ds] [|i] Hlen Hi;
    simpl in *; try discriminate.
  - injection Hi as ->. eauto.
  - apply IH; [congruence|assumption].
Qed.

(** C1.  For a non-empty list of N sections, every document written, by
    whichever run, has exactly N pages (slides), the i-th holding the
    capture of the i-th section and nothing else; the run in which nothing
    throws writes that document; and the loop puts the first capture on the
    initial page of the paginated document and adds a page (a slide) before
    every other placement. *)
Theorem one_page_per_section {num : Type} `{Number num}
    (sections : list HTMLElement)
    (addImageThrows : ExportKind -> PlacedImage num -> option Error)
    (saveThrows : Document num -> option Error)
    (imgs : list HTMLImageElement) :
  sections <> [] ->
  (forall evs f,
      In f (downloads (run sections addImageThrows saveThrows (initial imgs) evs)) ->
      List.length (content f) = List.length sections /\
      exists ds,
        List.length ds = List.length sections /\
        forall i section,
          nth_error sections i = Some section ->
          exists d,
            nth_error ds i = Some d /\
            nth_error (content f) i
              = Some [place (format f) (captureOptions section) d]) /\
  (forall k ds,
      List.length ds = List.length sections ->
      (forall k' p, addImageThrows k' p = None) ->
      (forall doc, saveThrows doc = None) ->
      downloads (run sections addImageThrows saveThrows (initial imgs)
                   (happyRun k imgs ds))
        = [artifact sections k ds] /\
      format (artifact sections k ds) = k /\
      List.length (content (artifact sections k ds)) = List.length sections) /\
  (forall k i o d doc doc',
      append addImageThrows k i o d doc = inr doc' ->
      doc' = match k, i with
             | pdf, O => addImage doc (place k o d)
             | _, _ => doc ++ [[place k o d]]
             end) /\
  (forall p : PlacedImage num, addImage (newDocument pdf) p = [[p]]).
Proof.
  intros Hne. split; [|split; [|split]].
  - intros evs f Hin.
    pose proof (assembling_reachable sections addImageThrows saveThrows imgs evs)
      as [_ HF].
    rewrite Forall_forall in HF. destruct (HF f Hin) as (_ & _ & ds & Hlen & Hc).
    rewrite Hc. split; [now apply assembled_length|].
    exists ds. split; [assumption|].
    intros i section Hi. now apply nth_error_assembled.
  - intros k ds Hlen Hadd Hsave. split; [|split].
    + now apply happy_run_writes.
    + reflexivity.
    + now apply assembled_length.
  - intros k i o d doc doc'. unfold append.
    destruct (addImageThrows k (place k o d)); [discriminate|].
    intros [= <-]. destruct k, i; cbn [Nat.eqb]; unfold addPage;
      try reflexivity; exact (addImage_last doc [] _).
  - reflexivity.
Qed.

(** ** No content *)

Lemma setNth_last {A : Type} (l : list A) (a v : A) :
  setNth (List.length l) v (l ++ [a]) = l ++ [v].
Proof.
  induction l as [|b t IH]; simpl; [reflexivity|]. now rewrite IH.
Qed.

Section NoContent.

Context {num : Type} `{Number num}.
Variable addImageThrows : ExportKind -> PlacedImage num -> option Error.
Variable saveThrows : Document num -> option Error.

Local Abbreviation step := (step [] addImageThrows saveThrows).
Local Abbreviation run := (run [] addImageThrows saveThrows).

Lemma no_content_click (k : ExportKind) (w : World num) :
  isExporting w = false ->
  step w (Click k)
  = {| exportingType := None;
       isExporting := false;
       images := images w;
       jobs := jobs w ++ [{| kind := k; phase := Settled NoContent |}];
       alerts := alerts w ++ ["No content found to export."%string];
       console := console w;
       downloads := downloads w |}.
Proof.
  intros Hr.
  assert (E : step w (Click k) = start [] k w) by (destruct k; reflexivity).
  rewrite E. unfold start. rewrite Hr. unfold render, settle, setPhase. simpl.
  now rewrite setNth_last.
Qed.

Lemma no_content_idle (imgs : list HTMLImageElement) (evs : list Event) :
  exportingType (run (initial imgs) evs) = None /\
  isExporting (run (initial imgs) evs) = false /\
  downloads (run (initial imgs) evs) = [] /\
  console (run (initial imgs) evs) = [] /\
  Forall (fun job => phase job = Settled NoContent) (jobs (run (initial imgs) evs)).
Proof.
  induction evs as [|e evs IH] using rev_ind.
  - simpl. auto.
  - rewrite run_snoc.
    pose proof (single_reachable [] addImageThrows saveThrows imgs evs) as HS.
    set (w := run (initial imgs) evs) in *.
    destruct IH as (Hidle & Hr & Hd & Hc & Hjobs).
    pose proof (step_effect [] addImageThrows saveThrows w e HS) as E.
    assert (HE : forall w', Effect w w' ->
              exportingType w' = None /\ isExporting w' = false /\
              downloads w' = [] /\ console w' = [] /\
              Forall (fun job => phase job = Settled NoContent) (jobs w')).
    { intros w' [imgs' [->|(j & k & p & Hj & Hp & _)]]; [simpl; auto|].
      rewrite Forall_forall in Hjobs.
      pose proof (Hjobs _ (nth_error_In _ _ Hj)) as Hp'. simpl in Hp'.
      subst p. discriminate. }
    destruct e as [k| | | | | |]; try (apply HE; exact E).
    + rewrite (no_content_click k w Hr). simpl. repeat split; auto.
      apply Forall_app. split; [assumption|]. constructor; [reflexivity|constructor].
    + rewrite E. unfold render. simpl. rewrite Hidle. auto.
Qed.

(** C7.  With no section in the page, a start fails at once: the notice
    "No content found to export." is shown, the job is over within the
    click itself, without waiting for fonts or images (the images are left
    untouched) and without any capture, nothing is logged as an error, no
    file is written and the controller is idle; and this is so in every
    state the page can be in. *)
Theorem no_content_fails_at_once
    (imgs : list HTMLImageElement) (evs : list Event) (k : ExportKind) :
  step (run (initial imgs) evs) (Click k)
  = {| exportingType := None;
       isExporting := false;
       images := images (run (initial imgs) evs);
       jobs := jobs (run (initial imgs) evs)
               ++ [{| kind := k; phase := Settled NoContent |}];
       alerts := alerts (run (initial imgs) evs)
                 ++ ["No content found to export."%string];
       console := [];
       downloads := [] |} /\
  Forall (fun job => phase job = Settled NoContent) (jobs (run (initial imgs) evs)) /\
  exportingType (run (initial imgs) evs) = None /\
  downloads (run (initial imgs) evs) = [].
Proof.
  destruct (no_content_idle imgs evs) as (Hidle & Hr & Hd & Hc & Hjobs).
  rewrite (no_content_click k _ Hr), Hd, Hc. auto.
Qed.

End NoContent.

(** ** Sample runs *)

(** The claim C9 as written fails: image 0 fires [error], the export is
    started and the fonts are ready, yet the job waits on image 0, whose
    failure has left it complete with natural width 0, and it goes on
    waiting whatever happens, short of another signal of that image. *)
Lemma failed_image_blocks_the_gate :
  signalled 0 failedBeforeExport /\
  nth_error (images (sampleRun threeSections [loadingImage] [ImageError 0])) 0
    = Some brokenImage /\
  nth_error (jobs (sampleRun threeSections [loadingImage] failedBeforeExport)) 0
    = Some {| kind := pdf; phase := AwaitImages [0%nat] |} /\
  (forall later,
      ~ signalled 0 later ->
      exists pending,
        nth_error
          (jobs (sampleRun threeSections [loadingImage] (failedBeforeExport ++ later))) 0
          = Some {| kind := pdf; phase := AwaitImages pending |} /\
        In 0%nat pending).
Proof.
  split; [right; now left|]. split; [reflexivity|]. split; [reflexivity|].
  intros later Hno. unfold sampleRun. rewrite run_app.
  apply (@stays_at_gate _ _ threeSections neverThrows2 neverThrows later _ 0%nat pdf
           [0%nat] 0%nat); auto.
  - apply single_reachable.
  - now left.
Qed.

(** C1 on three sections, for both kinds of export. *)
Lemma one_page_per_section_witness :
  (downloads (sampleRun threeSections [loadingImage]
                (happyRun pdf [loadingImage] ["png1"; "png2"; "png3"]%string))
     = [artifact threeSections pdf ["png1"; "png2"; "png3"]%string] /\
   List.length (content (artifact (num := Binary64.float) threeSections pdf
                           ["png1"; "png2"; "png3"]%string)) = 3%nat) /\
  (downloads (sampleRun threeSections [loadingImage]
                (happyRun ppt [loadingImage] ["png1"; "png2"; "png3"]%string))
     = [artifact threeSections ppt ["png1"; "png2"; "png3"]%string] /\
   List.length (content (artifact (num := Binary64.float) threeSections ppt
                           ["png1"; "png2"; "png3"]%string)) = 3%nat).
Proof.
  destruct (@one_page_per_section Binary64.float _ threeSections neverThrows2
              neverThrows [loadingImage] ltac:(discriminate)) as (_ & Hrun & _).
  split.
  - destruct (Hrun pdf ["png1"; "png2"; "png3"]%string eq_refl
                (fun _ _ => eq_refl) (fun _ => eq_refl)) as (Hd & _ & Hl).
    split; [exact Hd|exact Hl].
  - destruct (Hrun ppt ["png1"; "png2"; "png3"]%string eq_refl
                (fun _ _ => eq_refl) (fun _ => eq_refl)) as (Hd & _ & Hl).
    split; [exact Hd|exact Hl].
Defined.

(** C5 on a deck export clicked while a paginated export is under way. *)
Lemma start_while_running_is_dropped_witness :
  step threeSections neverThrows2 neverThrows
    (sampleRun threeSections [loadingImage] [Click pdf]) (Click ppt)
    = sampleRun threeSections [loadingImage] [Click pdf] /\
  inFlightCount (sampleRun threeSections [loadingImage] [Click pdf]) = 1%nat.
Proof.
  apply (proj2 (@start_while_running_is_dropped Binary64.float _ threeSections
                  neverThrows2 neverThrows [loadingImage] [Click pdf] ppt)).
  discriminate.
Defined.

(** C6 on the rejected capture of the fourth of five sections, and on the
    capture of the last of three sections. *)
Lemma every_exit_resets_to_idle_witness :
  exportingType
    (step fiveSections neverThrows2 neverThrows
       (sampleRun fiveSections [] threeCaptured) fourthCaptureRejected) = None /\
  settledIdle
    (step threeSections neverThrows2 neverThrows
       (sampleRun threeSections []
          [Click pdf; FontsSettled 0 (Fulfilled tt);
           CaptureSettled 0 (Fulfilled (inr "png1"%string));
           CaptureSettled 0 (Fulfilled (inr "png2"%string))])
       (CaptureSettled 0 (Fulfilled (inr "png3"%string))))
    0 pdf Completed.
Proof.
  split.
  - apply (proj1 (@every_exit_resets_to_idle Binary64.float _ fiveSections
                    neverThrows2 neverThrows [] threeCaptured)
             fourthCaptureRejected 0%nat pdf (Failed "tainted canvas"%string)).
    + reflexivity.
    + discriminate.
  - destruct (@every_exit_resets_to_idle Binary64.float _ threeSections
                neverThrows2 neverThrows []
                [Click pdf; FontsSettled 0 (Fulfilled tt);
                 CaptureSettled 0 (Fulfilled (inr "png1"%string));
                 CaptureSettled 0 (Fulfilled (inr "png2"%string))])
      as (_ & _ & _ & _ & _ & Hlast & _).
    exact (Hlast 0%nat pdf 2%nat _ _ "png3"%string _ eq_refl eq_refl eq_refl).
Defined.

(** C8 on the rejected capture of the fourth of five sections. *)
Lemma no_partial_artifact_witness :
  downloads
    (step fiveSections neverThrows2 neverThrows
       (sampleRun fiveSections [] threeCaptured) fourthCaptureRejected)
  = downloads (sampleRun fiveSections [] threeCaptured).
Proof.
  apply (proj1 (@no_partial_artifact Binary64.float _ fiveSections
                  neverThrows2 neverThrows [] threeCaptured)
           fourthCaptureRejected 0%nat pdf "tainted canvas"%string).
  - reflexivity.
  - discriminate.
Defined.

(** The amended C9 on an image that fires [error] during the wait, and on
    a loaded remote image whose load the attribute write restarts. *)
Lemma capture_begins_after_readiness_witness :
  (exists pre post,
      [Click pdf; FontsSettled 0 (Fulfilled tt); ImageError 0]
        = pre ++ FontsSettled 0 (Fulfilled tt) :: post /\
      forall i img,
        nth_error (images (run threeSections neverThrows2 neverThrows
                             (initial (num := Binary64.float) [loadingImage]) pre)) i
          = Some img ->
        snd (prepareImage img) = true \/ signalled i post) /\
  nth_error
    (jobs (step threeSections neverThrows2 neverThrows
             (sampleRun threeSections [loadedRemoteImage] [Click pdf])
             (FontsSettled 0 (Fulfilled tt)))) 0
    = Some {| kind := pdf; phase := AwaitImages [0%nat] |}.
Proof.
  split.
  - apply (proj1 (@capture_begins_after_readiness Binary64.float _ threeSections
                    neverThrows2 neverThrows [loadingImage]
                    [Click pdf; FontsSettled 0 (Fulfilled tt); ImageError 0] 0%nat)
             {| kind := pdf;
                phase := AwaitCapture 0 (captureOptions (sized 1600 900))
                           (newDocument pdf) |}).
    + reflexivity.
    + reflexivity.
  - destruct (proj1 (proj2 (proj2
                (@capture_begins_after_readiness Binary64.float _ threeSections
                   neverThrows2 neverThrows [loadedRemoteImage] [Click pdf] 0%nat)))
                pdf eq_refl) as (section & _ & Hj & _).
    exact Hj.
Defined.

(** C10 on an image that had failed before the export was started. *)
Lemma failed_image_stalls_the_gate_witness :
  (exists pending,
      nth_error
        (jobs (step threeSections neverThrows2 neverThrows
                 (sampleRun threeSections [brokenImage] [Click pdf])
                 (FontsSettled 0 (Fulfilled tt)))) 0
        = Some {| kind := pdf; phase := AwaitImages pending |} /\
      In 0%nat pending) /\
  (exists pending,
      nth_error
        (jobs (sampleRun threeSections [brokenImage]
                 ([Click pdf] ++ FontsSettled 0 (Fulfilled tt)
                    :: [Commit; Click ppt; ImageLoad 1 640]))) 0
        = Some {| kind := pdf; phase := AwaitImages pending |} /\
      In 0%nat pending) /\
  (forall e,
      e = ImageError 0 \/ (exists nw, e = ImageLoad 0 nw) ->
      exists p,
        nth_error
          (jobs (sampleRun threeSections [brokenImage]
                   ([Click pdf] ++ FontsSettled 0 (Fulfilled tt)
                      :: [Commit; Click ppt; ImageLoad 1 640] ++ [e]))) 0
          = Some {| kind := pdf; phase := p |} /\
        ~ In 0%nat (waitingOn p)).
Proof.
  apply (@failed_image_stalls_the_gate Binary64.float _ threeSections neverThrows2
           neverThrows [brokenImage] [Click pdf] [Commit; Click ppt; ImageLoad 1 640]
           0%nat pdf 0%nat brokenImage).
  - reflexivity.
  - reflexivity.
  - reflexivity.
  - reflexivity.
  - intros [[nw [E|[E|[E|[]]]]]|[E|[E|[E|[]]]]]; discriminate.
Defined.

(** ** The scenarios of the specification, run *)

(** No section: the notice, no file, idle. *)
Example scenario_no_content :
  alerts (sampleRun [] [loadingImage] [Click ppt])
    = ["No content found to export."%string] /\
  jobs (sampleRun [] [loadingImage] [Click ppt])
    = [{| kind := ppt; phase := Settled NoContent |}] /\
  downloads (sampleRun [] [loadingImage] [Click ppt]) = [] /\
  exportingType (sampleRun [] [loadingImage] [Click ppt]) = None.
Proof. repeat split. Qed.

(** Three sections: three pages, each bitmap at the origin, and the job
    completed. *)
Example scenario_three_sections :
  map (fun f => (fileName f, format f,
                 map (map (fun p => (data p, x (box p), y (box p)))) (content f)))
    (downloads (sampleRun threeSections []
                  (happyRun pdf [] ["png1"; "png2"; "png3"]%string)))
  = [("presentation.pdf"%string, pdf,
      [[("png1"%string, S754_zero false, S754_zero false)];
       [("png2"%string, S754_zero false, S754_zero false)];
       [("png3"%string, S754_zero false, S754_zero false)]])] /\
  jobs (sampleRun threeSections [] (happyRun pdf [] ["png1"; "png2"; "png3"]%string))
    = [{| kind := pdf; phase := Settled Completed |}].
Proof. split; vm_compute; reflexivity. Qed.

(** The capture of the fourth of five sections is rejected: no file, one
    notice, the error logged, idle. *)
Example scenario_fourth_capture_rejected :
  downloads (sampleRun fiveSections [] (threeCaptured ++ [fourthCaptureRejected])) = [] /\
  jobs (sampleRun fiveSections [] (threeCaptured ++ [fourthCaptureRejected]))
    = [{| kind := pdf; phase := Settled (Failed "tainted canvas"%string) |}] /\
  alerts (sampleRun fiveSections [] (threeCaptured ++ [fourthCaptureRejected]))
    = ["Unable to export PDF. Please check console for details."%string] /\
  console (sampleRun fiveSections [] (threeCaptured ++ [fourthCaptureRejected]))
    = [("PDF export failed"%string, "tainted canvas"%string)] /\
  exportingType (sampleRun fiveSections [] (threeCaptured ++ [fourthCaptureRejected]))
    = None.
Proof. repeat split; vm_compute; reflexivity. Qed.

(** An image that fires nothing: the job is still at the readiness step
    after the fonts are ready, a commit, and a second click. *)
Example scenario_image_never_settles :
  jobs (sampleRun threeSections [loadingImage]
          [Click pdf; FontsSettled 0 (Fulfilled tt); Commit; Click ppt])
    = [{| kind := pdf; phase := AwaitImages [0%nat] |}] /\
  downloads (sampleRun threeSections [loadingImage]
               [Click pdf; FontsSettled 0 (Fulfilled tt); Commit; Click ppt]) = [].
Proof. split; reflexivity. Qed.

(** * Further properties of the export code *)

(** ** The images of the document *)

Section Images.

Context {num : Type} `{Number num}.
Variable sections : list HTMLElement.
Variable addImageThrows : ExportKind -> PlacedImage num -> option Error.
Variable saveThrows : Document num -> option Error.

Local Abbreviation step := (step sections addImageThrows saveThrows).
Local Abbreviation run := (run sections addImageThrows saveThrows).
Local Abbreviation loop := (loop sections saveThrows).
Local Abbreviation done := (done sections saveThrows).
Local Abbreviation nextPhase := (nextPhase sections addImageThrows saveThrows).

Lemma resumed_images (j : nat) (k : ExportKind) (w w' : World num) :
  Resumed j k w w' -> images w' = images w.
Proof. intros [p _|err|f]; try reflexivity. destruct k; reflexivity. Qed.

Lemma loop_images (j : nat) (k : ExportKind) (i : nat) (doc : Document num)
    (w : World num) :
  images (loop j k i doc w) = images w.
Proof. exact (resumed_images (loop_resumed sections saveThrows j k i doc w)). Qed.

Lemma throw_images (j : nat) (k : ExportKind) (err : Error) (w : World num) :
  images (throw j k err w) = images w.
Proof. destruct k; reflexivity. Qed.

Lemma fold_done_images (i : nat) (l : list nat) (w : World num) :
  images (fold_left (done i) l w) = images w.
Proof.
  revert w; induction l as [|j l IH]; intros w; simpl; [reflexivity|].
  rewrite IH.
  destruct (done_effect sections saveThrows i w j) as [->|(k & pending & _ & HR)];
    [reflexivity|exact (resumed_images HR)].
Qed.

(** The fonts become ready for a job that waits for them: the images are
    the images as [prepareImage] leaves them. *)
Lemma fontsSettled_images (j : nat) (k : ExportKind) (u : unit) (w : World num) :
  nth_error (jobs w) j = Some {| kind := k; phase := AwaitFonts |} ->
  images (step w (FontsSettled j (Fulfilled u))) = fst (prepareImages (images w)).
Proof.
  intros Hj. simpl. unfold fontsSettled. rewrite Hj. unfold prepareImages.
  cbv beta iota. cbn [fst].
  destruct (indicesFrom _ 0 (images w)); [now rewrite loop_images|reflexivity].
Qed.

(** What a task does to the images: nothing, the attribute writes of
    [prepareImage] on all of them, or the load (or failure) of one. *)
Lemma step_images (w : World num) (e : Event) :
  images (step w e) = images w \/
  images (step w e) = fst (prepareImages (images w)) \/
  exists i img nw,
    nth_error (images w) i = Some img /\
    images (step w e)
    = setNth i {| src := src img; complete := true; naturalWidth := nw;
                  crossorigin := crossorigin img;
                  referrerpolicy := referrerpolicy img |} (images w).
Proof.
  assert (Hev : forall i nw,
             images (imageEvent sections saveThrows i nw w) = images w \/
             images (imageEvent sections saveThrows i nw w)
               = fst (prepareImages (images w)) \/
             exists i0 img nw0,
               nth_error (images w) i0 = Some img /\
               images (imageEvent sections saveThrows i nw w)
               = setNth i0 {| src := src img; complete := true; naturalWidth := nw0;
                              crossorigin := crossorigin img;
                              referrerpolicy := referrerpolicy img |} (images w)).
  { intros i nw. unfold imageEvent. rewrite fold_done_images.
    destruct (nth_error (images w) i) as [img|] eqn:Hi; [|now left].
    right; right. exists i, img, nw. split; [assumption|reflexivity]. }
  destruct e as [k'| |j s|i nw|i|j s|j s]; [simpl|simpl| |simpl..].
  - left. destruct k'; unfold exportToPdf, exportToPpt, start;
      destruct (isExporting w); try reflexivity; destruct sections; reflexivity.
  - now left.
  - destruct (nth_error (jobs w) j) as [[k p]|] eqn:Hj;
      [|left; simpl; unfold fontsSettled; now rewrite Hj].
    destruct p; try (left; simpl; unfold fontsSettled; now rewrite Hj).
    destruct s as [u|err].
    + right; left. exact (@fontsSettled_images j k u w Hj).
    + left. simpl. unfold fontsSettled. rewrite Hj. apply throw_images.
  - apply Hev.
  - apply Hev.
  - left. unfold captureSettled.
    destruct (nth_error (jobs w) j) as [[k p]|]; [|reflexivity].
    destruct p; try reflexivity.
    destruct s as [[err|imgData]|err]; try apply throw_images.
    destruct (append _ _ _ _ _ _); [apply throw_images|apply loop_images].
  - left. unfold writeFileSettled.
    destruct (nth_error (jobs w) j) as [[k p]|]; [|reflexivity].
    destruct p; try reflexivity.
    destruct s as [u|err]; [reflexivity|apply throw_images].
Qed.

Lemma attributesFrom_refl (img : HTMLImageElement) : attributesFrom img img.
Proof. split; [reflexivity|left; split; reflexivity]. Qed.

Lemma attributesFrom_prepare (img0 img : HTMLImageElement) :
  attributesFrom img0 img -> attributesFrom img0 (fst (prepareImage img)).
Proof.
  intros [Hsrc Hattr]. unfold prepareImage. cbn [fst].
  destruct (String.prefix "http" (src img)) eqn:Hp.
  - split; [exact Hsrc|]. right. rewrite <- Hsrc. simpl. auto.
  - split; assumption.
Qed.

Lemma attributesFrom_signal (img0 img : HTMLImageElement) (nw : Z) :
  attributesFrom img0 img ->
  attributesFrom img0 {| src := src img; complete := true; naturalWidth := nw;
                         crossorigin := crossorigin img;
                         referrerpolicy := referrerpolicy img |}.
Proof. intros H0. exact H0. Qed.

(** X1.  An export never adds, removes or reorders the images of the
    document and never changes the source of one: in every reachable world
    image [i] is the image [i] the document started with, and its CORS
    attributes are either the ones it started with or [crossorigin =
    "anonymous"] and [referrerpolicy = "no-referrer"], the latter only on an
    image whose source starts with "http".  An image whose source does not
    start with "http" is never written to. *)
Theorem images_keep_their_identity
    (imgs : list HTMLImageElement) (evs : list Event) :
  List.length (images (run (initial imgs) evs)) = List.length imgs /\
  (forall i img,
      nth_error (images (run (initial imgs) evs)) i = Some img ->
      exists img0,
        nth_error imgs i = Some img0 /\ attributesFrom img0 img /\
        (String.prefix "http" (src img0) = false ->
         crossorigin img = crossorigin img0 /\
         referrerpolicy img = referrerpolicy img0)).
Proof.
  assert (Hinv : List.length (images (run (initial imgs) evs)) = List.length imgs /\
                 forall i img,
                   nth_error (images (run (initial imgs) evs)) i = Some img ->
                   exists img0, nth_error imgs i = Some img0 /\ attributesFrom img0 img).
  { induction evs as [|e evs [IHlen IH]] using rev_ind.
    - split; [reflexivity|]. intros i img Hi. exists img.
      split; [exact Hi|apply attributesFrom_refl].
    - rewrite run_snoc. set (w := run (initial imgs) evs) in *.
      destruct (step_images w e) as [->|[->|(i0 & img1 & nw & Hi0 & ->)]].
      + split; assumption.
      + unfold prepareImages. cbn [fst]. split; [now rewrite length_map|].
        intros i img Hi. rewrite nth_error_map in Hi.
        destruct (nth_error (images w) i) as [img1|] eqn:Hi1; [|discriminate].
        injection Hi as <-. destruct (IH i img1 Hi1) as (img0 & Himg0 & Hfrom).
        exists img0. split; [assumption|now apply attributesFrom_prepare].
      + split; [now rewrite setNth_length|].
        intros i img Hi.
        apply nth_error_setNth in Hi as [[Ei Eimg]|[_ Hi]]; [|now apply IH].
        destruct (IH i0 img1 Hi0) as (img0 & Himg0 & Hfrom).
        exists img0. rewrite <- Ei, Eimg.
        split; [assumption|now apply attributesFrom_signal]. }
  destruct Hinv as [Hlen Hall]. split; [exact Hlen|].
  intros i img Hi. destruct (Hall i img Hi) as (img0 & Himg0 & Hfrom).
  exists img0. split; [assumption|]. split; [assumption|].
  intros Hlocal. destruct Hfrom as [_ [Hsame|(Hremote & _)]]; [exact Hsame|congruence].
Qed.

Lemma corsReady_prepared (imgs : list HTMLImageElement) :
  Forall corsReady (fst (prepareImages imgs)).
Proof.
  unfold prepareImages. cbn [fst]. apply Forall_forall. intros img Hin.
  apply in_map_iff in Hin as (img0 & <- & _).
  unfold prepareImage, corsReady. cbn [fst].
  destruct (String.prefix "http" (src img0)) eqn:Hp; simpl; [auto|congruence].
Qed.

Lemma corsReady_setNth (imgs : list HTMLImageElement) (i : nat)
    (img : HTMLImageElement) (nw : Z) :
  Forall corsReady imgs ->
  nth_error imgs i = Some img ->
  Forall corsReady
    (setNth i {| src := src img; complete := true; naturalWidth := nw;
                 crossorigin := crossorigin img;
                 referrerpolicy := referrerpolicy img |} imgs).
Proof.
  intros Hall Hi. rewrite Forall_forall in *. intros img' Hin.
  apply In_nth_error in Hin as [n Hn].
  apply nth_error_setNth in Hn as [[_ ->]|[_ Hn]].
  - apply nth_error_In in Hi. exact (Hall img Hi).
  - apply nth_error_In in Hn. exact (Hall img' Hn).
Qed.

Lemma corsReady_step (w : World num) (e : Event) :
  Forall corsReady (images w) -> Forall corsReady (images (step w e)).
Proof.
  intros Hall.
  destruct (step_images w e) as [->|[->|(i0 & img1 & nw & Hi0 & ->)]].
  - assumption.
  - apply corsReady_prepared.
  - now apply corsReady_setNth.
Qed.

(** X2.  The CORS attributes are written before anything is waited for or
    captured: whenever a job is past the wait for the fonts (it waits on
    images, on a capture or on the deck being written, or has completed),
    every image whose source starts with "http" has [crossorigin =
    "anonymous"] and [referrerpolicy = "no-referrer"]. *)
Theorem remote_images_are_cors_enabled_before_capture
    (imgs : list HTMLImageElement) (evs : list Event) (j : nat) (job : Job num) :
  nth_error (jobs (run (initial imgs) evs)) j = Some job ->
  atOrPastGate (phase job) = true ->
  Forall corsReady (images (run (initial imgs) evs)).
Proof.
  revert j job. induction evs as [|e evs IH] using rev_ind; intros j job' Hj' Hg.
  - destruct j; discriminate.
  - rewrite run_snoc in *.
    pose proof (single_reachable sections addImageThrows saveThrows imgs evs) as HS.
    set (w := run (initial imgs) evs) in *.
    destruct (nth_error (jobs w) j) as [[k p]|] eqn:Hj.
    + rewrite (step_next sections addImageThrows saveThrows w e j HS Hj) in Hj'.
      injection Hj' as <-. simpl in Hg.
      destruct (atOrPastGate p) eqn:Hp.
      * apply corsReady_step. exact (IH j _ Hj Hp).
      * assert (Hfonts : p = AwaitFonts /\ exists u, e = FontsSettled j (Fulfilled u)).
        { destruct p as [| | | |[]]; try discriminate;
            destruct e as [| |j' [[]|err]| | | |]; simpl in Hg; try discriminate;
            destruct (Nat.eqb_spec j' j) as [->|]; try discriminate; eauto. }
        destruct Hfonts as [-> [u ->]].
        rewrite (@fontsSettled_images j k u w Hj). apply corsReady_prepared.
    + destruct (step_new sections addImageThrows saveThrows w e j HS Hj Hj')
        as (k & _ & _ & _ & ->).
      simpl in Hg. destruct sections; discriminate.
Qed.

End Images.

(** X2 on a remote image that is still loading when the fonts are ready. *)
Lemma remote_images_are_cors_enabled_before_capture_witness :
  Forall corsReady
    (images (sampleRun threeSections [remoteImage]
               [Click pdf; FontsSettled 0 (Fulfilled tt)])).
Proof.
  apply (@remote_images_are_cors_enabled_before_capture Binary64.float _
           threeSections neverThrows2 neverThrows [remoteImage]
           [Click pdf; FontsSettled 0 (Fulfilled tt)] 0%nat
           {| kind := pdf; phase := AwaitImages [0%nat] |}).
  - reflexivity.
  - reflexivity.
Defined.

(** ** The gate, opened *)

Lemma signalled_cons (i : nat) (e : Event) (later : list Event) :
  signalled i (e :: later) ->
  (e = ImageError i \/ exists nw, e = ImageLoad i nw) \/ signalled i later.
Proof.
  intros [[nw [E|Hin]]|[E|Hin]].
  - left; right. exists nw. now symmetry.
  - right; left. eauto.
  - left; left. now symmetry.
  - right; now right.
Qed.

Section Waiting.

Context {num : Type} `{Number num}.
Variable sections : list HTMLElement.
Variable addImageThrows : ExportKind -> PlacedImage num -> option Error.
Variable saveThrows : Document num -> option Error.

Local Abbreviation step := (step sections addImageThrows saveThrows).
Local Abbreviation run := (run sections addImageThrows saveThrows).
Local Abbreviation afterLoop := (afterLoop sections saveThrows).
Local Abbreviation nextPhase := (nextPhase sections addImageThrows saveThrows).

Lemma afterLoop_first (k : ExportKind) (section : HTMLElement) (doc : Document num) :
  nth_error sections 0 = Some section ->
  afterLoop k 0 doc = AwaitCapture 0 (captureOptions section) doc.
Proof. unfold afterLoop. now intros ->. Qed.

Lemma afterLoop_not_images (k : ExportKind) (i : nat) (doc : Document num)
    (pending : list nat) :
  afterLoop k i doc <> AwaitImages pending.
Proof.
  unfold afterLoop. destruct (nth_error sections i); [discriminate|].
  destruct k; [destruct (saveThrows doc)|]; discriminate.
Qed.

(** A job never waits on no image. *)
Lemma next_nonempty (imgs : list HTMLImageElement) (j : nat) (k : ExportKind)
    (p : Phase num) (e : Event) (pending : list nat) :
  (forall q, p = AwaitImages q -> q <> []) ->
  nextPhase imgs j k p e = AwaitImages pending -> pending <> [].
Proof.
  intros Hp.
  assert (Hsame : p = AwaitImages pending -> pending <> []) by (intros E; eauto).
  assert (Hsig : forall i,
             match p with
             | AwaitImages pending0 =>
                 if existsb (Nat.eqb i) pending0 then
                   match filter (fun i' => negb (i =? i')%nat) pending0 with
                   | [] => afterLoop k 0 (newDocument k)
                   | rest => AwaitImages rest
                   end
                 else p
             | _ => p
             end = AwaitImages pending -> pending <> []).
  { intros i. destruct p; try exact Hsame.
    destruct (existsb _ pending0); [|exact Hsame].
    destruct (filter _ pending0) eqn:Hf.
    - intros E. now apply afterLoop_not_images in E.
    - intros [= <-]. discriminate. }
  destruct e as [k'| |j' s|i nw|i|j' s|j' s]; unfold nextPhase;
    cbv beta iota zeta; try exact Hsame; try apply Hsig.
  - destruct p; try exact Hsame.
    destruct (j' =? j)%nat; [|exact Hsame].
    destruct s as [u|err]; [|discriminate].
    destruct (snd (prepareImages imgs)) eqn:Hs.
    + intros E. now apply afterLoop_not_images in E.
    + intros [= <-]. discriminate.
  - destruct p; try exact Hsame.
    destruct (j' =? j)%nat; [|exact Hsame].
    destruct s as [[err|imgData]|err]; try discriminate.
    destruct (append _ _ _ _ _ _); [discriminate|].
    intros E. now apply afterLoop_not_images in E.
  - destruct p; try exact Hsame.
    destruct (j' =? j)%nat; [|exact Hsame].
    destruct s; discriminate.
Qed.

Lemma waiting_nonempty (imgs : list HTMLImageElement) (evs : list Event) (j : nat)
    (k : ExportKind) (pending : list nat) :
  nth_error (jobs (run (initial imgs) evs)) j
    = Some {| kind := k; phase := AwaitImages pending |} ->
  pending <> [].
Proof.
  revert j k pending. induction evs as [|e evs IH] using rev_ind;
    intros j k pending Hj.
  - destruct j; discriminate.
  - rewrite run_snoc in Hj.
    pose proof (single_reachable sections addImageThrows saveThrows imgs evs) as HS.
    set (w := run (initial imgs) evs) in *.
    destruct (nth_error (jobs w) j) as [[k0 p]|] eqn:Hj0.
    + rewrite (step_next sections addImageThrows saveThrows w e j HS Hj0) in Hj.
      injection Hj as -> Hp.
      apply (@next_nonempty (images w) j k p e pending); [|exact Hp].
      intros q ->. exact (IH j k q Hj0).
    + destruct (step_new sections addImageThrows saveThrows w e j HS Hj0 Hj)
        as (k1 & _ & _ & _ & E).
      destruct sections; discriminate.
Qed.

(** A job that awaits a capture is not moved by clicks, commits and image
    signals. *)
Lemma capture_stays (later : list Event) (w : World num) (j : nat) (k : ExportKind)
    (i : nat) (o : CaptureOptions num) (doc : Document num) :
  SingleFlight w ->
  nth_error (jobs w) j = Some {| kind := k; phase := AwaitCapture i o doc |} ->
  forallb readinessOnly later = true ->
  nth_error (jobs (run w later)) j = Some {| kind := k; phase := AwaitCapture i o doc |}.
Proof.
  revert w; induction later as [|e later IH]; intros w HS Hj Hq; [exact Hj|].
  simpl in Hq. apply andb_true_iff in Hq as [He Hq]. simpl.
  apply IH; [now apply single_step| |exact Hq].
  rewrite (step_next sections addImageThrows saveThrows w e j HS Hj).
  destruct e; try discriminate; reflexivity.
Qed.

Lemma signals_open (section : HTMLElement) (later : list Event) (w : World num)
    (j : nat) (k : ExportKind) (pending : list nat) :
  nth_error sections 0 = Some section ->
  SingleFlight w ->
  nth_error (jobs w) j = Some {| kind := k; phase := AwaitImages pending |} ->
  pending <> [] ->
  forallb readinessOnly later = true ->
  (forall i, In i pending -> signalled i later) ->
  nth_error (jobs (run w later)) j
    = Some {| kind := k;
              phase := AwaitCapture 0 (captureOptions section) (newDocument k) |}.
Proof.
  intros Hsec. revert w pending.
  induction later as [|e later IH]; intros w pending HS Hj Hne Hq Hall.
  - destruct pending as [|i rest]; [congruence|].
    destruct (Hall i (or_introl eq_refl)) as [[nw []]|[]].
  - simpl in Hq. apply andb_true_iff in Hq as [He Hq]. simpl.
    pose proof (step_next sections addImageThrows saveThrows w e j HS Hj) as Hj'.
    pose proof (@single_step _ _ sections addImageThrows saveThrows w e HS) as HS'.
    assert (Hquiet : (forall i, e <> ImageError i) ->
                     (forall i nw, e <> ImageLoad i nw) ->
                     nextPhase (images w) j k (AwaitImages pending) e
                       = AwaitImages pending ->
                     nth_error (jobs (run (step w e) later)) j
                     = Some {| kind := k;
                               phase := AwaitCapture 0 (captureOptions section)
                                          (newDocument k) |}).
    { intros Hne1 Hne2 Hp. rewrite Hp in Hj'.
      apply (IH _ pending HS' Hj' Hne Hq).
      intros i Hin. destruct (signalled_cons (Hall i Hin)) as [[E|[nw E]]|Hs];
        [destruct (Hne1 i E)|destruct (Hne2 i nw E)|exact Hs]. }
    assert (Hsig : forall i0,
               (e = ImageError i0 \/ exists nw, e = ImageLoad i0 nw) ->
               nextPhase (images w) j k (AwaitImages pending) e
               = (if existsb (Nat.eqb i0) pending then
                    match filter (fun i' => negb (i0 =? i')%nat) pending with
                    | [] => afterLoop k 0 (newDocument k)
                    | rest => AwaitImages rest
                    end
                  else AwaitImages pending) ->
               nth_error (jobs (run (step w e) later)) j
               = Some {| kind := k;
                         phase := AwaitCapture 0 (captureOptions section)
                                    (newDocument k) |}).
    { intros i0 He0 Hp. rewrite Hp in Hj'.
      assert (Hrest : forall i, In i pending -> i <> i0 -> signalled i later).
      { intros i Hin Hi0.
        destruct (signalled_cons (Hall i Hin)) as [[E|[nw E]]|Hs]; [| |exact Hs];
          destruct He0 as [E0|[nw0 E0]]; congruence. }
      destruct (existsb (Nat.eqb i0) pending) eqn:Hex.
      - destruct (filter (fun i' => negb (i0 =? i')%nat) pending) as [|a rest] eqn:Hf.
        + rewrite (afterLoop_first k (newDocument k) Hsec) in Hj'.
          now apply capture_stays.
        + apply (IH _ (a :: rest) HS' Hj'); [discriminate|exact Hq|].
          intros i Hin. rewrite <- Hf in Hin. apply filter_In in Hin as [Hin Hi].
          apply Hrest; [exact Hin|].
          apply negb_true_iff, Nat.eqb_neq in Hi. congruence.
      - apply (IH _ pending HS' Hj' Hne Hq).
        intros i Hin. apply Hrest; [exact Hin|]. intros ->.
        assert (existsb (Nat.eqb i0) pending = true); [|congruence].
        apply existsb_exists. exists i0. split; [exact Hin|apply Nat.eqb_refl]. }
    destruct e as [k'| |j' s|i nw|i|j' s|j' s]; try discriminate.
    + apply Hquiet; [discriminate|discriminate|reflexivity].
    + apply Hquiet; [discriminate|discriminate|reflexivity].
    + apply (Hsig i); [right; eauto|reflexivity].
    + apply (Hsig i); [now left|reflexivity].
Qed.

(** X3.  When the fonts become ready for a job, it goes straight on to
    capture the first section exactly when the wait of every image of the
    document resolves at once (in particular when there is no image), that
    is when every image, tested after the attribute writes, is complete
    with a non-zero natural width; otherwise it waits on the images for
    which this fails, on each of them once and on no other.  A loaded image
    whose source starts with "http" and whose [crossorigin] state the write
    changes is among those: its load is restarted by the write. *)
Theorem gate_opens_at_once_iff_every_image_is_loaded
    (imgs : list HTMLImageElement) (evs : list Event) (j : nat) (k : ExportKind)
    (u : unit) :
  nth_error (jobs (run (initial imgs) evs)) j
    = Some {| kind := k; phase := AwaitFonts |} ->
  exists section,
    nth_error sections 0 = Some section /\
    nth_error (jobs (step (run (initial imgs) evs) (FontsSettled j (Fulfilled u)))) j
      = Some {| kind := k;
                phase :=
                  if forallb (fun img => snd (prepareImage img))
                       (images (run (initial imgs) evs))
                  then AwaitCapture 0 (captureOptions section) (newDocument k)
                  else AwaitImages
                         (snd (prepareImages (images (run (initial imgs) evs)))) |} /\
    NoDup (snd (prepareImages (images (run (initial imgs) evs)))) /\
    (forall i,
        In i (snd (prepareImages (images (run (initial imgs) evs)))) <->
        exists img,
          nth_error (images (run (initial imgs) evs)) i = Some img /\
          ~ (complete img = true /\ naturalWidth img <> 0%Z /\
             (String.prefix "http" (src img) = true -> restartsLoad img = false))) /\
    (forall i img,
        nth_error (images (run (initial imgs) evs)) i = Some img ->
        String.prefix "http" (src img) = true ->
        crossorigin img = None ->
        In i (snd (prepareImages (images (run (initial imgs) evs))))).
Proof.
  intros Hj.
  pose proof (single_reachable sections addImageThrows saveThrows imgs evs) as HS.
  pose proof (assembling_reachable sections addImageThrows saveThrows imgs evs)
    as [HA _].
  pose proof (HA j _ Hj) as Hne. simpl in Hne.
  set (w := run (initial imgs) evs) in *.
  destruct (nth_error sections 0) as [section|] eqn:Hsec;
    [|destruct sections; [congruence|discriminate]].
  assert (Hin : forall i,
             In i (snd (prepareImages (images w))) <->
             exists img,
               nth_error (images w) i = Some img /\
               ~ (complete img = true /\ naturalWidth img <> 0%Z /\
                  (String.prefix "http" (src img) = true ->
                   restartsLoad img = false))).
  { intros i. split.
    - intros Hi. apply pending_sound in Hi as (img & Hi & Hl).
      exists img. split; [exact Hi|]. rewrite <- resolves_at_once. congruence.
    - intros (img & Hi & Hl). apply (pending_unresolved _ _ Hi).
      rewrite <- resolves_at_once in Hl.
      destruct (snd (prepareImage img)); [now destruct Hl|reflexivity]. }
  exists section. split; [reflexivity|]. split; [|split; [|split]].
  - rewrite (step_next sections addImageThrows saveThrows w
               (FontsSettled j (Fulfilled u)) j HS Hj).
    unfold nextPhase. rewrite Nat.eqb_refl.
    pose proof (pending_none (images w)) as Hnone.
    destruct (snd (prepareImages (images w))) as [|i0 rest] eqn:Hp.
    + rewrite (proj1 Hnone eq_refl). now rewrite (afterLoop_first k _ Hsec).
    + destruct (forallb _ (images w)); [|reflexivity].
      discriminate (proj2 Hnone eq_refl).
  - unfold prepareImages. cbn [snd]. apply indicesFrom_NoDup.
  - exact Hin.
  - intros i img Hi Hhttp Hcors. apply Hin. exists img. split; [exact Hi|].
    intros (_ & _ & Hr). specialize (Hr Hhttp).
    unfold restartsLoad in Hr. rewrite Hcors in Hr. discriminate.
Qed.

(** X4.  The images may settle in any order: once every image a job waits
    on has fired [load] or [error], whatever the order, however often, and
    whatever clicks, commits and signals of other images come in between,
    the job has gone on to capture the first section. *)
Theorem image_signals_in_any_order_open_the_gate
    (imgs : list HTMLImageElement) (evs later : list Event) (j : nat)
    (k : ExportKind) (pending : list nat) :
  nth_error (jobs (run (initial imgs) evs)) j
    = Some {| kind := k; phase := AwaitImages pending |} ->
  forallb readinessOnly later = true ->
  (forall i, In i pending -> signalled i later) ->
  exists section,
    nth_error sections 0 = Some section /\
    nth_error (jobs (run (initial imgs) (evs ++ later))) j
      = Some {| kind := k;
                phase := AwaitCapture 0 (captureOptions section) (newDocument k) |}.
Proof.
  intros Hj Hq Hall.
  pose proof (single_reachable sections addImageThrows saveThrows imgs evs) as HS.
  pose proof (assembling_reachable sections addImageThrows saveThrows imgs evs)
    as [HA _].
  pose proof (HA j _ Hj) as Hne. simpl in Hne.
  destruct (nth_error sections 0) as [section|] eqn:Hsec;
    [|destruct sections; [congruence|discriminate]].
  exists section. split; [reflexivity|]. rewrite run_app.
  apply (@signals_open section later _ j k pending Hsec HS Hj); try assumption.
  exact (waiting_nonempty _ _ _ Hj).
Qed.

Lemma settled_next (imgs : list HTMLImageElement) (j : nat) (k : ExportKind)
    (o : Outcome) (e : Event) :
  nextPhase imgs j k (Settled o) e = Settled o.
Proof. destruct e; reflexivity. Qed.

End Waiting.

(** X3 on a document whose only image has loaded. *)
Lemma gate_opens_at_once_iff_every_image_is_loaded_witness :
  exists section,
    nth_error threeSections 0 = Some section /\
    nth_error
      (jobs (step threeSections neverThrows2 neverThrows
               (sampleRun threeSections [loadedImage] [Click pdf])
               (FontsSettled 0 (Fulfilled tt)))) 0
      = Some {| kind := pdf;
                phase := AwaitCapture 0 (captureOptions section) (newDocument pdf) |}.
Proof.
  destruct (@gate_opens_at_once_iff_every_image_is_loaded Binary64.float _
              threeSections neverThrows2 neverThrows [loadedImage] [Click pdf]
              0%nat pdf tt eq_refl) as (section & Hs & Hj & _).
  exists section. split; [exact Hs|exact Hj].
Defined.

(** X4 on two images, the second of which fires [error] twice, the first
    time before the first has loaded. *)
Lemma image_signals_in_any_order_open_the_gate_witness :
  exists section,
    nth_error threeSections 0 = Some section /\
    nth_error
      (jobs (sampleRun threeSections [loadingImage; brokenImage]
               ([Click ppt; FontsSettled 0 (Fulfilled tt)]
                  ++ [ImageError 1; Commit; ImageLoad 0 640; ImageError 1]))) 0
      = Some {| kind := ppt;
                phase := AwaitCapture 0 (captureOptions section) (newDocument ppt) |}.
Proof.
  apply (@image_signals_in_any_order_open_the_gate Binary64.float _ threeSections
           neverThrows2 neverThrows [loadingImage; brokenImage]
           [Click ppt; FontsSettled 0 (Fulfilled tt)]
           [ImageError 1; Commit; ImageLoad 0 640; ImageError 1]
           0%nat ppt [0%nat; 1%nat]).
  - reflexivity.
  - reflexivity.
  - intros i [<-|[<-|[]]].
    + left. exists 640%Z. simpl. auto.
    + right. simpl. auto.
Defined.

(** ** The triggers *)

Section Triggers.

Context {num : Type} `{Number num}.
Variable sections : list HTMLElement.
Variable addImageThrows : ExportKind -> PlacedImage num -> option Error.
Variable saveThrows : Document num -> option Error.

Local Abbreviation step := (step sections addImageThrows saveThrows).
Local Abbreviation run := (run sections addImageThrows saveThrows).

(** X6.  The controller is re-triggerable: whenever no job is in flight,
    whether none was ever started or the last one completed, failed or
    found no content, then once React has re-rendered a click on either
    trigger starts a new job of that kind, the only one in flight. *)
Theorem idle_controller_accepts_a_new_export
    (imgs : list HTMLImageElement) (evs : list Event) (k : ExportKind) :
  inFlightCount (run (initial imgs) evs) = 0%nat ->
  nth_error (jobs (run (initial imgs) (evs ++ [Commit; Click k])))
    (List.length (jobs (run (initial imgs) evs)))
    = Some {| kind := k;
              phase := match sections with
                       | [] => Settled NoContent
                       | _ :: _ => AwaitFonts
                       end |} /\
  List.length (jobs (run (initial imgs) (evs ++ [Commit; Click k])))
    = S (List.length (jobs (run (initial imgs) evs))) /\
  (sections <> [] ->
   exportingType (run (initial imgs) (evs ++ [Commit; Click k])) = Some k /\
   inFlightCount (run (initial imgs) (evs ++ [Commit; Click k])) = 1%nat).
Proof.
  intros Hc.
  pose proof (single_reachable sections addImageThrows saveThrows imgs
                (evs ++ [Commit; Click k])) as HS'.
  pose proof (single_count _ HS') as Hc'.
  pose proof (single_reachable sections addImageThrows saveThrows imgs evs) as HS.
  pose proof (single_count _ HS) as Hcount.
  rewrite run_app in *.
  set (w := run (initial imgs) evs) in *.
  destruct (exportingType w) eqn:He; [lia|].
  assert (E : run w [Commit; Click k] = start sections k (render w))
    by (destruct k; reflexivity).
  rewrite E in *. clear E. unfold start in *.
  assert (Hr : isExporting (render w) = false) by (simpl; now rewrite He).
  rewrite Hr in *. clear HS'.
  destruct sections as [|section rest]; cbn [jobs render setJobs setExportingType
    exportingType settle setPhase alert] in *.
  - rewrite setNth_last, nth_error_app2, Nat.sub_diag, length_app by lia.
    simpl. split; [reflexivity|]. split; [lia|congruence].
  - rewrite nth_error_app2, Nat.sub_diag, length_app by lia.
    simpl. split; [reflexivity|]. split; [lia|]. intros _. split; [reflexivity|].
    exact Hc'.
Qed.

Lemma onScreen_snoc (shown : option ExportKind) (w : World num) (evs : list Event)
    (e : Event) :
  onScreen sections addImageThrows saveThrows shown w (evs ++ [e])
  = rendered sections addImageThrows saveThrows
      (onScreen sections addImageThrows saveThrows shown w evs) (run w evs) e.
Proof.
  revert shown w; induction evs as [|e0 evs IH]; intros shown w; simpl;
    [reflexivity|apply IH].
Qed.

Lemma effect_state (w w' : World num) :
  Effect w w' ->
  isExporting w' = isExporting w /\
  (exportingType w' = exportingType w \/ exportingType w' = None).
Proof.
  intros [imgs' [->|(j & k & p & _ & _ & HR)]]; [split; [reflexivity|now left]|].
  destruct HR as [p' _|err|f].
  - split; [reflexivity|now left].
  - destruct k; split; try reflexivity; now right.
  - split; [reflexivity|now right].
Qed.

(** The screen and the controller: the flag the callbacks test is the flag
    the buttons were rendered with, and a state that is set is on screen. *)
Lemma screen_reachable (imgs : list HTMLImageElement) (evs : list Event) :
  isExporting (run (initial imgs) evs)
  = match onScreen sections addImageThrows saveThrows None (initial imgs) evs with
    | Some _ => true
    | None => false
    end /\
  (forall k,
      exportingType (run (initial imgs) evs) = Some k ->
      onScreen sections addImageThrows saveThrows None (initial imgs) evs = Some k).
Proof.
  induction evs as [|e evs [IHf IHs]] using rev_ind;
    [split; [reflexivity|discriminate]|].
  rewrite run_snoc, onScreen_snoc.
  pose proof (single_reachable sections addImageThrows saveThrows imgs evs) as HS.
  set (w := run (initial imgs) evs) in *.
  set (shown := onScreen sections addImageThrows saveThrows None (initial imgs) evs)
    in *.
  pose proof (step_effect sections addImageThrows saveThrows w e HS) as E.
  assert (HE : forall w',
            Effect w w' ->
            isExporting w' = match shown with Some _ => true | None => false end /\
            (forall k, exportingType w' = Some k -> shown = Some k)).
  { intros w' HEf. destruct (effect_state HEf) as [Hf [Hs|Hs]]; rewrite Hf, Hs;
      split; auto; discriminate. }
  destruct e as [k'| | | | | |]; try (apply HE; exact E).
  - unfold rendered. rewrite E. unfold start.
    destruct (isExporting w) eqn:Hrun; [split; [now rewrite Hrun|assumption]|].
    destruct sections; cbn [render isExporting exportingType setExportingType
      setJobs settle setPhase alert]; split; auto.
  - unfold rendered. rewrite E. cbn [render isExporting exportingType].
    split; auto.
Qed.

(** X7.  The buttons on screen follow the controller.  The two export
    buttons are disabled together, and exactly when the guard of the
    callbacks on screen drops a click; while a job is in flight they are
    disabled and the button of its kind, and no other, is labelled
    "Exporting…", so a button that is enabled means that no job is in
    flight; and once React has rendered after the last task, the buttons are
    disabled exactly when a job is in flight.  (Between the task that
    settles a job and the next render the buttons still show the job.) *)
Theorem buttons_follow_the_job
    (imgs : list HTMLImageElement) (evs : list Event) :
  disabled (fst (App (onScreen sections addImageThrows saveThrows None
                        (initial imgs) evs)))
    = isExporting (run (initial imgs) evs) /\
  disabled (snd (App (onScreen sections addImageThrows saveThrows None
                        (initial imgs) evs)))
    = isExporting (run (initial imgs) evs) /\
  (forall j k p,
      nth_error (jobs (run (initial imgs) evs)) j = Some {| kind := k; phase := p |} ->
      inFlight {| kind := k; phase := p |} = true ->
      onScreen sections addImageThrows saveThrows None (initial imgs) evs = Some k /\
      isExporting (run (initial imgs) evs) = true) /\
  (forall k,
      label (match k with pdf => fst | ppt => snd end
               (App (onScreen sections addImageThrows saveThrows None
                       (initial imgs) evs)))
        = "Exporting…"%string <->
      onScreen sections addImageThrows saveThrows None (initial imgs) evs = Some k) /\
  (isExporting (run (initial imgs) evs) = false ->
   inFlightCount (run (initial imgs) evs) = 0%nat) /\
  onScreen sections addImageThrows saveThrows None (initial imgs) (evs ++ [Commit])
    = exportingType (run (initial imgs) evs) /\
  disabled (fst (App (onScreen sections addImageThrows saveThrows None
                        (initial imgs) (evs ++ [Commit]))))
    = negb (inFlightCount (run (initial imgs) evs) =? 0)%nat.
Proof.
  pose proof (single_reachable sections addImageThrows saveThrows imgs evs) as HS.
  pose proof (single_count _ HS) as Hcount.
  destruct (screen_reachable imgs evs) as [Hflag Hshown].
  rewrite onScreen_snoc. cbn [rendered].
  set (w := run (initial imgs) evs) in *.
  set (shown := onScreen sections addImageThrows saveThrows None (initial imgs) evs)
    in *.
  assert (Hjob : forall j k p,
             nth_error (jobs w) j = Some {| kind := k; phase := p |} ->
             inFlight {| kind := k; phase := p |} = true ->
             exportingType w = Some k).
  { intros j k p Hj Hp. unfold SingleFlight in HS.
    destruct (exportingType w) as [k0|].
    - destruct HS as [_ (j0 & p0 & Hj0 & _ & Hu)].
      assert (j = j0) by (apply Hu; red; eauto). subst j. congruence.
    - exfalso. apply (HS j). red; eauto. }
  split; [|split; [|split; [|split; [|split; [|split]]]]].
  - rewrite Hflag. now destruct shown as [[|]|].
  - rewrite Hflag. now destruct shown as [[|]|].
  - intros j k p Hj Hp. pose proof (Hshown k (Hjob j k p Hj Hp)) as Hk.
    split; [exact Hk|]. now rewrite Hflag, Hk.
  - intros k. destruct k, shown as [[|]|]; simpl; split; intros E;
      try reflexivity; discriminate.
  - intros Hidle. destruct (exportingType w) as [k|] eqn:He; [|exact Hcount].
    rewrite Hflag, (Hshown k eq_refl) in Hidle. discriminate.
  - reflexivity.
  - destruct (exportingType w) as [[|]|]; rewrite Hcount; reflexivity.
Qed.

End Triggers.

(** X6 on the export that failed at its fourth section: a deck export can
    be started next. *)
Lemma idle_controller_accepts_a_new_export_witness :
  nth_error
    (jobs (sampleRun fiveSections []
             ((threeCaptured ++ [fourthCaptureRejected]) ++ [Commit; Click ppt]))) 1
  = Some {| kind := ppt; phase := AwaitFonts |}.
Proof.
  apply (proj1 (@idle_controller_accepts_a_new_export Binary64.float _ fiveSections
                  neverThrows2 neverThrows []
                  (threeCaptured ++ [fourthCaptureRejected]) ppt eq_refl)).
Defined.

(** ** Notices, the console and the files, job by job *)

Lemma flat_map_setNth_last {A B : Type} (f : A -> list B) (l : list A) (j : nat)
    (a v : A) :
  nth_error l j = Some a -> S j = List.length l -> f a = [] ->
  flat_map f (setNth j v l) = flat_map f l ++ f v.
Proof.
  revert j; induction l as [|b t IH]; intros [|j] Hj Hlen Ha; simpl in *;
    try discriminate.
  - injection Hj as ->. destruct t; [|discriminate].
    simpl. now rewrite Ha, !app_nil_r.
  - rewrite (IH j Hj) by (lia || assumption). now rewrite app_assoc.
Qed.

Lemma filter_setNth_last {A : Type} (f : A -> bool) (l : list A) (j : nat) (a v : A) :
  nth_error l j = Some a -> S j = List.length l -> f a = false ->
  filter f (setNth j v l) = filter f l ++ (if f v then [v] else []).
Proof.
  revert j; induction l as [|b t IH]; intros [|j] Hj Hlen Ha; simpl in *;
    try discriminate.
  - injection Hj as ->. destruct t; [|discriminate].
    simpl. rewrite Ha. destruct (f v); reflexivity.
  - rewrite (IH j Hj) by (lia || assumption). destruct (f b); reflexivity.
Qed.

Lemma Forall2_and_left {A B : Type} (R : A -> B -> Prop) (P : A -> Prop)
    (l : list A) (l' : list B) :
  Forall2 R l l' -> Forall P l -> Forall2 (fun a b => R a b /\ P a) l l'.
Proof.
  induction 1 as [|a b l l' Hab _ IH]; intros HP; constructor;
    inversion HP; subst; auto.
Qed.

Section Reports.

Context {num : Type} `{Number num}.
Variable sections : list HTMLElement.
Variable addImageThrows : ExportKind -> PlacedImage num -> option Error.
Variable saveThrows : Document num -> option Error.

Local Abbreviation step := (step sections addImageThrows saveThrows).
Local Abbreviation run := (run sections addImageThrows saveThrows).
Local Abbreviation loop := (loop sections saveThrows).
Local Abbreviation nextPhase := (nextPhase sections addImageThrows saveThrows).
Local Abbreviation artifact := (artifact sections).

Lemma unsettled_running (w : World num) (j : nat) :
  SingleFlight w -> unsettled w j -> isExporting w = true.
Proof.
  unfold SingleFlight. intros HS Hu. destruct (exportingType w).
  - apply HS.
  - destruct (HS j Hu).
Qed.

(** The job in flight is the one started last. *)
Lemma last_in_flight (imgs : list HTMLImageElement) (evs : list Event) (j : nat) :
  unsettled (run (initial imgs) evs) j ->
  S j = List.length (jobs (run (initial imgs) evs)).
Proof.
  revert j. induction evs as [|e evs IH] using rev_ind; intros j (job' & Hj' & Hfl).
  - destruct j; discriminate.
  - rewrite run_snoc in *.
    pose proof (single_reachable sections addImageThrows saveThrows imgs evs) as HS.
    set (w := run (initial imgs) evs) in *.
    assert (Hlt : (j < List.length (jobs (step w e)))%nat)
      by (apply nth_error_Some; congruence).
    destruct (nth_error (jobs w) j) as [[k p]|] eqn:Hj.
    + rewrite (step_next sections addImageThrows saveThrows w e j HS Hj) in Hj'.
      injection Hj' as <-.
      assert (Hp : inFlight {| kind := k; phase := p |} = true).
      { destruct p; try reflexivity.
        unfold inFlight in Hfl. simpl in Hfl.
        rewrite (settled_next sections addImageThrows saveThrows) in Hfl.
        discriminate. }
      assert (Hu : unsettled w j) by (red; eauto).
      pose proof (IH j Hu) as Hlast.
      pose proof (unsettled_running HS Hu) as Hrun.
      destruct (nth_error (jobs (step w e)) (List.length (jobs w))) as [job''|] eqn:Hn.
      * assert (Hnone : nth_error (jobs w) (List.length (jobs w)) = None)
          by (apply nth_error_None; lia).
        destruct (step_new sections addImageThrows saveThrows w e _ HS Hnone Hn)
          as (k1 & _ & Hidle & _). congruence.
      * apply nth_error_None in Hn. lia.
    + destruct (step_new sections addImageThrows saveThrows w e j HS Hj Hj')
        as (k1 & _ & _ & -> & _).
      destruct (nth_error (jobs (step w e)) (S (List.length (jobs w))))
        as [job''|] eqn:Hn.
      * assert (Hnone : nth_error (jobs w) (S (List.length (jobs w))) = None)
          by (apply nth_error_None; lia).
        destruct (step_new sections addImageThrows saveThrows w e _ HS Hnone Hn)
          as (k2 & _ & _ & Hlen & _). lia.
      * apply nth_error_None in Hn. lia.
Qed.

Lemma inFlight_silent (job : Job num) :
  inFlight job = true -> noticeOf job = [] /\ logOf job = [] /\ completed job = false.
Proof.
  unfold inFlight, noticeOf, logOf, completed.
  destruct (phase job); try discriminate; auto.
Qed.

Lemma reports_resumed (j : nat) (k : ExportKind) (p : Phase num) (w w' : World num) :
  nth_error (jobs w) j = Some {| kind := k; phase := p |} ->
  inFlight {| kind := k; phase := p |} = true ->
  S j = List.length (jobs w) ->
  Resumed j k w w' ->
  alerts w = flat_map noticeOf (jobs w) /\ console w = flat_map logOf (jobs w) ->
  alerts w' = flat_map noticeOf (jobs w') /\ console w' = flat_map logOf (jobs w').
Proof.
  intros Hj Hp Hlast HR [Ha Hc].
  destruct (inFlight_silent _ Hp) as (Hn & Hl & _).
  destruct HR as [p' Hp'|err|f].
  - destruct (inFlight_silent _ Hp') as (Hn' & Hl' & _). simpl.
    rewrite (flat_map_setNth_last noticeOf _ _ Hj Hlast Hn),
            (flat_map_setNth_last logOf _ _ Hj Hlast Hl), Hn', Hl', !app_nil_r.
    auto.
  - destruct k; simpl;
      rewrite (flat_map_setNth_last noticeOf _ _ Hj Hlast Hn),
              (flat_map_setNth_last logOf _ _ Hj Hlast Hl), Ha, Hc; auto.
  - simpl.
    rewrite (flat_map_setNth_last noticeOf _ _ Hj Hlast Hn),
            (flat_map_setNth_last logOf _ _ Hj Hlast Hl), !app_nil_r.
    auto.
Qed.

(** X8.  The notices and the console hold exactly what the jobs say, in the
    order in which the jobs were started: one notice for each job that
    found no content ("No content found to export.") or failed (the
    message of its kind), none for a job that completed or is in flight;
    and one console entry for each failed job, the label of its kind with
    the very error that was thrown. *)
Theorem notices_and_log_follow_the_jobs
    (imgs : list HTMLImageElement) (evs : list Event) :
  alerts (run (initial imgs) evs) = flat_map noticeOf (jobs (run (initial imgs) evs)) /\
  console (run (initial imgs) evs) = flat_map logOf (jobs (run (initial imgs) evs)).
Proof.
  induction evs as [|e evs IH] using rev_ind; [split; reflexivity|].
  rewrite run_snoc.
  pose proof (single_reachable sections addImageThrows saveThrows imgs evs) as HS.
  pose proof (@last_in_flight imgs evs) as Hlast.
  set (w := run (initial imgs) evs) in *.
  pose proof (step_effect sections addImageThrows saveThrows w e HS) as E.
  assert (HE : forall w', Effect w w' ->
            alerts w' = flat_map noticeOf (jobs w') /\
            console w' = flat_map logOf (jobs w')).
  { intros w' [imgs' [->|(j & k & p & Hj & Hp & HR)]]; [exact IH|].
    apply (@reports_resumed j k p (setImages imgs' w) w' Hj Hp); auto.
    apply Hlast. red; eauto. }
  destruct e as [k| | | | | |]; try (apply HE; exact E).
  - rewrite E. clear E HE. destruct IH as [Ha Hc]. unfold start.
    destruct (isExporting w); [auto|].
    destruct sections; simpl.
    + rewrite setNth_last, !flat_map_app, Ha, Hc. simpl. now rewrite !app_nil_r.
    + rewrite !flat_map_app, Ha, Hc. simpl. now rewrite !app_nil_r.
  - rewrite E. exact IH.
Qed.

Lemma throw_downloads (j : nat) (k : ExportKind) (err : Error) (w : World num) :
  downloads (throw j k err w) = downloads w.
Proof. destruct k; reflexivity. Qed.

Lemma loop_format (j : nat) (k : ExportKind) (i : nat) (doc : Document num)
    (w : World num) :
  downloads (loop j k i doc w) = downloads w \/
  exists f, format f = k /\ downloads (loop j k i doc w) = downloads w ++ [f].
Proof.
  unfold loop, finish. destruct (nth_error sections i); [now left|].
  destruct k; [|now left].
  destruct (saveThrows doc); [now left|].
  right.
  exists {| fileName := "presentation.pdf"%string; format := pdf; content := doc |}.
  split; reflexivity.
Qed.

(** A file is written in the format of the job that writes it. *)
Lemma step_format (w : World num) (e : Event) :
  SingleFlight w ->
  downloads (step w e) = downloads w \/
  exists j k p f,
    nth_error (jobs w) j = Some {| kind := k; phase := p |} /\
    inFlight {| kind := k; phase := p |} = true /\
    format f = k /\
    downloads (step w e) = downloads w ++ [f].
Proof.
  intros HS.
  assert (Hloop : forall j k p i doc imgs',
             nth_error (jobs w) j = Some {| kind := k; phase := p |} ->
             inFlight {| kind := k; phase := p |} = true ->
             downloads (loop j k i doc (setImages imgs' w)) = downloads w \/
             exists j1 k1 p1 f,
               nth_error (jobs w) j1 = Some {| kind := k1; phase := p1 |} /\
               inFlight {| kind := k1; phase := p1 |} = true /\
               format f = k1 /\
               downloads (loop j k i doc (setImages imgs' w)) = downloads w ++ [f]).
  { intros j k p i doc imgs' Hj Hp.
    destruct (loop_format j k i doc (setImages imgs' w)) as [E|(f & Hf & E)];
      [left; exact E|].
    right. exists j, k, p, f. auto. }
  assert (Hev : forall i nw,
             downloads (imageEvent sections saveThrows i nw w) = downloads w \/
             exists j k p f,
               nth_error (jobs w) j = Some {| kind := k; phase := p |} /\
               inFlight {| kind := k; phase := p |} = true /\
               format f = k /\
               downloads (imageEvent sections saveThrows i nw w) = downloads w ++ [f]).
  { intros i nw.
    destruct (@imageEvent_done _ _ sections saveThrows i nw w HS)
      as (imgs' & j0 & _ & ->).
    unfold done.
    destruct (nth_error (jobs (setImages imgs' w)) j0) as [[k p]|] eqn:Hj;
      [|now left].
    destruct p; try now left.
    destruct (existsb _ pending); [|now left].
    destruct (filter _ pending); [|now left].
    now apply (Hloop j0 k (AwaitImages pending)). }
  destruct e as [k'| |j s|i nw|i|j s|j s]; simpl.
  - left. destruct k'; unfold exportToPdf, exportToPpt, start;
      destruct (isExporting w); try reflexivity; destruct sections; reflexivity.
  - now left.
  - unfold fontsSettled.
    destruct (nth_error (jobs w) j) as [[k p]|] eqn:Hj; [|now left].
    destruct p; try now left.
    destruct s as [u|err]; [|left; apply throw_downloads].
    unfold prepareImages. cbv beta iota.
    destruct (indicesFrom _ 0 (images w)); [|now left].
    now apply (Hloop j k AwaitFonts).
  - apply Hev.
  - apply Hev.
  - unfold captureSettled.
    destruct (nth_error (jobs w) j) as [[k p]|] eqn:Hj; [|now left].
    destruct p; try now left.
    destruct s as [[err|imgData]|err]; try (left; apply throw_downloads).
    destruct (append _ _ _ _ _ _); [left; apply throw_downloads|].
    rewrite <- (setImages_same w) at 1.
    now apply (Hloop j k (AwaitCapture i o doc)).
  - unfold writeFileSettled.
    destruct (nth_error (jobs w) j) as [[k p]|] eqn:Hj; [|now left].
    destruct p; try now left.
    destruct s as [u|err]; [|left; apply throw_downloads].
    right.
    exists j, k, (AwaitWriteFile doc),
      {| fileName := "presentation.pptx"%string; format := k; content := doc |}.
    split; [exact Hj|]. split; [reflexivity|]. split; reflexivity.
Qed.

Lemma formats_reachable (imgs : list HTMLImageElement) (evs : list Event) :
  Forall2 (fun f job => format f = kind job)
    (downloads (run (initial imgs) evs))
    (filter completed (jobs (run (initial imgs) evs))).
Proof.
  induction evs as [|e evs IH] using rev_ind; [constructor|].
  rewrite run_snoc.
  pose proof (single_reachable sections addImageThrows saveThrows imgs evs) as HS.
  pose proof (@last_in_flight imgs evs) as Hlast.
  set (w := run (initial imgs) evs) in *.
  pose proof (step_effect sections addImageThrows saveThrows w e HS) as E.
  pose proof (@step_format w e HS) as HF.
  assert (HE : forall w',
            Effect w w' ->
            (downloads w' = downloads w \/
             exists j k p f,
               nth_error (jobs w) j = Some {| kind := k; phase := p |} /\
               inFlight {| kind := k; phase := p |} = true /\
               format f = k /\ downloads w' = downloads w ++ [f]) ->
            Forall2 (fun f job => format f = kind job)
              (downloads w') (filter completed (jobs w'))).
  { intros w' [imgs' [->|(j & k & p & Hj & Hp & HR)]] HF'; [exact IH|].
    simpl in Hj.
    assert (Hl : S j = List.length (jobs w)) by (apply Hlast; red; eauto).
    destruct (inFlight_silent _ Hp) as (_ & _ & Hc).
    destruct HR as [p' Hp'|err|f].
    - destruct (inFlight_silent _ Hp') as (_ & _ & Hc'). simpl.
      rewrite (filter_setNth_last completed _ _ Hj Hl Hc), Hc', app_nil_r.
      exact IH.
    - rewrite throw_downloads.
      assert (Hjobs : jobs (throw j k err (setImages imgs' w))
                      = setNth j {| kind := k; phase := Settled (Failed err) |}
                          (jobs w)) by (destruct k; reflexivity).
      rewrite Hjobs, (filter_setNth_last completed _ _ Hj Hl Hc). simpl.
      rewrite app_nil_r. exact IH.
    - simpl. rewrite (filter_setNth_last completed _ _ Hj Hl Hc). simpl.
      apply Forall2_app; [exact IH|]. constructor; [|constructor]. simpl.
      destruct HF' as [HF'|(j2 & k2 & p2 & f2 & Hj2 & Hp2 & Hf2 & HF')];
        simpl in HF'.
      + exfalso. apply (f_equal (@List.length _)) in HF'.
        rewrite length_app in HF'. simpl in HF'. lia.
      + apply app_inj_tail in HF' as [_ ->].
        assert (Hl2 : S j2 = List.length (jobs w)) by (apply Hlast; red; eauto).
        assert (j2 = j) by lia. subst j2. congruence. }
  destruct e as [k| | | | | |]; try (apply HE; [exact E|exact HF]).
  - rewrite E. clear E HE HF. unfold start.
    destruct (isExporting w); [exact IH|].
    destruct sections; simpl.
    + rewrite setNth_last, filter_app. simpl. now rewrite app_nil_r.
    + rewrite filter_app. simpl. now rewrite app_nil_r.
  - rewrite E. exact IH.
Qed.

(** X9.  The download target holds, in order, one file for each job that
    ran to its end and nothing else: the file of a completed paginated
    export is named "presentation.pdf", that of a completed deck export
    "presentation.pptx", each is in the format of its job and holds one
    page (slide) per section with the capture of that section. *)
Theorem each_file_belongs_to_a_completed_job
    (imgs : list HTMLImageElement) (evs : list Event) :
  Forall2
    (fun f job =>
       exists ds, List.length ds = List.length sections /\ f = artifact (kind job) ds)
    (downloads (run (initial imgs) evs))
    (filter completed (jobs (run (initial imgs) evs))).
Proof.
  pose proof (assembling_reachable sections addImageThrows saveThrows imgs evs)
    as [_ HA].
  pose proof (Forall2_and_left (formats_reachable imgs evs) HA) as HF.
  eapply Forall2_impl; [|exact HF].
  intros [name fmt doc] job [Hfmt (_ & Hname & ds & Hlen & Hdoc)].
  simpl in *. exists ds. split; [exact Hlen|].
  unfold artifact. subst fmt. rewrite Hname, Hdoc. reflexivity.
Qed.

End Reports.

(** ** The capture scale on binary64 numbers *)

Section Binary64Numbers.

Import Binary64.
Local Open Scope Z_scope.

Lemma shr_1_nonneg (mrs : shr_record) : 0 <= shr_m mrs -> 0 <= shr_m (shr_1 mrs).
Proof. destruct mrs as [[|[p|p|]|p] r s]; simpl; lia. Qed.

Lemma iter_shr_1_nonneg (p : positive) (mrs : shr_record) :
  0 <= shr_m mrs -> 0 <= shr_m (iter_pos shr_1 p mrs).
Proof.
  revert mrs; induction p as [p IH|p IH|]; intros mrs Hm; simpl.
  - apply IH, IH, shr_1_nonneg, Hm.
  - apply IH, IH, Hm.
  - apply shr_1_nonneg, Hm.
Qed.

Lemma shr_fexp_nonneg (m e : Z) (l : location) :
  0 <= m -> 0 <= shr_m (fst (shr_fexp prec emax m e l)).
Proof.
  intros Hm. unfold shr_fexp, shr.
  assert (Hr : 0 <= shr_m (shr_record_of_loc m l)) by (destruct l as [|[]]; exact Hm).
  destruct (fexp prec emax (Zdigits2 m + e) - e); cbn [fst]; auto.
  now apply iter_shr_1_nonneg.
Qed.

Lemma round_nearest_even_nonneg (m : Z) (l : location) :
  0 <= m -> 0 <= round_nearest_even m l.
Proof.
  intros Hm. destruct l as [|[]]; simpl; try lia. destruct (Z.even m); lia.
Qed.

(** Rounding a non-negative mantissa gives a zero, a finite number or an
    infinity of the given sign, never NaN. *)
Lemma round_aux_cases (sx : bool) (mx ex : Z) (lx : location) :
  0 <= mx ->
  binary_round_aux prec emax sx mx ex lx = S754_zero sx \/
  binary_round_aux prec emax sx mx ex lx = S754_infinity sx \/
  exists m e, binary_round_aux prec emax sx mx ex lx = S754_finite sx m e.
Proof.
  intros Hm. unfold binary_round_aux.
  pose proof (shr_fexp_nonneg ex lx Hm) as H1.
  destruct (shr_fexp prec emax mx ex lx) as [mrs' e']. cbn [fst] in H1.
  pose proof (shr_fexp_nonneg e' loc_Exact
                (round_nearest_even_nonneg (loc_of_shr_record mrs') H1)) as H2.
  destruct (shr_fexp prec emax
              (round_nearest_even (shr_m mrs') (loc_of_shr_record mrs')) e' loc_Exact)
    as [mrs'' e''].
  cbn [fst] in H2. destruct (shr_m mrs'') as [|m|m]; [auto| |lia].
  destruct (e'' <=? emax - prec); eauto.
Qed.

Lemma round_aux_number (sx : bool) (mx ex : Z) (lx : location) :
  0 <= mx ->
  binary_round_aux prec emax sx mx ex lx <> S754_nan /\
  (sx = false -> nonNegative (binary_round_aux prec emax sx mx ex lx) = true).
Proof.
  intros Hm.
  destruct (round_aux_cases sx ex lx Hm) as [->|[->|(m & e & ->)]];
    (split; [discriminate|intros ->; reflexivity]).
Qed.

Lemma of_int_number (z : Z) :
  of_int z <> S754_nan /\ (0 <= z -> nonNegative (of_int z) = true).
Proof.
  unfold of_int, binary_normalize, binary_round.
  destruct z as [|p|p].
  - split; [discriminate|reflexivity].
  - destruct (shl_align p 0 _) as [mz ez].
    destruct (@round_aux_number false (Z.pos mz) ez loc_Exact) as [Hn Hs]; [lia|].
    auto.
  - destruct (shl_align p 0 _) as [mz ez].
    destruct (@round_aux_number true (Z.pos mz) ez loc_Exact) as [Hn Hs]; [lia|].
    split; [exact Hn|lia].
Qed.

Lemma SFcompare_number (x y : float) :
  x <> S754_nan -> y <> S754_nan -> SFcompare x y <> None.
Proof.
  intros Hx Hy. destruct x, y; simpl; try congruence; discriminate.
Qed.

Lemma max_cases (x y : float) :
  x <> S754_nan -> y <> S754_nan -> max x y = x \/ max x y = y.
Proof.
  intros Hx Hy. pose proof (SFcompare_number Hx Hy) as Hc. unfold max.
  destruct (SFcompare x y) as [[| |]|]; auto; [|congruence].
  destruct x as [[|]| | |]; auto.
Qed.

Lemma min_cases (x y : float) :
  x <> S754_nan -> y <> S754_nan -> min x y = x \/ min x y = y.
Proof.
  intros Hx Hy. pose proof (SFcompare_number Hx Hy) as Hc. unfold min.
  destruct (SFcompare x y) as [[| |]|]; auto; [|congruence].
  destruct x as [[|]| | |]; auto.
Qed.

(** A finite number divided by a number is a number, and a non-negative
    one when both are. *)
Lemma div_number (sx : bool) (mx : positive) (ex : Z) (y : float) :
  y <> S754_nan ->
  SFdiv prec emax (S754_finite sx mx ex) y <> S754_nan /\
  (sx = false -> nonNegative y = true ->
   nonNegative (SFdiv prec emax (S754_finite sx mx ex) y) = true).
Proof.
  intros Hy. destruct y as [sy|sy| |sy my ey]; try congruence.
  - split; [discriminate|]. intros -> Hs. destruct sy; [discriminate|reflexivity].
  - split; [discriminate|]. intros -> Hs. destruct sy; [discriminate|reflexivity].
  - unfold SFdiv, SFdiv_core_binary.
    set (e' := Z.min _ _).
    set (m' := match ex - ey - e' with
               | 0 => Z.pos mx
               | Z.pos _ => Z.shiftl (Z.pos mx) (ex - ey - e')
               | Z.neg _ => 0
               end).
    assert (Hm' : 0 <= m').
    { subst m'. destruct (ex - ey - e'); try lia. apply Z.shiftl_nonneg. lia. }
    pose proof (Z.div_pos m' (Z.pos my) Hm' ltac:(lia)) as Hq.
    unfold Z.div in Hq. destruct (Z.div_eucl m' (Z.pos my)) as [q r].
    cbn [fst] in Hq.
    destruct (@round_aux_number (xorb sx sy) q e' (new_location (Z.pos my) r) Hq)
      as [Hn Hs].
    split; [exact Hn|]. intros -> Hsy. destruct sy; [discriminate|]. now apply Hs.
Qed.

Lemma nonNegative_le (x : float) :
  nonNegative x = true -> SFleb (S754_zero false) x = true.
Proof. destruct x as [[|]|[|]| |[|] m e]; simpl; try discriminate; reflexivity. Qed.

Lemma section_nonzero (a b c : Z) : c <> 0 -> (a || b || c) <> 0.
Proof.
  intros Hc. unfold or_else.
  repeat match goal with
         | |- context [(?x =? 0)] => destruct (Z.eqb_spec x 0)
         end; assumption.
Qed.

Lemma section_positive (a b c : Z) : 0 <= a -> 0 <= b -> 0 < c -> 0 < (a || b || c).
Proof.
  intros Ha Hb Hc. unfold or_else.
  repeat match goal with
         | |- context [(?x =? 0)] => destruct (Z.eqb_spec x 0)
         end; lia.
Qed.

(** X10.  On the binary64 numbers the program runs on, for every section
    whatever its layout attributes: the width and height that are used are
    never 0 (the fallback to 1600 and 900 sees to that), the capture scale
    is a number, never NaN, and it is at most 2; and when the four layout
    attributes are non-negative, as the DOM reports them, the scale is not
    negative. *)
Theorem capture_scale_is_a_number_at_most_two (section : HTMLElement) :
  sectionWidth section <> 0 /\
  sectionHeight section <> 0 /\
  (captureScale section : float) <> S754_nan /\
  (captureScale section <= (of_Z 2 : float))%js /\
  (0 <= scrollWidth section /\ 0 <= offsetWidth section /\
   0 <= scrollHeight section /\ 0 <= offsetHeight section ->
   ((of_Z 0 : float) <= captureScale section)%js).
Proof.
  split; [now apply section_nonzero|]. split; [now apply section_nonzero|].
  destruct (of_int_number (sectionWidth section)) as [Hw Hw0].
  destruct (of_int_number (sectionHeight section)) as [Hh Hh0].
  set (M := max (of_int (sectionWidth section)) (of_int (sectionHeight section))).
  assert (HM : M <> S754_nan)
    by (destruct (max_cases Hw Hh) as [E|E]; fold M in E; now rewrite E).
  destruct (@div_number false 7036874417766400 (-42) M HM) as [Hq Hq0].
  set (q := SFdiv prec emax (S754_finite false 7036874417766400 (-42)) M) in *.
  assert (H2 : of_int 2 <> S754_nan) by apply of_int_number.
  assert (Hscale : (captureScale section : float) = min (of_int 2) q)
    by reflexivity.
  rewrite Hscale. clear Hscale.
  split; [|split].
  - destruct (min_cases H2 Hq) as [E|E]; now rewrite E.
  - exact (proj1 (@binary64_min_le (of_int 2) q (SFcompare_number H2 Hq))).
  - intros (Ha & Hb & Hc & Hd).
    assert (HM0 : nonNegative M = true).
    { destruct (max_cases Hw Hh) as [E|E]; fold M in E; rewrite E.
      - apply Hw0. apply Z.lt_le_incl. apply section_positive; lia.
      - apply Hh0. apply Z.lt_le_incl. apply section_positive; lia. }
    apply (@nonNegative_le (min (of_int 2) q)).
    destruct (min_cases H2 Hq) as [E|E]; rewrite E.
    + reflexivity.
    + now apply Hq0.
Qed.

End Binary64Numbers.

(** ** Fitting and scaling without rounding *)

Section ExactFit.

Local Open Scope Q_scope.

Lemma exact_min_case (x y : Q) :
  (x <= y -> Exact.min x y == x) /\ (y <= x -> Exact.min x y == y).
Proof.
  unfold Exact.min. destruct (Qle_bool x y) eqn:E.
  - apply Qle_bool_iff in E. split; intros Hle; [reflexivity|].
    now apply Qle_antisym.
  - split; intros Hle; [|reflexivity].
    apply Qle_bool_iff in Hle. congruence.
Qed.

Lemma exact_nonzero (x : Q) : 0 < x -> ~ x == 0.
Proof. intros Hx E. rewrite E in Hx. exact (Qlt_irrefl 0 Hx). Qed.

Lemma exact_quotients (a b W H : Q) :
  0 < W -> 0 < H -> a * H <= b * W -> a / W <= b / H.
Proof.
  intros HW HH Hle.
  pose proof (exact_nonzero HW) as HW0. pose proof (exact_nonzero HH) as HH0.
  setoid_replace (a / W) with (a * H * / (W * H)) by (field; auto).
  setoid_replace (b / H) with (b * W * / (W * H)) by (field; auto).
  apply Qmult_le_compat_r; [exact Hle|].
  apply Qlt_le_weak, Qinv_lt_0_compat. 
  rewrite <- (Qmult_0_l H). apply Qmult_lt_compat_r; assumption.
Qed.

(** X12.  Aspect fit on the page, in exact arithmetic (the formulas of the
    code over the rationals, without the rounding of binary64): a bitmap of
    positive size keeps its aspect ratio, and it fills the 20 x 11.25 page
    in one direction: a bitmap at most as wide as 16:9 is placed 11.25 high
    and [11.25 * W / H] wide, a bitmap at least as wide as 16:9 is placed 20
    wide and [20 * H / W] high. *)
Theorem page_fit_fills_the_page_exactly (W H : Q) :
  0 < W -> 0 < H ->
  (9 * W <= 16 * H ->
   h (fitPage W H) == 1125 # 100 /\ w (fitPage W H) == (1125 # 100) * W / H) /\
  (16 * H <= 9 * W ->
   w (fitPage W H) == 20 /\ h (fitPage W H) == 20 * H / W) /\
  w (fitPage W H) * H == h (fitPage W H) * W.
Proof.
  intros HW HH.
  pose proof (exact_nonzero HW) as HW0. pose proof (exact_nonzero HH) as HH0.
  unfold fitPage, pageRatio, pageWidth, pageHeight, margin, literal. simpl.
  set (a := (inject_Z 20 - inject_Z 0 * inject_Z 2) / W).
  set (b := (inject_Z 1125 / inject_Z 100 - inject_Z 0 * inject_Z 2) / H).
  destruct (exact_min_case a b) as [Ha Hb].
  split; [|split].
  - intros Hle.
    assert (Hba : b <= a).
    { subst a b. apply exact_quotients; try assumption.
      setoid_replace (inject_Z 20 - inject_Z 0 * inject_Z 2) with 20 by reflexivity.
      setoid_replace (inject_Z 1125 / inject_Z 100 - inject_Z 0 * inject_Z 2)
        with (45 # 4) by reflexivity.
      lra. }
    rewrite (Hb Hba). subst b. split; field; assumption.
  - intros Hle.
    assert (Hab : a <= b).
    { subst a b. apply exact_quotients; try assumption.
      setoid_replace (inject_Z 20 - inject_Z 0 * inject_Z 2) with 20 by reflexivity.
      setoid_replace (inject_Z 1125 / inject_Z 100 - inject_Z 0 * inject_Z 2)
        with (45 # 4) by reflexivity.
      lra. }
    rewrite (Ha Hab). subst a. split; field; assumption.
  - ring.
Qed.

(** X13.  Aspect fit on the slide, in exact arithmetic (the formulas of
    the code over the rationals, without the rounding of binary64): a bitmap
    of positive size keeps its aspect ratio and fills the 10 x 5.625 slide
    in one direction, whatever the 96 pixels per inch: a bitmap at most as
    wide as 16:9 is placed 5.625 high at [y = 0], a bitmap at least as wide
    as 16:9 is placed 10 wide at [x = 0], and the other offset is not
    negative, so the image lies on the slide. *)
Theorem slide_fit_stays_on_the_slide_exactly (W H : Q) :
  0 < W -> 0 < H ->
  (9 * W <= 16 * H ->
   y (fitSlide W H) == 0 /\ h (fitSlide W H) == 5625 # 1000 /\
   w (fitSlide W H) == (5625 # 1000) * W / H /\ 0 <= x (fitSlide W H)) /\
  (16 * H <= 9 * W ->
   x (fitSlide W H) == 0 /\ w (fitSlide W H) == 10 /\
   h (fitSlide W H) == 10 * H / W /\ 0 <= y (fitSlide W H)) /\
  w (fitSlide W H) * H == h (fitSlide W H) * W.
Proof.
  intros HW HH.
  pose proof (exact_nonzero HW) as HW0. pose proof (exact_nonzero HH) as HH0.
  unfold fitSlide, slideRatio, slideWidth, slideHeight, pxToIn, literal. simpl.
  change (inject_Z 10) with 10. change (inject_Z 5625) with 5625.
  change (inject_Z 1000) with 1000. change (inject_Z 96) with 96.
  change (inject_Z 2) with 2.
  set (a := 10 / (W / 96)).
  set (b := 5625 / 1000 / (H / 96)).
  assert (HW96 : 0 < W / 96) by (apply Qlt_shift_div_l; [reflexivity|lra]).
  assert (HH96 : 0 < H / 96) by (apply Qlt_shift_div_l; [reflexivity|lra]).
  destruct (exact_min_case a b) as [Ha Hb].
  split; [|split].
  - intros Hle.
    assert (Hba : b <= a).
    { subst a b. apply exact_quotients; try assumption.
      setoid_replace (5625 / 1000 * (W / 96)) with ((15 # 256) * W) by field.
      setoid_replace (10 * (H / 96)) with ((5 # 48) * H) by field.
      lra. }
    rewrite (Hb Hba). subst b.
    split; [field; assumption|]. split; [field; assumption|].
    split; [field; assumption|].
    setoid_replace ((10 - W / 96 * (5625 / 1000 / (H / 96))) / 2)
      with ((80 * H - 45 * W) / (16 * H)) by (field; assumption).
    apply Qle_shift_div_l; lra.
  - intros Hle.
    assert (Hab : a <= b).
    { subst a b. apply exact_quotients; try assumption.
      setoid_replace (5625 / 1000 * (W / 96)) with ((15 # 256) * W) by field.
      setoid_replace (10 * (H / 96)) with ((5 # 48) * H) by field.
      lra. }
    rewrite (Ha Hab). subst a.
    split; [field; assumption|]. split; [field; assumption|].
    split; [field; assumption|].
    setoid_replace ((5625 / 1000 - H / 96 * (10 / (W / 96))) / 2)
      with ((45 * W - 80 * H) / (16 * W)) by (field; assumption).
    apply Qle_shift_div_l; lra.
  - field.
Qed.

Lemma exact_maxDim (section : HTMLElement) :
  maxDim section = inject_Z (Z.max (sectionWidth section) (sectionHeight section)).
Proof.
  unfold maxDim. simpl. unfold Exact.max.
  destruct (Qle_bool _ _) eqn:E.
  - apply Qle_bool_iff in E. rewrite <- Zle_Qle in E. now rewrite Z.max_r.
  - rewrite Z.max_l; [reflexivity|].
    destruct (Z.le_ge_cases (sectionHeight section) (sectionWidth section)) as [Hle|Hle];
      [exact Hle|].
    rewrite Zle_Qle in Hle. apply Qle_bool_iff in Hle. congruence.
Qed.

(** X11.  The capture scale in exact arithmetic (the formulas of the code
    over the rationals, without the rounding of binary64), for a section
    whose layout attributes are not negative: the scale is positive and at
    most 2; it is 2 when the longer edge is at most 800 pixels and
    [1600 / longer edge] when it is at least 800; and either edge times the
    scale is at most 1600. *)
Theorem capture_scale_caps_the_long_edge_exactly (section : HTMLElement) :
  (0 <= scrollWidth section /\ 0 <= offsetWidth section /\
   0 <= scrollHeight section /\ 0 <= offsetHeight section)%Z ->
  0 < captureScale section /\
  captureScale section <= 2 /\
  ((Z.max (sectionWidth section) (sectionHeight section) <= 800)%Z ->
   captureScale section == 2) /\
  ((800 <= Z.max (sectionWidth section) (sectionHeight section))%Z ->
   captureScale section
     == 1600 / inject_Z (Z.max (sectionWidth section) (sectionHeight section))) /\
  inject_Z (sectionWidth section) * captureScale section <= 1600 /\
  inject_Z (sectionHeight section) * captureScale section <= 1600.
Proof.
  intros (Ha & Hb & Hc & Hd).
  assert (Hw : (0 < sectionWidth section)%Z) by (apply section_positive; lia).
  assert (Hh : (0 < sectionHeight section)%Z) by (apply section_positive; lia).
  unfold captureScale. rewrite exact_maxDim. simpl.
  set (M := Z.max (sectionWidth section) (sectionHeight section)).
  assert (HM : (0 < M)%Z) by (subst M; lia).
  assert (HwM : (sectionWidth section <= M)%Z) by (subst M; lia).
  assert (HhM : (sectionHeight section <= M)%Z) by (subst M; lia).
  rewrite Zle_Qle in HwM, HhM.
  assert (Hw' : 0 <= inject_Z (sectionWidth section))
    by (change 0 with (inject_Z 0); rewrite <- Zle_Qle; lia).
  assert (Hh' : 0 <= inject_Z (sectionHeight section))
    by (change 0 with (inject_Z 0); rewrite <- Zle_Qle; lia).
  assert (HM' : 0 < inject_Z M)
    by (change 0 with (inject_Z 0); rewrite <- Zlt_Qlt; lia).
  change (inject_Z 2) with 2. change (inject_Z 1600) with 1600.
  set (m := inject_Z M) in *.
  set (q := 1600 / m).
  assert (Hq : 0 < q) by (apply Qlt_shift_div_l; [exact HM'|lra]).
  assert (Hqm : m * q == 1600)
    by (subst q; field; now apply exact_nonzero).
  destruct (exact_min_case 2 q) as [H2 Hq2].
  pose proof (exact_min_l 2 q) as Hl. pose proof (exact_min_r 2 q) as Hr.
  assert (Hpos : 0 < Exact.min 2 q)
    by (unfold Exact.min; destruct (Qle_bool 2 q); [reflexivity|exact Hq]).
  split; [exact Hpos|]. split; [exact Hl|].
  split; [|split; [|split]].
  - intros Hle. apply H2. subst q. apply Qle_shift_div_l; [exact HM'|].
    assert (Hle' : m <= 800)
      by (subst m; change 800 with (inject_Z 800); rewrite <- Zle_Qle; exact Hle).
    lra.
  - intros Hle. apply Hq2. subst q. apply Qle_shift_div_r; [exact HM'|].
    assert (Hle' : 800 <= m)
      by (subst m; change 800 with (inject_Z 800); rewrite <- Zle_Qle; exact Hle).
    lra.
  - nra.
  - nra.
Qed.
End ExactFit.

(** X11 on a section of 3200 x 900 pixels. *)
Lemma capture_scale_caps_the_long_edge_exactly_witness :
  (captureScale (sized 3200 900) == 1600 / inject_Z 3200)%Q /\
  (inject_Z 3200 * captureScale (sized 3200 900) <= 1600)%Q.
Proof.
  assert (Hattrs : (0 <= scrollWidth (sized 3200 900) /\
                    0 <= offsetWidth (sized 3200 900) /\
                    0 <= scrollHeight (sized 3200 900) /\
                    0 <= offsetHeight (sized 3200 900))%Z)
    by (repeat split; discriminate).
  destruct (@capture_scale_caps_the_long_edge_exactly (sized 3200 900) Hattrs)
    as (_ & _ & _ & Hlong & Hw & _).
  split; [apply Hlong; discriminate|exact Hw].
Defined.

(** X12 on a bitmap of 1600 x 900 pixels, which fills the page. *)
Lemma page_fit_fills_the_page_exactly_witness :
  (w (fitPage 1600 900) == 20 /\ h (fitPage 1600 900) == 20 * 900 / 1600)%Q.
Proof.
  destruct (@page_fit_fills_the_page_exactly 1600 900 eq_refl eq_refl)
    as (_ & Hwide & _).
  apply Hwide. discriminate.
Defined.

(** X13 on a bitmap of 800 x 1200 pixels, placed at full height. *)
Lemma slide_fit_stays_on_the_slide_exactly_witness :
  (y (fitSlide 800 1200) == 0 /\ h (fitSlide 800 1200) == 5625 # 1000 /\
   w (fitSlide 800 1200) == (5625 # 1000) * 800 / 1200 /\
   0 <= x (fitSlide 800 1200))%Q.
Proof.
  destruct (@slide_fit_stays_on_the_slide_exactly 800 1200 eq_refl eq_refl)
    as (Hnarrow & _ & _).
  apply Hnarrow. discriminate.
Defined.
